(** * ATS resume scoring engine: shallow embedding and verified properties

    This development embeds the scoring core of the ATS resume project
    ([ats_app/utils/nlp_processor.py] and [ats_app/utils/score_calculator.py])
    and proves the properties its specification states about it.  It goes on
    to the code around the core: the upload form ([ats_app/forms.py]), the
    text extraction ([ats_app/utils/text_extractor.py]), the resume updater
    ([ats_app/utils/resume_updater.py]) and the API view ([ats_app/views.py]).

    Modelling conventions.
    - Python [float] values (and the [int] values mixed with them in the
      [score] fields) are idealised as real numbers: the term weighting uses
      [log] and the cosine similarity uses [sqrt].  Integer computations are
      carried out in [Z] and injected with [IZR] where the source stores them
      next to floats.
    - Python [str] is [string]; [str.lower] is modelled on ASCII letters.
    - Python [set] is stdpp's [gset]; a [dict] with a fixed key set is a
      record whose optional keys are [option] fields; a [dict] iterated in
      insertion order is an association list.
    - Exceptions are the [Err] results of a small error monad.
    - The pretrained components the code loads at start-up (the spaCy pipeline,
      the WordNet lemmatizer, the stop-word list, the sentence encoder) and
      the library functions [re.sub] and [nltk.word_tokenize] are fields of the
      record [NLPProcessor], the model of [self]. *)

From Stdlib Require Import Reals Lra Lia ZArith String Ascii List Bool.
From stdpp Require Import gmap strings list sorting.

Local Open Scope string_scope.
Local Open Scope list_scope.

(** ** Exceptions and the error monad *)

Inductive exn : Type :=
  | ValueError (msg : string).

Inductive result (A : Type) : Type :=
  | Ok (a : A)
  | Err (e : exn).
Arguments Ok {A} a.
Arguments Err {A} e.

Global Instance result_ret : MRet result := fun A a => Ok a.

Global Instance result_bind : MBind result := fun A B k m =>
  match m with
  | Ok a => k a
  | Err e => Err e
  end.

Global Instance result_fmap : FMap result := fun A B f m =>
  match m with
  | Ok a => Ok (f a)
  | Err e => Err e
  end.

Definition is_ok {A : Type} (m : result A) : bool :=
  match m with Ok _ => true | Err _ => false end.

(** ** Python string operations *)

Module Py.

(** [str.lower], on ASCII letters. *)
Definition lower_ascii (c : ascii) : ascii :=
  let n := nat_of_ascii c in
  if (65 <=? n)%nat && (n <=? 90)%nat then ascii_of_nat (n + 32) else c.

Fixpoint lower (s : string) : string :=
  match s with
  | EmptyString => EmptyString
  | String c s' => String (lower_ascii c) (lower s')
  end.

(** [needle in hay] for two strings. *)
Fixpoint contains (needle hay : string) : bool :=
  if String.prefix needle hay then true
  else match hay with
       | EmptyString => false
       | String _ hay' => contains needle hay'
       end.

(** [sep.join(parts)]. *)
Definition join (sep : string) (parts : list string) : string :=
  String.concat sep parts.

(** [len(s)]. *)
Definition len (s : string) : Z := Z.of_nat (String.length s).

(** [s.strip()]: leading and trailing white space removed. *)
Fixpoint lstrip (s : string) : string :=
  match s with
  | String c s' => if Ascii.is_space c then lstrip s' else s
  | EmptyString => EmptyString
  end.

Definition strip (s : string) : string :=
  String.rev (lstrip (String.rev (lstrip s))).

(** [s.split()]: the white-space separated words. *)
Definition split (s : string) : list string := String.words s.

(** [c.isalpha()], on ASCII. *)
Definition isalpha (c : ascii) : bool :=
  let n := nat_of_ascii c in
  ((65 <=? n)%nat && (n <=? 90)%nat) || ((97 <=? n)%nat && (n <=? 122)%nat).

Fixpoint chars (s : string) : list ascii :=
  match s with
  | EmptyString => []
  | String c s' => c :: chars s'
  end.

(** Truthiness of a list: [if l:]. *)
Definition truthy {A : Type} (l : list A) : bool :=
  match l with [] => false | _ :: _ => true end.

(** The string of [n] copies of [c]. *)
Fixpoint replicate_char (n : nat) (c : ascii) : string :=
  match n with
  | O => EmptyString
  | S n' => String c (replicate_char n' c)
  end.

(** [s.split(sep)] for a separator of one character: the pieces between
    the separators, of which there is always at least one. *)
Fixpoint split_on (sep : ascii) (s : string) : list string :=
  match s with
  | EmptyString => [EmptyString]
  | String c s' =>
      if Ascii.eqb c sep then EmptyString :: split_on sep s'
      else match split_on sep s' with
           | w :: ws => String c w :: ws
           | [] => [String c EmptyString]
           end
  end.

(** [l[-1]] for a list of strings.  The source takes it of the result of
    [split], which is never empty. *)
Definition last_item (l : list string) : string := List.last l EmptyString.

End Py.

(** ** The extracted document ([text_extractor.py] produces it) *)

Record Paragraph : Type := {
  para_text : string;           (* para['text'] *)
  para_style : option string    (* para['style'] *)
}.

(** The [structured_content] dictionary; a key that is absent is [None]. *)
Record StructuredContent : Type := {
  paragraphs : option (list Paragraph);
  tables : option (list (list (list string)));
  headers : option (list string)
}.

(** The empty dictionary [{}]. *)
Definition empty_structured_content : StructuredContent :=
  {| paragraphs := None; tables := None; headers := None |}.

(** [not structured_content]: a dictionary is falsy when it has no key. *)
Definition structured_content_falsy (sc : StructuredContent) : bool :=
  match paragraphs sc, tables sc, headers sc with
  | None, None, None => true
  | _, _, _ => false
  end.

(** The [metadata] dictionary. *)
Record Metadata : Type := {
  pages : option Z;
  formatting_issues : option (list string);
  paragraphs_count : option Z;
  tables_count : option Z;
  formatting_preserved : option bool
}.

Definition empty_metadata : Metadata :=
  {| pages := None; formatting_issues := None; paragraphs_count := None;
     tables_count := None; formatting_preserved := None |}.

(** The [resume_data] dictionary: ['text'] is read with [resume_data['text']]
    and both extractors always set it; the other two keys are optional. *)
Record ResumeData : Type := {
  text : string;
  structured_content : option StructuredContent;
  metadata : option Metadata
}.

(** ** Real-number helpers *)

Global Instance Rlt_decision (x y : R) : Decision (x < y)%R := Rlt_dec x y.
Global Instance Rle_decision (x y : R) : Decision (x <= y)%R := Rle_dec x y.
Global Instance Req_decision (x y : R) : Decision (x = y) := Req_dec_T x y.

(** A stable sort into descending order, as [list.sort(reverse=True)] and a
    stable [argsort] of the negated keys give: [ltb x y] says that the key of
    [x] is strictly below the key of [y]. *)
Section StableSort.
Context {A : Type} (ltb : A → A → bool).

Fixpoint insert_desc (x : A) (l : list A) : list A :=
  match l with
  | [] => [x]
  | y :: l' => if ltb x y then y :: insert_desc x l' else x :: y :: l'
  end.

Definition sort_desc (l : list A) : list A := foldr insert_desc [] l.
End StableSort.

(** ** numpy and scikit-learn, as far as the processor uses them *)

Module Np.
Local Open Scope R_scope.

Definition sum (v : list R) : R := foldr Rplus 0 v.

Definition dot (u v : list R) : R := sum (zip_with Rmult u v).

Definition sum_sq (v : list R) : R := sum (map (fun x => x * x) v).

Definition vec_add (u v : list R) : list R := zip_with Rplus u v.

(** [np.mean(rows, axis=0)].  The encoder returns an empty array for an
    empty list of sentences, and the mean of an empty array is the scalar
    [nan] (numpy only warns "Mean of empty slice"), which is no vector;
    [None] stands for that value. *)
Definition mean_axis0 (rows : list (list R)) : option (list R) :=
  match rows with
  | [] => None
  | r :: rs =>
      Some (map (fun x => x / INR (length rows)) (fold_left vec_add rs r))
  end.

(** Python's [round(x, 1)] on the idealised value: to one decimal, halves
    to the even neighbour. *)
Definition round_half_even (x : R) : Z :=
  let f := Int_part x in
  let r := x - IZR f in
  if decide (r < 1 / 2) then f
  else if decide (1 / 2 < r) then (f + 1)%Z
  else if Z.even f then f else (f + 1)%Z.

Definition round1 (x : R) : R := IZR (round_half_even (x * 10)) / 10.
End Np.

Module Sklearn.
Local Open Scope R_scope.

(** *** [sklearn.preprocessing.normalize] and [cosine_similarity] *)

Definition l2_norm (v : list R) : R := sqrt (Np.sum_sq v).

(** Rows of norm zero are left as they are (their norm is replaced by 1). *)
Definition normalize (v : list R) : list R :=
  let n := l2_norm v in
  let n := if decide (n = 0) then 1 else n in
  map (fun x => x / n) v.

Definition cosine (x y : list R) : R := Np.dot (normalize x) (normalize y).

(** [cosine_similarity([x], [y])[0][0]].  When [x] or [y] is the scalar
    [nan], the list around it is not a matrix, and the input validation
    raises before anything is computed. *)
Definition cosine_similarity (x y : option (list R)) : result R :=
  match x, y with
  | Some x, Some y => Ok (cosine x y)
  | _, _ => Err (ValueError "Expected 2D array, got 1D array instead")
  end.

(** *** [TfidfVectorizer] with its default analyzer *)

(** [\w] *)
Definition is_word_char (c : ascii) : bool :=
  let n := nat_of_ascii c in
  ((48 <=? n)%nat && (n <=? 57)%nat) || Py.isalpha c || (n =? 95)%nat.

(** The maximal runs of word characters of [s], in order. *)
Fixpoint word_runs (cur : option string) (s : string) : list string :=
  match s with
  | EmptyString => option_list (String.rev <$> cur)
  | String a s' =>
      if is_word_char a
      then word_runs (Some (String a (default EmptyString cur))) s'
      else option_list (String.rev <$> cur) ++ word_runs None s'
  end.

(** [token_pattern = r"(?u)\b\w\w+\b"] on the lower-cased document: the
    runs of at least two word characters. *)
Definition tokenize (doc : string) : list string :=
  filter (fun t => (2 <= String.length t)%nat) (word_runs None (Py.lower doc)).

(** The [n]-grams of a token list, words joined by one space. *)
Definition ngrams_of_size (n : nat) (toks : list string) : list string :=
  map (fun i => Py.join " " (take n (drop i toks)))
      (seq 0 (length toks + 1 - n)).

(** [ngram_range = (1, max_n)]: the words, then the 2-grams, and so on. *)
Definition analyze (max_n : nat) (doc : string) : list string :=
  let toks := tokenize doc in
  toks ++ flat_map (fun n => ngrams_of_size n toks) (seq 2 (max_n - 1)).

Definition count (t : string) (terms : list string) : nat :=
  length (filter (fun u => u = t) terms).

(** Number of documents in which the term occurs. *)
Definition doc_freq (t : string) (docs : list (list string)) : nat :=
  length (filter (fun d => (0 < count t d)%nat) docs).

(** Total number of occurrences over the corpus. *)
Definition total_count (t : string) (docs : list (list string)) : nat :=
  sum_list (map (count t) docs).

(** [_limit_features]: when the vocabulary exceeds [max_features], the
    terms with the highest corpus counts are kept, in vocabulary order.
    ([argsort] is taken to be stable; numpy leaves the order of equal
    counts unspecified.) *)
Definition limit_features (max_features : nat) (docs : list (list string))
    (vocab : list string) : list string :=
  if decide (max_features < length vocab)%nat then
    let ranked :=
      sort_desc (fun t u => (total_count t docs <? total_count u docs)%nat) vocab in
    let kept := take max_features ranked in
    filter (fun t => t ∈ kept) vocab
  else vocab.

(** The smoothed inverse document frequency of [TfidfTransformer]. *)
Definition idf (n_docs : nat) (df : nat) : R :=
  ln ((1 + INR n_docs) / (1 + INR df)) + 1.

Definition tfidf_row (docs : list (list string)) (vocab : list string)
    (d : list string) : list R :=
  normalize
    (map (fun t => INR (count t d) * idf (length docs) (doc_freq t docs)) vocab).

(** [TfidfVectorizer(max_features, ngram_range=(1, max_n)).fit_transform(raw)]:
    the feature names and one weight row for each document. *)
Definition fit_transform (max_features max_n : nat) (raw : list string)
    : result (list string * list (list R)) :=
  let docs := map (analyze max_n) raw in
  let vocabulary : gset string := list_to_set (concat docs) in
  if decide (max_features = 0)%nat then
    Err (ValueError "max_features must be a positive integer or None")
  else if decide (vocabulary = ∅) then
    Err (ValueError "empty vocabulary; perhaps the documents only contain stop words")
  else
    let vocab := merge_sort String.le (elements vocabulary) in
    let vocab := limit_features max_features docs vocab in
    if decide (vocab = []) then
      Err (ValueError "After pruning, no terms remain. Try a lower min_df or a higher max_df.")
    else Ok (vocab, map (tfidf_row docs vocab) docs).
End Sklearn.

(** ** The NLP processor ([nlp_processor.py]) *)

(** What the spaCy pipeline returns for a text, as far as the code reads it. *)
Record Entity : Type := {
  ent_text : string;    (* ent.text *)
  ent_label : string    (* ent.label_ *)
}.

Record Doc : Type := {
  doc_ents : list Entity;          (* doc.ents *)
  doc_noun_chunks : list string;   (* chunk.text for chunk in doc.noun_chunks *)
  doc_sents : list string          (* sent.text for sent in doc.sents *)
}.

(** [self]: the resources loaded by [__init__], and the two imported library
    functions the methods call. *)
Record NLPProcessor : Type := {
  nlp : string → Doc;                        (* spacy.load("en_core_web_sm") *)
  lemmatizer : string → string;              (* WordNetLemmatizer().lemmatize *)
  stop_words : gset string;                  (* set(stopwords.words('english')) *)
  bert_model : string → list R;              (* the encoder, on one sentence *)
  re_sub : string → string → string → string;    (* re.sub(pattern, repl, text) *)
  word_tokenize : string → list string       (* nltk.tokenize.word_tokenize *)
}.

(** [self.bert_model.encode(sentences)] *)
Definition encode (self : NLPProcessor) (sentences : list string) : list (list R) :=
  map (bert_model self) sentences.

(** [self.skill_patterns] *)
Definition skill_patterns : list (string * list string) :=
  [ ("programming_languages",
      ["python"; "java"; "javascript"; "c++"; "c#"; "ruby"; "php"; "swift"; "kotlin";
       "typescript"; "go"; "rust"; "scala"; "r"; "matlab"; "perl"; "vb.net"]);
    ("web_technologies",
      ["html"; "css"; "react"; "angular"; "vue"; "node.js"; "express"; "django";
       "flask"; "spring"; "asp.net"; "laravel"; "ruby on rails"; "jquery"]);
    ("databases",
      ["mysql"; "postgresql"; "mongodb"; "sqlite"; "oracle"; "sql server";
       "redis"; "cassandra"; "elasticsearch"; "dynamodb"]);
    ("cloud_platforms",
      ["aws"; "azure"; "gcp"; "google cloud"; "heroku"; "digitalocean";
       "docker"; "kubernetes"; "terraform"]);
    ("tools",
      ["git"; "jenkins"; "jira"; "confluence"; "slack"; "figma"; "photoshop";
       "illustrator"; "tableau"; "power bi"; "excel"]) ].

(** [preprocess_text] *)
Definition preprocess_text (self : NLPProcessor) (text : string) : string :=
  (* lower case *)
  let text := Py.lower text in
  (* URLs and e-mail addresses *)
  let text :=
    re_sub self
      "http[s]?://(?:[a-zA-Z]|[0-9]|[$-_@.&+]|[!*\\(\\),]|(?:%[0-9a-fA-F][0-9a-fA-F]))+"
      "" text in
  let text := re_sub self "\S+@\S+" "" text in
  (* special characters *)
  let text := re_sub self "[^\w\s\.\,\-\+\#]" " " text in
  let tokens := word_tokenize self text in
  (* stop words, short tokens, lemmas *)
  let tokens :=
    map (lemmatizer self)
        (filter (fun token => (token ∉ stop_words self) ∧ (Py.len token > 2)%Z) tokens) in
  Py.join " " tokens.

(** [extract_skills]: the categories of [skill_patterns] in order, then
    ['other']. *)
Definition extract_skills (self : NLPProcessor) (text : string)
    : list (string * list string) :=
  let text_lower := Py.lower text in
  (* pattern-based extraction *)
  let extracted_skills :=
    map (fun '(category, skills) =>
           (category, filter (fun skill => Py.contains skill text_lower = true) skills))
        skill_patterns in
  (* named entities *)
  let doc := nlp self text in
  let from_ents :=
    map ent_text
      (filter
         (fun ent =>
            ent_label ent ∈ ["ORG"; "PRODUCT"; "GPE"]
            ∧ (Py.len (ent_text ent) > 2)%Z
            ∧ existsb (fun tech_word => Py.contains tech_word (Py.lower (ent_text ent)))
                ["api"; "framework"; "library"; "platform"; "tool"; "language"] = true)
         (doc_ents doc)) in
  (* noun phrases *)
  let from_chunks :=
    filter
      (fun chunk_text =>
         (length (Py.split chunk_text) <= 3)%nat
         ∧ (chunk_text ∉ stop_words self)
         ∧ existsb Py.isalpha (Py.chars chunk_text) = true)
      (map (fun chunk => Py.strip (Py.lower chunk)) (doc_noun_chunks doc)) in
  let additional_skills := from_ents ++ from_chunks in
  extracted_skills
    ++ [("other", elements (list_to_set additional_skills : gset string))].

Record MatchingTerm : Type := {
  term : string;
  resume_score : R;
  jd_score : R;
  combined_score : R
}.

Record TfidfResult : Type := {
  similarity_score : R;
  matching_terms : list MatchingTerm;
  vectorizer : list string;        (* the fitted vectorizer: its feature names *)
  resume_vector : list R;
  jd_vector : list R
}.

(** The loop over the two weight rows: the terms weighted in both documents,
    sorted by combined score, best first. *)
Definition matching_of (feature_names : list string) (resume_scores jd_scores : list R)
    : list MatchingTerm :=
  sort_desc (fun x y => bool_decide (combined_score x < combined_score y)%R)
    (omap (fun '(name, (resume_score, jd_score)) =>
             if decide (resume_score > 0 ∧ jd_score > 0)%R
             then Some {| term := name;
                          resume_score := resume_score;
                          jd_score := jd_score;
                          combined_score := (resume_score * jd_score)%R |}
             else None)
          (zip feature_names (zip resume_scores jd_scores))).

(** [calculate_tfidf_similarity] *)
Definition calculate_tfidf_similarity (self : NLPProcessor)
    (resume_text jd_text : string) : result TfidfResult :=
  let resume_processed := preprocess_text self resume_text in
  let jd_processed := preprocess_text self jd_text in
  '(feature_names, tfidf_matrix) ←
    Sklearn.fit_transform 1000 2 [resume_processed; jd_processed];
  let resume_scores := default [] (tfidf_matrix !! 0%nat) in
  let jd_scores := default [] (tfidf_matrix !! 1%nat) in
  similarity_score ← Sklearn.cosine_similarity (Some resume_scores) (Some jd_scores);
  let matching_terms := matching_of feature_names resume_scores jd_scores in
  mret {| similarity_score := similarity_score;
          matching_terms := take 20 matching_terms;
          vectorizer := feature_names;
          resume_vector := resume_scores;
          jd_vector := jd_scores |}.

(** The terms the vectorizer of [calculate_tfidf_similarity] extracts from a
    text after preprocessing. *)
Definition lexical_terms (self : NLPProcessor) (text : string) : list string :=
  Sklearn.analyze 2 (preprocess_text self text).

Record SentenceSimilarity : Type := {
  resume_sentence : string;
  best_match : string;
  similarity : R
}.

Record BertResult : Type := {
  document_similarity : R;
  sentence_similarities : list SentenceSimilarity;
  resume_embeddings : list (list R);
  jd_embeddings : list (list R)
}.

(** The sentences kept for embedding: trimmed length above 10. *)
Definition long_sentences (self : NLPProcessor) (text : string) : list string :=
  filter (fun sent => (Py.len (Py.strip sent) > 10)%Z) (doc_sents (nlp self text)).

(** The inner loop of [calculate_bert_similarity]: the best match of one
    resume sentence among the job-description sentences. *)
Fixpoint best_match_loop (resume_emb : list R) (jd : list (string * list R))
    (max_sim : R) (best : string) : result (R * string) :=
  match jd with
  | [] => Ok (max_sim, best)
  | (jd_sent, jd_emb) :: jd' =>
      sim ← Sklearn.cosine_similarity (Some resume_emb) (Some jd_emb);
      if decide (sim > max_sim)%R
      then best_match_loop resume_emb jd' sim jd_sent
      else best_match_loop resume_emb jd' max_sim best
  end.

(** [calculate_bert_similarity] *)
Definition calculate_bert_similarity (self : NLPProcessor)
    (resume_text jd_text : string) : result BertResult :=
  let resume_sentences := long_sentences self resume_text in
  let jd_sentences := long_sentences self jd_text in
  let resume_embeddings := encode self resume_sentences in
  let jd_embeddings := encode self jd_sentences in
  (* document similarity *)
  let resume_doc_embedding := Np.mean_axis0 resume_embeddings in
  let jd_doc_embedding := Np.mean_axis0 jd_embeddings in
  doc_similarity ← Sklearn.cosine_similarity resume_doc_embedding jd_doc_embedding;
  (* sentence-level similarities *)
  sentence_similarities ←
    mapM (fun '(resume_sent, resume_emb) =>
            '(max_sim, best) ←
              best_match_loop resume_emb (zip jd_sentences jd_embeddings) 0%R "";
            mret {| resume_sentence := resume_sent;
                    best_match := best;
                    similarity := max_sim |})
         (zip resume_sentences resume_embeddings);
  mret {| document_similarity := doc_similarity;
          sentence_similarities := sentence_similarities;
          resume_embeddings := resume_embeddings;
          jd_embeddings := jd_embeddings |}.

Record Keyword : Type := {
  keyword : string;
  kw_score : R
}.

(** [extract_keywords] *)
Definition extract_keywords (self : NLPProcessor) (text : string) (top_k : nat)
    : result (list Keyword) :=
  let processed_text := preprocess_text self text in
  '(feature_names, tfidf_matrix) ←
    Sklearn.fit_transform (top_k * 2) 3 [processed_text];
  let tfidf_scores := default [] (tfidf_matrix !! 0%nat) in
  let keywords :=
    omap (fun '(name, score) =>
            if decide (score > 0)%R
            then Some {| keyword := name; kw_score := score |}
            else None)
         (zip feature_names tfidf_scores) in
  let keywords :=
    sort_desc (fun x y => bool_decide (kw_score x < kw_score y)%R) keywords in
  mret (take top_k keywords).

(** The terms the vectorizer of [extract_keywords] extracts from a text
    after preprocessing. *)
Definition keyword_terms (self : NLPProcessor) (text : string) : list string :=
  Sklearn.analyze 3 (preprocess_text self text).

(** ** The score calculator ([score_calculator.py]) *)

(** [self.weights] *)
Record Weights : Type := {
  keyword_match : R;
  skill_match : R;
  semantic_similarity : R;
  experience_relevance : R;
  formatting_quality : R
}.

Definition weights : Weights :=
  {| keyword_match := 0.30;
     skill_match := 0.25;
     semantic_similarity := 0.20;
     experience_relevance := 0.15;
     formatting_quality := 0.10 |}.

(** The dictionaries the five scoring methods return. *)
Module KeywordData.
Record t : Type := {
  score : R;
  matched_keywords : list string;
  missing_keywords : list string;
  total_jd_keywords : Z;
  matched_count : Z
}.
End KeywordData.

Module SkillData.
Record t : Type := {
  score : R;
  matched_skills : list string;
  missing_skills : list string;
  resume_skills_by_category : list (string * list string);
  jd_skills_by_category : list (string * list string);
  total_jd_skills : Z;
  matched_count : Z
}.
End SkillData.

Module SemanticData.
Record t : Type := {
  score : R;
  tfidf_similarity : R;
  bert_similarity : R;
  top_matching_terms : list MatchingTerm
}.
End SemanticData.

Module ExperienceData.
Record t : Type := {
  score : R;
  details : option string;
  experience_paragraphs_count : option Z;
  relevance_score : option R
}.
End ExperienceData.

Module FormattingData.
Record t : Type := {
  score : R;
  issues : list string;
  metadata : Metadata
}.
End FormattingData.

Record Breakdown : Type := {
  bd_keyword_match : KeywordData.t;
  bd_skill_match : SkillData.t;
  bd_semantic_similarity : SemanticData.t;
  bd_experience_relevance : ExperienceData.t;
  bd_formatting_quality : FormattingData.t
}.

Record AnalysisResult : Type := {
  total_score : R;
  breakdown : Breakdown;
  suggestions : list string;
  missing_skills : list string;
  missing_keywords : list string
}.

(** The set of lower-cased keywords of an extraction. *)
Definition keyword_set (kws : list Keyword) : gset string :=
  list_to_set (map (fun kw => Py.lower (keyword kw)) kws).

(** [_calculate_keyword_score] *)
Definition _calculate_keyword_score (self : NLPProcessor)
    (resume_text jd_text : string) : result KeywordData.t :=
  jd_keywords ← extract_keywords self jd_text 30;
  resume_keywords ← extract_keywords self resume_text 50;
  let jd_keyword_set := keyword_set jd_keywords in
  let resume_keyword_set := keyword_set resume_keywords in
  let matched_keywords := jd_keyword_set ∩ resume_keyword_set in
  let missing_keywords := jd_keyword_set ∖ resume_keyword_set in
  let score :=
    if decide (0 < size jd_keyword_set)%nat then
      let match_percentage :=
        (INR (size matched_keywords) / INR (size jd_keyword_set))%R in
      Rmin (match_percentage * 100) 100
    else 0%R in
  mret {| KeywordData.score := score;
          KeywordData.matched_keywords := elements matched_keywords;
          KeywordData.missing_keywords := elements missing_keywords;
          KeywordData.total_jd_keywords := Z.of_nat (size jd_keyword_set);
          KeywordData.matched_count := Z.of_nat (size matched_keywords) |}.

(** The loop that flattens the skills of all categories into one set. *)
Definition all_skills (by_category : list (string * list string)) : gset string :=
  fold_left (fun acc '(category, skills) => acc ∪ list_to_set (map Py.lower skills))
            by_category ∅.

(** [_calculate_skill_score] *)
Definition _calculate_skill_score (self : NLPProcessor)
    (resume_text jd_text : string) : SkillData.t :=
  let resume_skills := extract_skills self resume_text in
  let jd_skills := extract_skills self jd_text in
  let resume_all_skills := all_skills resume_skills in
  let jd_all_skills := all_skills jd_skills in
  let matched_skills := resume_all_skills ∩ jd_all_skills in
  let missing_skills := jd_all_skills ∖ resume_all_skills in
  let score :=
    if decide (0 < size jd_all_skills)%nat then
      let match_percentage :=
        (INR (size matched_skills) / INR (size jd_all_skills))%R in
      Rmin (match_percentage * 100) 100
    else 50%R in
  {| SkillData.score := score;
     SkillData.matched_skills := elements matched_skills;
     SkillData.missing_skills := elements missing_skills;
     SkillData.resume_skills_by_category := resume_skills;
     SkillData.jd_skills_by_category := jd_skills;
     SkillData.total_jd_skills := Z.of_nat (size jd_all_skills);
     SkillData.matched_count := Z.of_nat (size matched_skills) |}.

(** [_calculate_semantic_score] *)
Definition _calculate_semantic_score (self : NLPProcessor)
    (resume_text jd_text : string) : result SemanticData.t :=
  tfidf_result ← calculate_tfidf_similarity self resume_text jd_text;
  bert_result ← calculate_bert_similarity self resume_text jd_text;
  let tfidf_score := (similarity_score tfidf_result * 100)%R in
  let bert_score := (document_similarity bert_result * 100)%R in
  let combined_score := (tfidf_score * 0.4 + bert_score * 0.6)%R in
  mret {| SemanticData.score := combined_score;
          SemanticData.tfidf_similarity := tfidf_score;
          SemanticData.bert_similarity := bert_score;
          SemanticData.top_matching_terms := take 10 (matching_terms tfidf_result) |}.

Definition experience_keywords : list string :=
  ["experience"; "worked"; "developed"; "managed"; "led"; "responsible"; "achieved"].

(** The paragraphs whose lower-cased text contains an experience keyword. *)
Definition experience_paragraphs_of (paragraphs : list Paragraph) : list string :=
  map para_text
    (filter
       (fun para =>
          existsb (fun keyword => Py.contains keyword (Py.lower (para_text para)))
                  experience_keywords = true)
       paragraphs).

(** [_calculate_experience_score] *)
Definition _calculate_experience_score (self : NLPProcessor)
    (structured_content : StructuredContent) (jd_text : string)
    : result ExperienceData.t :=
  match structured_content_falsy structured_content, paragraphs structured_content with
  | false, Some paragraphs =>
      let experience_paragraphs := experience_paragraphs_of paragraphs in
      if negb (Py.truthy experience_paragraphs) then
        mret {| ExperienceData.score := 20;
                ExperienceData.details := Some "No clear experience section found";
                ExperienceData.experience_paragraphs_count := None;
                ExperienceData.relevance_score := None |}
      else
        let experience_text := Py.join " " experience_paragraphs in
        similarity ← calculate_bert_similarity self experience_text jd_text;
        let score := (document_similarity similarity * 100)%R in
        mret {| ExperienceData.score := score;
                ExperienceData.details := None;
                ExperienceData.experience_paragraphs_count :=
                  Some (Z.of_nat (length experience_paragraphs));
                ExperienceData.relevance_score := Some (document_similarity similarity) |}
  | _, _ =>
      mret {| ExperienceData.score := 30;
              ExperienceData.details := Some "Unable to analyze experience structure";
              ExperienceData.experience_paragraphs_count := None;
              ExperienceData.relevance_score := None |}
  end.

(** [_calculate_formatting_score] *)
Definition _calculate_formatting_score (resume_data : ResumeData) : FormattingData.t :=
  let score := 100%Z in
  let issues : list string := [] in
  let metadata := default empty_metadata (metadata resume_data) in
  (* formatting issues reported by the extraction *)
  let '(score, issues) :=
    match formatting_issues metadata with
    | Some fi =>
        if Py.truthy fi
        then ((score - Z.of_nat (length fi) * 10)%Z, issues ++ fi)
        else (score, issues)
    | None => (score, issues)
    end in
  (* document length *)
  let text_length := Py.len (text resume_data) in
  let '(score, issues) :=
    if (text_length <? 500)%Z
    then ((score - 20)%Z, issues ++ ["Resume appears too short"])
    else if (text_length >? 5000)%Z
    then ((score - 10)%Z, issues ++ ["Resume might be too long"])
    else (score, issues) in
  (* structured content *)
  let '(score, issues) :=
    match structured_content resume_data with
    | Some structured =>
        if (Z.of_nat (length (default [] (paragraphs structured))) <? 3)%Z
        then ((score - 15)%Z, issues ++ ["Lacks proper paragraph structure"])
        else (score, issues)
    | None => (score, issues)
    end in
  let score := Z.max score 0 in
  {| FormattingData.score := IZR score;
     FormattingData.issues := issues;
     FormattingData.metadata := metadata |}.

(** The messages of [_generate_suggestions]. *)
Definition keyword_suggestion (missing_kw : list string) : string :=
  "Add these important keywords: " +:+ Py.join ", " (take 5 missing_kw).

Definition skill_suggestion (missing_skills : list string) : string :=
  "Consider adding these skills: " +:+ Py.join ", " (take 5 missing_skills).

Definition semantic_suggestion : string :=
  "Improve content relevance by using more job-specific language".

Definition experience_suggestion : string :=
  "Highlight more relevant work experience and achievements".

Definition formatting_suggestion (issue : string) : string :=
  "Fix formatting: " +:+ issue.

Definition affirmation : string :=
  "Great job! Your resume shows good alignment with the job requirements.".

(** [_generate_suggestions] *)
Definition _generate_suggestions (keyword_data : KeywordData.t)
    (skill_data : SkillData.t) (semantic_data : SemanticData.t)
    (experience_data : ExperienceData.t) (formatting_data : FormattingData.t)
    : list string :=
  let suggestions : list string := [] in
  (* keywords *)
  let suggestions :=
    if decide (KeywordData.score keyword_data < 60)%R then
      let missing_kw := KeywordData.missing_keywords keyword_data in
      if Py.truthy missing_kw
      then suggestions ++ [keyword_suggestion missing_kw]
      else suggestions
    else suggestions in
  (* skills *)
  let suggestions :=
    if decide (SkillData.score skill_data < 70)%R then
      let missing_skills := SkillData.missing_skills skill_data in
      if Py.truthy missing_skills
      then suggestions ++ [skill_suggestion missing_skills]
      else suggestions
    else suggestions in
  (* semantic *)
  let suggestions :=
    if decide (SemanticData.score semantic_data < 50)%R
    then suggestions ++ [semantic_suggestion]
    else suggestions in
  (* experience *)
  let suggestions :=
    if decide (ExperienceData.score experience_data < 60)%R
    then suggestions ++ [experience_suggestion]
    else suggestions in
  (* formatting *)
  let suggestions :=
    if decide (FormattingData.score formatting_data < 80)%R
    then suggestions ++ map formatting_suggestion (FormattingData.issues formatting_data)
    else suggestions in
  if negb (Py.truthy suggestions)
  then suggestions ++ [affirmation]
  else suggestions.

(** The weighted sum of the five sub-scores. *)
Definition weighted_total (k s m e f : R) : R :=
  (k * keyword_match weights + s * skill_match weights
   + m * semantic_similarity weights + e * experience_relevance weights
   + f * formatting_quality weights)%R.

(** [calculate_ats_score] *)
Definition calculate_ats_score (self : NLPProcessor) (resume_data : ResumeData)
    (jd_text : string) : result AnalysisResult :=
  let resume_text := text resume_data in
  keyword_score_data ← _calculate_keyword_score self resume_text jd_text;
  let skill_score_data := _calculate_skill_score self resume_text jd_text in
  semantic_score_data ← _calculate_semantic_score self resume_text jd_text;
  experience_score_data ←
    _calculate_experience_score self
      (default empty_structured_content (structured_content resume_data)) jd_text;
  let formatting_score_data := _calculate_formatting_score resume_data in
  let total_score :=
    weighted_total (KeywordData.score keyword_score_data)
                   (SkillData.score skill_score_data)
                   (SemanticData.score semantic_score_data)
                   (ExperienceData.score experience_score_data)
                   (FormattingData.score formatting_score_data) in
  let suggestions :=
    _generate_suggestions keyword_score_data skill_score_data semantic_score_data
                          experience_score_data formatting_score_data in
  mret {| total_score := Np.round1 total_score;
          breakdown :=
            {| bd_keyword_match := keyword_score_data;
               bd_skill_match := skill_score_data;
               bd_semantic_similarity := semantic_score_data;
               bd_experience_relevance := experience_score_data;
               bd_formatting_quality := formatting_score_data |};
          suggestions := suggestions;
          missing_skills := SkillData.missing_skills skill_score_data;
          missing_keywords := KeywordData.missing_keywords keyword_score_data |}.

(** ** The specification's wording, for comparison with the code *)

(** The formatting score as the specification words it: the paragraph
    deduction applies whenever fewer than three structured paragraphs are
    present, a missing representation counting as empty. *)
Definition formatting_score_spec (resume_data : ResumeData) : Z :=
  let n_issues :=
    length (default [] (formatting_issues
                          (default empty_metadata (metadata resume_data)))) in
  let n_paragraphs :=
    length (default [] (paragraphs
                          (default empty_structured_content
                                   (structured_content resume_data)))) in
  let text_length := Py.len (text resume_data) in
  let s := (100 - 10 * Z.of_nat n_issues)%Z in
  let s := if (text_length <? 500)%Z then (s - 20)%Z
           else if (5000 <? text_length)%Z then (s - 10)%Z else s in
  let s := if (Z.of_nat n_paragraphs <? 3)%Z then (s - 15)%Z else s in
  Z.min 100 (Z.max 0 s).

(** A failure that names the insufficient content, as the specification
    asks of the semantic similarity module. *)
Definition reports_insufficient_content {A : Type} (r : result A) : Prop :=
  match r with
  | Ok _ => False
  | Err (ValueError msg) => Py.contains "insufficient content" (Py.lower msg) = true
  end.

(** ** A small processor for concrete evaluations

    On texts made of lower-case words separated by single spaces, without
    URLs, addresses or special characters, the regular expressions change
    nothing and the tokenizer splits at the spaces.  The pipeline reports no
    entity and no noun phrase and takes a non-empty text as one sentence.
    The encoder is one-dimensional: it places a sentence that mentions
    python opposite to every other sentence.  These stand-ins serve to
    instantiate the general statements on concrete texts; the statements
    themselves hold for every processor. *)
Definition toy_nlp (text : string) : Doc :=
  {| doc_ents := [];
     doc_noun_chunks := [];
     doc_sents := if decide (text = "") then [] else [text] |}.

Definition toy_encoder (sentence : string) : list R :=
  if Py.contains "python" (Py.lower sentence) then [(-1)%R] else [1%R].

Definition toy_processor : NLPProcessor :=
  {| nlp := toy_nlp;
     lemmatizer := fun token => token;
     stop_words := {[ "the"; "and"; "for"; "with" ]};
     bert_model := toy_encoder;
     re_sub := fun _ _ text => text;
     word_tokenize := Py.split |}.

(** A DOCX resume with one paragraph, and a job description sharing no
    term or skill with it. *)
Definition unrelated_resume : ResumeData :=
  {| text := "cooking baking knitting";
     structured_content :=
       Some {| paragraphs :=
                 Some [ {| para_text := "managed cooking baking knitting";
                           para_style := None |} ];
               tables := Some [];
               headers := Some [] |};
     metadata := None |}.

Definition unrelated_jd : string :=
  "python kubernetes terraform docker postgresql typescript engineer wanted".

(** A job description of more than 50 characters made of stop words. *)
Definition stopword_jd : string :=
  "the and for with the and for with the and for with the and".



(** A resume text and a job description that share the term python. *)
Definition shared_resume_text : string := "python developer building services".

Definition shared_jd : string := "python engineer wanted".

(** A job description that, like the resume texts above, does not mention
    python. *)
Definition hobby_jd : string := "gardening painting wanted".

(** The texts of the specification's skill scenario. *)
Definition scenario_resume_text : string :=
  "I worked as a Python developer for 3 years, developed REST APIs using Django and PostgreSQL.".

Definition scenario_jd : string := "Python, Django, AWS, Docker, Kubernetes".

(** A PDF resume of 600 characters: no structured content, no metadata
    issue. *)
Definition pdf_resume : ResumeData :=
  {| text := Py.replicate_char 600 "a";
     structured_content := None;
     metadata := Some {| pages := Some 1%Z;
                         formatting_issues := Some [];
                         paragraphs_count := None;
                         tables_count := None;
                         formatting_preserved := None |} |}.

(** A resume posted as plain text: no structured content, an empty
    metadata dictionary. *)
Definition posted_resume : ResumeData :=
  {| text := "cooking baking knitting";
     structured_content := None;
     metadata := Some empty_metadata |}.

(** ** Predicates on strings used in the statements *)

(** A string of white space. *)
Fixpoint blank (s : string) : Prop :=
  match s with
  | EmptyString => True
  | String c s' => Ascii.is_space c = true ∧ blank s'
  end.

(** A string that does not begin with white space. *)
Definition no_lead (s : string) : Prop :=
  match s with
  | EmptyString => True
  | String c _ => Ascii.is_space c = false
  end.

(** ** The upload form ([forms.py])

    A [clean_<field>] method returns the cleaned value or raises
    [forms.ValidationError]. *)

Inductive validation (A : Type) : Type :=
  | Valid (a : A)
  | ValidationError (msg : string).
Arguments Valid {A} a.
Arguments ValidationError {A} msg.

(** The uploaded file, as far as the form looks at it. *)
Record UploadedFile : Type := {
  file_name : string;   (* resume_file.name *)
  file_size : Z         (* resume_file.size *)
}.

(** [if resume_file:]: the value is present and, a file being falsy when
    its name is empty, has a name. *)
Definition file_truthy (resume_file : option UploadedFile) : bool :=
  match resume_file with
  | Some f => negb (String.eqb (file_name f) "")
  | None => false
  end.

(** [ResumeUploadForm.clean_resume_file] *)
Definition clean_resume_file (resume_file : option UploadedFile)
    : validation (option UploadedFile) :=
  match resume_file with
  | Some f =>
      if file_truthy resume_file then
        if (file_size f >? 10 * 1024 * 1024)%Z
        then ValidationError "File size must be under 10MB"
        else
          let allowed_extensions := [".pdf"; ".docx"] in
          let file_extension :=
            Py.last_item (Py.split_on "." (Py.lower (file_name f))) in
          if bool_decide (("." +:+ file_extension) ∉ allowed_extensions)
          then ValidationError "Only PDF and DOCX files are allowed"
          else Valid resume_file
      else Valid resume_file
  | None => Valid resume_file
  end.

(** [ResumeUploadForm.clean_job_description] *)
Definition clean_job_description (jd : string) : validation string :=
  if (Py.len (Py.strip jd) <? 50)%Z
  then ValidationError "Job description must be at least 50 characters long"
  else Valid (Py.strip jd).

(** * Properties *)

(** ** Sums, dot products and the cosine *)

Section Cosine.
Local Open Scope R_scope.

Lemma sum_sq_cons (a : R) (v : list R) :
  Np.sum_sq (a :: v) = a * a + Np.sum_sq v.
Proof. reflexivity. Qed.

Lemma sum_sq_nonneg (v : list R) : 0 <= Np.sum_sq v.
Proof.
  induction v as [|a v IH]; [cbn; lra|].
  rewrite sum_sq_cons. nra.
Qed.

Lemma dot_cons (a b : R) (u v : list R) :
  Np.dot (a :: u) (b :: v) = a * b + Np.dot u v.
Proof. reflexivity. Qed.

Lemma dot_comm (u v : list R) : Np.dot u v = Np.dot v u.
Proof.
  revert v; induction u as [|a u IH]; intros [|b v]; try reflexivity.
  rewrite !dot_cons, IH. lra.
Qed.

(** Cauchy-Schwarz, on the common prefix of the two vectors. *)
Lemma cauchy_schwarz (u v : list R) :
  Np.dot u v * Np.dot u v <= Np.sum_sq u * Np.sum_sq v.
Proof.
  revert v; induction u as [|a u IH]; intros v.
  - cbn. pose proof (sum_sq_nonneg v). lra.
  - destruct v as [|b v].
    + change (Np.dot (a :: u) []) with 0. change (Np.sum_sq []) with 0. lra.
    + rewrite dot_cons, !sum_sq_cons.
      specialize (IH v).
      pose proof (sum_sq_nonneg u) as HA.
      pose proof (sum_sq_nonneg v) as HB.
      set (S := Np.dot u v) in *.
      set (A := Np.sum_sq u) in *.
      set (B := Np.sum_sq v) in *.
      assert (Hmix : 2 * (a * b) * S <= a * a * B + b * b * A).
      { destruct (Rle_dec (2 * (a * b) * S) 0) as [Hneg|Hpos].
        - nra.
        - apply Rnot_le_lt in Hpos.
          apply Rsqr_incr_0_var; [|nra].
          unfold Rsqr.
          assert ((2 * (a * b) * S) * (2 * (a * b) * S)
                  = 4 * (a * a) * (b * b) * (S * S)) as -> by ring.
          assert (4 * (a * a) * (b * b) * (S * S)
                  <= 4 * (a * a) * (b * b) * (A * B)).
          { apply Rmult_le_compat_l; [nra|exact IH]. }
          pose proof (Rle_0_sqr (a * a * B - b * b * A)) as Hsq.
          unfold Rsqr in Hsq. nra. }
      nra.
Qed.

Lemma sum_sq_scale (c : R) (v : list R) :
  Np.sum_sq (map (fun x => x / c) v) = Np.sum_sq v / (c * c).
Proof.
  induction v as [|a v IH].
  - cbn. unfold Rdiv. ring.
  - cbn [map]. rewrite !sum_sq_cons, IH. destruct (Req_dec_T c 0) as [->|Hc].
    + unfold Rdiv. rewrite Rmult_0_l, Rinv_0. ring.
    + field. exact Hc.
Qed.

Lemma sum_sq_normalize (v : list R) : Np.sum_sq (Sklearn.normalize v) <= 1.
Proof.
  unfold Sklearn.normalize, Sklearn.l2_norm.
  pose proof (sum_sq_nonneg v) as Hv.
  rewrite sum_sq_scale.
  destruct (decide (sqrt (Np.sum_sq v) = 0)) as [H0|Hn].
  - apply sqrt_eq_0 in H0; [|exact Hv]. rewrite H0. lra.
  - rewrite sqrt_sqrt by exact Hv.
    assert (Np.sum_sq v <> 0) by (intros E; apply Hn; rewrite E; apply sqrt_0).
    unfold Rdiv. rewrite Rinv_r by assumption. lra.
Qed.

Lemma cosine_bounds (x y : list R) : -1 <= Sklearn.cosine x y <= 1.
Proof.
  unfold Sklearn.cosine.
  pose proof (cauchy_schwarz (Sklearn.normalize x) (Sklearn.normalize y)) as CS.
  pose proof (sum_sq_normalize x) as Hx.
  pose proof (sum_sq_normalize y) as Hy.
  pose proof (sum_sq_nonneg (Sklearn.normalize x)) as Hx0.
  pose proof (sum_sq_nonneg (Sklearn.normalize y)) as Hy0.
  nra.
Qed.

Lemma cosine_comm (x y : list R) : Sklearn.cosine x y = Sklearn.cosine y x.
Proof. unfold Sklearn.cosine. apply dot_comm. Qed.

Lemma dot_nonneg (u v : list R) :
  Forall (fun a => 0 <= a) u → Forall (fun a => 0 <= a) v → 0 <= Np.dot u v.
Proof.
  intros Hu; revert v; induction Hu as [|a u Ha Hu IH]; intros v Hv.
  - cbn. lra.
  - destruct Hv as [|b v Hb Hv]; [cbn; lra|].
    rewrite dot_cons. specialize (IH v Hv). nra.
Qed.

Lemma l2_norm_nonneg (v : list R) : 0 <= Sklearn.l2_norm v.
Proof. apply sqrt_pos. Qed.

Lemma normalize_nonneg (v : list R) :
  Forall (fun a => 0 <= a) v → Forall (fun a => 0 <= a) (Sklearn.normalize v).
Proof.
  intros Hv. unfold Sklearn.normalize.
  pose proof (l2_norm_nonneg v) as Hn.
  apply Forall_fmap. eapply Forall_impl; [exact Hv|].
  intros a Ha; cbn.
  destruct (decide (Sklearn.l2_norm v = 0)).
  - unfold Rdiv. rewrite Rinv_1. lra.
  - apply Rmult_le_pos; [exact Ha|].
    left. apply Rinv_0_lt_compat. lra.
Qed.

Lemma cosine_nonneg (x y : list R) :
  Forall (fun a => 0 <= a) x → Forall (fun a => 0 <= a) y →
  0 <= Sklearn.cosine x y.
Proof.
  intros Hx Hy. unfold Sklearn.cosine.
  apply dot_nonneg; apply normalize_nonneg; assumption.
Qed.

Lemma dot_zero_l (u v : list R) : Forall (fun a => a = 0) u → Np.dot u v = 0.
Proof.
  intros Hu; revert v; induction Hu as [|a u Ha Hu IH]; intros [|b v];
    try reflexivity.
  rewrite dot_cons, IH, Ha. ring.
Qed.

Lemma normalize_zero (v : list R) :
  Forall (fun a => a = 0) v → Forall (fun a => a = 0) (Sklearn.normalize v).
Proof.
  intros Hv. unfold Sklearn.normalize.
  apply Forall_fmap. eapply Forall_impl; [exact Hv|].
  intros a ->; cbn. unfold Rdiv. ring.
Qed.

Lemma cosine_zero_l (x y : list R) :
  Forall (fun a => a = 0) x → Sklearn.cosine x y = 0.
Proof.
  intros Hx. unfold Sklearn.cosine. apply dot_zero_l, normalize_zero, Hx.
Qed.

Lemma cosine_zero_r (x y : list R) :
  Forall (fun a => a = 0) y → Sklearn.cosine x y = 0.
Proof. intros Hy. rewrite cosine_comm. apply cosine_zero_l, Hy. Qed.
End Cosine.

(** ** Rounding to one decimal *)

Section Rounding.
Local Open Scope R_scope.

Lemma round_half_even_close (y : R) :
  y - 1 / 2 <= IZR (Np.round_half_even y) <= y + 1 / 2.
Proof.
  unfold Np.round_half_even.
  destruct (base_Int_part y) as [Hlo Hhi].
  repeat case_decide; try destruct (Z.even _); rewrite ?plus_IZR; lra.
Qed.

(** The rounded value is within half a tenth of the exact one. *)
Lemma round1_close (x : R) : x - 0.05 <= Np.round1 x <= x + 0.05.
Proof.
  unfold Np.round1. pose proof (round_half_even_close (x * 10)). lra.
Qed.

(** It is a whole number of tenths. *)
Lemma round1_tenths (x : R) : ∃ n : Z, Np.round1 x = IZR n / 10.
Proof. eexists. reflexivity. Qed.

Lemma round1_le_tenths (x : R) (n : Z) : x <= IZR n / 10 → Np.round1 x <= IZR n / 10.
Proof.
  intros Hx. unfold Np.round1.
  pose proof (round_half_even_close (x * 10)) as [_ Hhi].
  assert (IZR (Np.round_half_even (x * 10)) < IZR (n + 1)) as Hlt
    by (rewrite plus_IZR; lra).
  apply lt_IZR in Hlt.
  assert (IZR (Np.round_half_even (x * 10)) <= IZR n) by (apply IZR_le; lia).
  lra.
Qed.

Lemma round1_ge_tenths (x : R) (n : Z) : IZR n / 10 <= x → IZR n / 10 <= Np.round1 x.
Proof.
  intros Hx. unfold Np.round1.
  pose proof (round_half_even_close (x * 10)) as [Hlo _].
  assert (IZR (n - 1) < IZR (Np.round_half_even (x * 10))) as Hlt
    by (rewrite minus_IZR; lra).
  apply lt_IZR in Hlt.
  assert (IZR n <= IZR (Np.round_half_even (x * 10))) by (apply IZR_le; lia).
  lra.
Qed.
End Rounding.

(** ** The stable descending sort *)

Section StableSortFacts.
Context {A : Type}.

Lemma insert_desc_perm (ltb : A → A → bool) (x : A) (l : list A) :
  insert_desc ltb x l ≡ₚ x :: l.
Proof.
  induction l as [|y l IH]; cbn; [reflexivity|].
  destruct (ltb x y); [|reflexivity].
  rewrite IH. apply Permutation_swap.
Qed.

Lemma sort_desc_perm (ltb : A → A → bool) (l : list A) : sort_desc ltb l ≡ₚ l.
Proof.
  unfold sort_desc.
  induction l as [|x l IH]; cbn [foldr]; [reflexivity|].
  rewrite insert_desc_perm. by rewrite IH.
Qed.

Lemma sort_desc_ext (ltb ltb' : A → A → bool) (l : list A) :
  (∀ x y, ltb x y = ltb' x y) → sort_desc ltb l = sort_desc ltb' l.
Proof.
  intros Hext. unfold sort_desc.
  induction l as [|x l IH]; cbn [foldr]; [reflexivity|].
  rewrite IH. generalize (foldr (insert_desc ltb') [] l) as s.
  induction s as [|y s IHs]; cbn; [reflexivity|].
  rewrite Hext, IHs. reflexivity.
Qed.

Lemma sort_desc_nil_inv (ltb : A → A → bool) (l : list A) :
  sort_desc ltb l = [] → l = [].
Proof.
  intros H. apply Permutation_nil_r. rewrite <- H. symmetry. apply sort_desc_perm.
Qed.
End StableSortFacts.

(** ** The vectorizer *)

Section Vectorizer.
Local Open Scope R_scope.

Lemma count_nil (t : string) : Sklearn.count t [] = 0%nat.
Proof. reflexivity. Qed.

Lemma doc_freq_le (t : string) (docs : list (list string)) :
  (Sklearn.doc_freq t docs <= length docs)%nat.
Proof. apply length_filter. Qed.

Lemma idf_pos (n df : nat) : (df <= n)%nat → 1 <= Sklearn.idf n df.
Proof.
  intros Hle. unfold Sklearn.idf.
  apply le_INR in Hle.
  pose proof (pos_INR df) as Hdf.
  assert (Hratio : 1 <= (1 + INR n) / (1 + INR df)).
  { apply (Rmult_le_reg_r (1 + INR df)); [lra|].
    unfold Rdiv. rewrite Rmult_assoc, Rinv_l by lra. lra. }
  destruct Hratio as [Hlt|Heq].
  - pose proof (ln_increasing 1 _ ltac:(lra) Hlt) as Hln.
    rewrite ln_1 in Hln. lra.
  - rewrite <- Heq, ln_1. lra.
Qed.

(** The weight rows have no negative entry. *)
Lemma tfidf_row_nonneg (docs : list (list string)) (vocab d : list string) :
  Forall (fun a => 0 <= a) (Sklearn.tfidf_row docs vocab d).
Proof.
  unfold Sklearn.tfidf_row. apply normalize_nonneg, Forall_fmap, Forall_forall.
  intros t _; cbn.
  pose proof (idf_pos _ _ (doc_freq_le t docs)).
  pose proof (pos_INR (Sklearn.count t d)).
  nra.
Qed.

(** A document without terms has the zero row. *)
Lemma tfidf_row_nil (docs : list (list string)) (vocab : list string) :
  Forall (fun a => a = 0) (Sklearn.tfidf_row docs vocab []).
Proof.
  unfold Sklearn.tfidf_row. apply normalize_zero, Forall_fmap, Forall_forall.
  intros t _; cbn. ring.
Qed.

Lemma tfidf_row_length (docs : list (list string)) (vocab d : list string) :
  length (Sklearn.tfidf_row docs vocab d) = length vocab.
Proof.
  unfold Sklearn.tfidf_row, Sklearn.normalize. by rewrite !length_map.
Qed.

Lemma limit_features_subseteq (m : nat) (docs : list (list string))
    (vocab : list string) :
  Sklearn.limit_features m docs vocab ⊆ vocab.
Proof.
  unfold Sklearn.limit_features. case_decide; [|done].
  intros t [_ Ht]%list_elem_of_filter. exact Ht.
Qed.

Lemma limit_features_nonempty (m : nat) (docs : list (list string))
    (vocab : list string) :
  (0 < m)%nat → vocab ≠ [] → Sklearn.limit_features m docs vocab ≠ [].
Proof.
  intros Hm Hv. unfold Sklearn.limit_features. case_decide; [|done].
  set (ranked := sort_desc _ vocab).
  assert (Hperm : ranked ≡ₚ vocab) by apply sort_desc_perm.
  destruct ranked as [|x ranked'] eqn:Hr.
  { apply Permutation_nil_l in Hperm. congruence. }
  destruct m as [|m']; [lia|]. cbn [take].
  assert (Hx : x ∈ vocab) by (rewrite <- Hperm; left).
  intros Hnil.
  assert (Hin : x ∈ filter (fun t => t ∈ x :: take m' ranked') vocab).
  { apply list_elem_of_filter. split; [left|exact Hx]. }
  rewrite Hnil in Hin. by apply not_elem_of_nil in Hin.
Qed.

Lemma limit_features_ext (m : nat) (docs docs' : list (list string))
    (vocab : list string) :
  (∀ t, Sklearn.total_count t docs = Sklearn.total_count t docs') →
  Sklearn.limit_features m docs vocab = Sklearn.limit_features m docs' vocab.
Proof.
  intros Hext. unfold Sklearn.limit_features. case_decide; [|done].
  rewrite (sort_desc_ext _
             (fun t u => (Sklearn.total_count t docs' <? Sklearn.total_count u docs')%nat)).
  - reflexivity.
  - intros t u. by rewrite !Hext.
Qed.

(** What a successful fit returns. *)
Lemma fit_transform_Ok_inv (m n : nat) (raw : list string)
    (vocab : list string) (rows : list (list R)) :
  Sklearn.fit_transform m n raw = Ok (vocab, rows) →
  vocab ≠ []
  ∧ vocab ⊆ concat (map (Sklearn.analyze n) raw)
  ∧ rows = map (Sklearn.tfidf_row (map (Sklearn.analyze n) raw) vocab)
               (map (Sklearn.analyze n) raw).
Proof.
  unfold Sklearn.fit_transform.
  repeat case_decide; try discriminate.
  intros [= <- <-]. split; [assumption|]. split; [|reflexivity].
  intros t Ht%limit_features_subseteq.
  rewrite merge_sort_Permutation in Ht.
  by apply elem_of_elements, elem_of_list_to_set in Ht.
Qed.

(** A fit succeeds as soon as one document has a term. *)
Lemma fit_transform_Ok (m n : nat) (raw : list string) :
  (0 < m)%nat → concat (map (Sklearn.analyze n) raw) ≠ [] →
  ∃ vocab rows, Sklearn.fit_transform m n raw = Ok (vocab, rows).
Proof.
  intros Hm Hne. unfold Sklearn.fit_transform.
  set (docs := map (Sklearn.analyze n) raw) in *.
  case_decide; [lia|].
  case_decide as Hempty.
  { exfalso. destruct (concat docs) as [|t ts]; [done|].
    assert (t ∈ (list_to_set (t :: ts) : gset string)) as Hin
      by (apply elem_of_list_to_set; left).
    rewrite Hempty in Hin. by apply not_elem_of_empty in Hin. }
  case_decide as Hlim; [|eauto].
  exfalso. revert Hlim. apply limit_features_nonempty; [exact Hm|].
  intros Hnil. apply Hempty.
  assert (elements (list_to_set (concat docs) : gset string) = []) as Hel.
  { apply Permutation_nil_r. rewrite <- Hnil. symmetry. apply merge_sort_Permutation. }
  by apply elements_empty_inv, leibniz_equiv in Hel.
Qed.

(** Without any term the fit raises the empty-vocabulary error. *)
Lemma fit_transform_empty (m n : nat) (raw : list string) :
  (0 < m)%nat → concat (map (Sklearn.analyze n) raw) = [] →
  Sklearn.fit_transform m n raw =
    Err (ValueError "empty vocabulary; perhaps the documents only contain stop words").
Proof.
  intros Hm Hnil. unfold Sklearn.fit_transform.
  case_decide; [lia|]. rewrite Hnil. case_decide as Hempty; [reflexivity|].
  exfalso. apply Hempty. reflexivity.
Qed.

(** Fitting on the two documents in the other order gives the same
    vocabulary and the two rows exchanged. *)
Lemma fit_transform_swap (m n : nat) (a b : string) :
  (∃ e, Sklearn.fit_transform m n [a; b] = Err e
        ∧ Sklearn.fit_transform m n [b; a] = Err e)
  ∨ (∃ vocab ra rb,
        Sklearn.fit_transform m n [a; b] = Ok (vocab, [ra; rb])
        ∧ Sklearn.fit_transform m n [b; a] = Ok (vocab, [rb; ra])).
Proof.
  unfold Sklearn.fit_transform. cbn [map].
  set (da := Sklearn.analyze n a). set (db := Sklearn.analyze n b).
  assert (Hvoc : (list_to_set (concat [db; da]) : gset string)
                 = list_to_set (concat [da; db])).
  { cbn [concat]. rewrite !app_nil_r, !list_to_set_app_L. apply (comm_L _). }
  rewrite Hvoc.
  assert (Htot : ∀ t, Sklearn.total_count t [db; da] = Sklearn.total_count t [da; db]).
  { intros t. unfold Sklearn.total_count. cbn. lia. }
  rewrite (limit_features_ext m [db; da] [da; db] _ Htot).
  assert (Hrow : ∀ v d, Sklearn.tfidf_row [db; da] v d = Sklearn.tfidf_row [da; db] v d).
  { intros v d. unfold Sklearn.tfidf_row. f_equal. apply map_ext. intros t.
    f_equal. f_equal. unfold Sklearn.doc_freq.
    rewrite !filter_cons, !filter_nil. repeat case_decide; reflexivity. }
  rewrite !Hrow.
  repeat case_decide; eauto 10.
Qed.
End Vectorizer.

(** ** The lexical similarity *)

Section Lexical.
Local Open Scope R_scope.
Implicit Types (self : NLPProcessor).

Lemma tfidf_of_fit self (a b : string) (vocab : list string) (ra rb : list R) :
  Sklearn.fit_transform 1000 2 [preprocess_text self a; preprocess_text self b]
    = Ok (vocab, [ra; rb]) →
  calculate_tfidf_similarity self a b =
    Ok {| similarity_score := Sklearn.cosine ra rb;
          matching_terms := take 20 (matching_of vocab ra rb);
          vectorizer := vocab;
          resume_vector := ra;
          jd_vector := rb |}.
Proof.
  intros Hfit. unfold calculate_tfidf_similarity. rewrite Hfit. reflexivity.
Qed.

Lemma tfidf_of_fit_err self (a b : string) (e : exn) :
  Sklearn.fit_transform 1000 2 [preprocess_text self a; preprocess_text self b]
    = Err e →
  calculate_tfidf_similarity self a b = Err e.
Proof.
  intros Hfit. unfold calculate_tfidf_similarity. rewrite Hfit. reflexivity.
Qed.

Lemma fit_pair_rows (m n : nat) (a b : string) (vocab : list string)
    (rows : list (list R)) :
  Sklearn.fit_transform m n [a; b] = Ok (vocab, rows) →
  rows = [ Sklearn.tfidf_row [Sklearn.analyze n a; Sklearn.analyze n b] vocab
             (Sklearn.analyze n a);
           Sklearn.tfidf_row [Sklearn.analyze n a; Sklearn.analyze n b] vocab
             (Sklearn.analyze n b) ].
Proof. intros (_ & _ & ->)%fit_transform_Ok_inv. reflexivity. Qed.

(** A returned lexical similarity lies between 0 and 1. *)
Lemma tfidf_similarity_bounds self (a b : string) (r : TfidfResult) :
  calculate_tfidf_similarity self a b = Ok r → 0 <= similarity_score r <= 1.
Proof.
  intros Hr.
  destruct (Sklearn.fit_transform 1000 2
              [preprocess_text self a; preprocess_text self b])
    as [[vocab rows]|e] eqn:Hfit.
  - pose proof (fit_pair_rows _ _ _ _ _ _ Hfit) as ->.
    rewrite (tfidf_of_fit _ _ _ _ _ _ Hfit) in Hr. injection Hr as <-. cbn.
    split; [|apply cosine_bounds].
    apply cosine_nonneg; apply tfidf_row_nonneg.
  - rewrite (tfidf_of_fit_err _ _ _ _ Hfit) in Hr. discriminate.
Qed.

Lemma matching_of_zero_l (names : list string) (ra rb : list R) :
  Forall (fun x => x = 0) ra → matching_of names ra rb = [].
Proof.
  intros Hra. unfold matching_of.
  assert (omap (fun '(name, (resume_score, jd_score)) =>
             if decide (resume_score > 0 ∧ jd_score > 0)
             then Some {| term := name;
                          resume_score := resume_score;
                          jd_score := jd_score;
                          combined_score := resume_score * jd_score |}
             else None)
          (zip names (zip ra rb)) = []) as ->; [|reflexivity].
  revert names rb. induction Hra as [|x ra -> Hra IH]; intros names rb.
  - destruct names; reflexivity.
  - destruct names as [|nm names]; [reflexivity|].
    destruct rb as [|y rb]; [reflexivity|].
    cbn. case_decide as Hd; [lra|]. apply IH.
Qed.

Lemma matching_of_zero_r (names : list string) (ra rb : list R) :
  Forall (fun x => x = 0) rb → matching_of names ra rb = [].
Proof.
  intros Hrb. unfold matching_of.
  assert (omap (fun '(name, (resume_score, jd_score)) =>
             if decide (resume_score > 0 ∧ jd_score > 0)
             then Some {| term := name;
                          resume_score := resume_score;
                          jd_score := jd_score;
                          combined_score := resume_score * jd_score |}
             else None)
          (zip names (zip ra rb)) = []) as ->; [|reflexivity].
  revert names ra. induction Hrb as [|y rb -> Hrb IH]; intros names ra.
  - destruct names, ra; reflexivity.
  - destruct names as [|nm names]; [reflexivity|].
    destruct ra as [|x ra]; [reflexivity|].
    cbn. case_decide as Hd; [lra|]. apply IH.
Qed.

Lemma tfidf_Ok self (a b : string) :
  lexical_terms self a ≠ [] ∨ lexical_terms self b ≠ [] →
  ∃ r, calculate_tfidf_similarity self a b = Ok r.
Proof.
  intros Hne.
  destruct (fit_transform_Ok 1000 2 [preprocess_text self a; preprocess_text self b])
    as (vocab & rows & Hfit); [lia| |].
  - cbn. rewrite app_nil_r. unfold lexical_terms in Hne.
    intros [Ha Hb]%app_eq_nil. tauto.
  - pose proof (fit_pair_rows _ _ _ _ _ _ Hfit) as ->.
    eexists. by apply tfidf_of_fit.
Qed.

Lemma tfidf_resume_empty self (a b : string) :
  lexical_terms self a = [] → lexical_terms self b ≠ [] →
  ∃ r, calculate_tfidf_similarity self a b = Ok r
       ∧ similarity_score r = 0 ∧ matching_terms r = [].
Proof.
  intros Ha Hb. unfold lexical_terms in *.
  destruct (fit_transform_Ok 1000 2 [preprocess_text self a; preprocess_text self b])
    as (vocab & rows & Hfit); [lia| |].
  - cbn. rewrite app_nil_r. intros [_ ?]%app_eq_nil. tauto.
  - pose proof (fit_pair_rows _ _ _ _ _ _ Hfit) as ->.
    eexists. split; [by apply tfidf_of_fit|]. cbn. rewrite Ha.
    split.
    + apply cosine_zero_l, tfidf_row_nil.
    + rewrite matching_of_zero_l; [reflexivity|apply tfidf_row_nil].
Qed.

Lemma tfidf_jd_empty self (a b : string) :
  lexical_terms self a ≠ [] → lexical_terms self b = [] →
  ∃ r, calculate_tfidf_similarity self a b = Ok r
       ∧ similarity_score r = 0 ∧ matching_terms r = [].
Proof.
  intros Ha Hb. unfold lexical_terms in *.
  destruct (fit_transform_Ok 1000 2 [preprocess_text self a; preprocess_text self b])
    as (vocab & rows & Hfit); [lia| |].
  - cbn. rewrite app_nil_r. intros [? _]%app_eq_nil. tauto.
  - pose proof (fit_pair_rows _ _ _ _ _ _ Hfit) as ->.
    eexists. split; [by apply tfidf_of_fit|]. cbn. rewrite Hb.
    split.
    + apply cosine_zero_r, tfidf_row_nil.
    + rewrite matching_of_zero_r; [reflexivity|apply tfidf_row_nil].
Qed.

Lemma tfidf_both_empty self (a b : string) :
  lexical_terms self a = [] → lexical_terms self b = [] →
  calculate_tfidf_similarity self a b =
    Err (ValueError "empty vocabulary; perhaps the documents only contain stop words").
Proof.
  intros Ha Hb. unfold lexical_terms in *.
  apply tfidf_of_fit_err, fit_transform_empty; [lia|].
  cbn. rewrite Ha, Hb. reflexivity.
Qed.
End Lexical.

(** ** The semantic similarity *)

Section Semantic.
Local Open Scope R_scope.
Implicit Types (self : NLPProcessor).

Lemma mean_axis0_None (rows : list (list R)) :
  Np.mean_axis0 rows = None ↔ rows = [].
Proof. destruct rows; cbn; split; congruence. Qed.

Lemma encode_nil self (sentences : list string) :
  encode self sentences = [] ↔ sentences = [].
Proof.
  unfold encode. destruct sentences; cbn; split; congruence.
Qed.

Lemma best_match_loop_Ok (emb : list R) (jd : list (string * list R))
    (max_sim : R) (best : string) :
  ∃ m b, best_match_loop emb jd max_sim best = Ok (m, b).
Proof.
  revert max_sim best. induction jd as [|[s e] jd IH]; intros max_sim best.
  - cbn. eauto.
  - cbn. case_decide; apply IH.
Qed.

Lemma mapM_result_Ok {A B : Type} (f : A → result B) (l : list A) :
  (∀ x, ∃ y, f x = Ok y) → ∃ ys, mapM f l = Ok ys.
Proof.
  intros Hf. induction l as [|x l [ys IH]]; cbn; [eauto|].
  destruct (Hf x) as [y ->]. cbn. rewrite IH. cbn. eauto.
Qed.

(** Without a qualifying sentence on either side the mean of an empty
    array is taken and the similarity computation rejects it. *)
Lemma bert_undefined_mean self (a b : string) :
  long_sentences self a = [] ∨ long_sentences self b = [] →
  calculate_bert_similarity self a b = Err (ValueError "Expected 2D array, got 1D array instead").
Proof.
  intros Hnil. unfold calculate_bert_similarity.
  destruct Hnil as [H|H]; rewrite H; cbn.
  - reflexivity.
  - destruct (Np.mean_axis0 _); reflexivity.
Qed.

Lemma bert_Ok self (a b : string) :
  long_sentences self a ≠ [] → long_sentences self b ≠ [] →
  ∃ r, calculate_bert_similarity self a b = Ok r.
Proof.
  intros Ha Hb. unfold calculate_bert_similarity.
  destruct (Np.mean_axis0 (encode self (long_sentences self a))) as [x|] eqn:Hx.
  2:{ apply mean_axis0_None, encode_nil in Hx. contradiction. }
  destruct (Np.mean_axis0 (encode self (long_sentences self b))) as [y|] eqn:Hy.
  2:{ apply mean_axis0_None, encode_nil in Hy. contradiction. }
  cbn.
  match goal with |- context [mapM ?f ?l] => destruct (mapM_result_Ok f l) as [ys ->] end.
  - intros [s e].
    destruct (best_match_loop_Ok e
                (zip (long_sentences self b) (encode self (long_sentences self b)))
                0 "") as (m & bst & ->).
    cbn. eauto.
  - cbn. eauto.
Qed.

(** A returned document similarity is the cosine of the two mean
    embeddings. *)
Lemma bert_Ok_inv self (a b : string) (r : BertResult) :
  calculate_bert_similarity self a b = Ok r →
  ∃ x y,
    Np.mean_axis0 (encode self (long_sentences self a)) = Some x
    ∧ Np.mean_axis0 (encode self (long_sentences self b)) = Some y
    ∧ document_similarity r = Sklearn.cosine x y.
Proof.
  unfold calculate_bert_similarity.
  destruct (Np.mean_axis0 (encode self (long_sentences self a))) as [x|];
    [|discriminate].
  destruct (Np.mean_axis0 (encode self (long_sentences self b))) as [y|];
    [|discriminate].
  cbn. destruct (mapM _ _) as [ys|e]; cbn; [|discriminate].
  intros [= <-]. cbn. eauto.
Qed.

Lemma bert_similarity_bounds self (a b : string) (r : BertResult) :
  calculate_bert_similarity self a b = Ok r → -1 <= document_similarity r <= 1.
Proof.
  intros (x & y & _ & _ & ->)%bert_Ok_inv. apply cosine_bounds.
Qed.
End Semantic.

(** ** Keyword extraction *)

Section Keywords.
Local Open Scope R_scope.
Implicit Types (self : NLPProcessor).

Lemma extract_keywords_empty self (text : string) (top_k : nat) :
  keyword_terms self text = [] → (0 < top_k)%nat →
  extract_keywords self text top_k =
    Err (ValueError "empty vocabulary; perhaps the documents only contain stop words").
Proof.
  intros Hnil Hk. unfold extract_keywords, keyword_terms in *.
  rewrite fit_transform_empty; [reflexivity|lia|].
  cbn. rewrite Hnil. reflexivity.
Qed.

Lemma extract_keywords_fails self (text : string) (top_k : nat) :
  keyword_terms self text = [] → is_ok (extract_keywords self text top_k) = false.
Proof.
  intros Hnil. destruct top_k as [|k].
  - reflexivity.
  - rewrite extract_keywords_empty; [reflexivity|exact Hnil|lia].
Qed.

Lemma extract_keywords_Ok self (text : string) (top_k : nat) :
  keyword_terms self text ≠ [] → (0 < top_k)%nat →
  ∃ kws, extract_keywords self text top_k = Ok kws.
Proof.
  intros Hne Hk. unfold extract_keywords, keyword_terms in *.
  destruct (fit_transform_Ok (top_k * 2) 3 [preprocess_text self text])
    as (vocab & rows & ->); [lia| |].
  - cbn. by rewrite app_nil_r.
  - cbn. eauto.
Qed.

(** Every keyword returned is a term of the preprocessed text. *)
Lemma extract_keywords_terms self (text : string) (top_k : nat)
    (kws : list Keyword) :
  extract_keywords self text top_k = Ok kws →
  ∀ kw, kw ∈ kws → keyword kw ∈ keyword_terms self text.
Proof.
  unfold extract_keywords, keyword_terms.
  destruct (Sklearn.fit_transform _ _ _) as [[vocab rows]|e] eqn:Hfit;
    [|discriminate].
  cbn. intros [= <-] kw Hkw.
  apply fit_transform_Ok_inv in Hfit as (_ & Hsub & _).
  cbn in Hsub. rewrite app_nil_r in Hsub. apply Hsub.
  apply elem_of_take in Hkw as (i & Hkw%list_elem_of_lookup_2 & _).
  rewrite sort_desc_perm in Hkw.
  apply list_elem_of_omap in Hkw as ([name sc] & Hin & Hsome).
  case_decide; [|discriminate]. injection Hsome as <-. cbn.
  by apply elem_of_zip_l in Hin.
Qed.
End Keywords.

(** ** The five sub-scores *)

Section SubScores.
Local Open Scope R_scope.
Implicit Types (self : NLPProcessor).

(** The percentage of a subset, capped at 100. *)
Lemma ratio_score_bounds (m n : nat) :
  (m <= n)%nat → (0 < n)%nat → 0 <= Rmin (INR m / INR n * 100) 100 <= 100.
Proof.
  intros Hmn Hn.
  apply le_INR in Hmn. apply lt_INR in Hn. cbn in Hn.
  pose proof (pos_INR m) as Hm.
  assert (0 <= INR m / INR n).
  { apply Rmult_le_pos; [exact Hm|]. left. by apply Rinv_0_lt_compat. }
  split.
  - apply Rmin_glb; lra.
  - apply Rmin_r.
Qed.

Lemma _calculate_keyword_score_inv self (resume_text jd_text : string)
    (kd : KeywordData.t) :
  _calculate_keyword_score self resume_text jd_text = Ok kd →
  ∃ jd_keywords resume_keywords,
    extract_keywords self jd_text 30 = Ok jd_keywords
    ∧ extract_keywords self resume_text 50 = Ok resume_keywords
    ∧ KeywordData.score kd =
        (if decide (0 < size (keyword_set jd_keywords))%nat
         then Rmin (INR (size (keyword_set jd_keywords ∩ keyword_set resume_keywords))
                    / INR (size (keyword_set jd_keywords)) * 100) 100
         else 0).
Proof.
  unfold _calculate_keyword_score.
  destruct (extract_keywords self jd_text 30) as [jk|e]; [|discriminate].
  destruct (extract_keywords self resume_text 50) as [rk|e]; [|discriminate].
  cbn. intros [= <-]. exists jk, rk. cbn. auto.
Qed.

Lemma _calculate_keyword_score_Ok self (resume_text jd_text : string) :
  keyword_terms self resume_text ≠ [] → keyword_terms self jd_text ≠ [] →
  ∃ kd, _calculate_keyword_score self resume_text jd_text = Ok kd.
Proof.
  intros Hr Hj. unfold _calculate_keyword_score.
  destruct (extract_keywords_Ok self jd_text 30 Hj) as [jk ->]; [lia|].
  destruct (extract_keywords_Ok self resume_text 50 Hr) as [rk ->]; [lia|].
  cbn. eauto.
Qed.

Lemma keyword_score_bounds self (resume_text jd_text : string)
    (kd : KeywordData.t) :
  _calculate_keyword_score self resume_text jd_text = Ok kd →
  0 <= KeywordData.score kd <= 100.
Proof.
  intros H. apply _calculate_keyword_score_inv in H as (jk & rk & _ & _ & ->).
  case_decide; [|lra].
  apply ratio_score_bounds; [|assumption].
  apply subseteq_size, intersection_subseteq_l.
Qed.

Lemma keyword_set_terms self (text : string) (top_k : nat) (kws : list Keyword) :
  extract_keywords self text top_k = Ok kws →
  keyword_set kws ⊆ list_to_set (map Py.lower (keyword_terms self text)).
Proof.
  intros Hk t. unfold keyword_set.
  rewrite !elem_of_list_to_set, !list_elem_of_fmap.
  intros (kw & -> & Hkw). exists (keyword kw). split; [reflexivity|].
  by eapply extract_keywords_terms.
Qed.

(** Texts without a common term have keyword score 0. *)
Lemma keyword_score_disjoint self (resume_text jd_text : string)
    (kd : KeywordData.t) :
  (list_to_set (map Py.lower (keyword_terms self jd_text)) : gset string)
    ∩ list_to_set (map Py.lower (keyword_terms self resume_text)) = ∅ →
  _calculate_keyword_score self resume_text jd_text = Ok kd →
  KeywordData.score kd = 0.
Proof.
  intros Hdisj H.
  apply _calculate_keyword_score_inv in H as (jk & rk & Hj & Hr & ->).
  case_decide; [|reflexivity].
  apply keyword_set_terms in Hj, Hr.
  assert (keyword_set jk ∩ keyword_set rk = ∅) as ->.
  { apply elem_of_equiv_empty_L. intros t [Ht1 Ht2]%elem_of_intersection.
    apply Hj in Ht1. apply Hr in Ht2.
    assert (t ∈ (∅ : gset string)) as Hin
      by (rewrite <- Hdisj; apply elem_of_intersection; auto).
    by apply not_elem_of_empty in Hin. }
  rewrite size_empty. cbn. unfold Rdiv. rewrite Rmult_0_l, Rmult_0_l.
  apply Rmin_left. lra.
Qed.

Lemma skill_score_bounds self (resume_text jd_text : string) :
  0 <= SkillData.score (_calculate_skill_score self resume_text jd_text) <= 100.
Proof.
  unfold _calculate_skill_score; cbn [SkillData.score].
  case_decide; [|lra].
  apply ratio_score_bounds; [|assumption].
  apply subseteq_size, intersection_subseteq_r.
Qed.

Lemma _calculate_semantic_score_inv self (resume_text jd_text : string)
    (sd : SemanticData.t) :
  _calculate_semantic_score self resume_text jd_text = Ok sd →
  ∃ tfidf_result bert_result,
    calculate_tfidf_similarity self resume_text jd_text = Ok tfidf_result
    ∧ calculate_bert_similarity self resume_text jd_text = Ok bert_result
    ∧ SemanticData.tfidf_similarity sd = similarity_score tfidf_result * 100
    ∧ SemanticData.bert_similarity sd = document_similarity bert_result * 100
    ∧ SemanticData.score sd =
        SemanticData.tfidf_similarity sd * 0.4 + SemanticData.bert_similarity sd * 0.6.
Proof.
  unfold _calculate_semantic_score.
  destruct (calculate_tfidf_similarity self resume_text jd_text) as [tr|e];
    [|discriminate].
  destruct (calculate_bert_similarity self resume_text jd_text) as [br|e];
    [|discriminate].
  cbn. intros [= <-]. exists tr, br. cbn. auto.
Qed.

Lemma _calculate_semantic_score_Ok self (resume_text jd_text : string) :
  lexical_terms self resume_text ≠ [] ∨ lexical_terms self jd_text ≠ [] →
  long_sentences self resume_text ≠ [] → long_sentences self jd_text ≠ [] →
  ∃ sd, _calculate_semantic_score self resume_text jd_text = Ok sd.
Proof.
  intros Ht Ha Hb. unfold _calculate_semantic_score.
  destruct (tfidf_Ok self resume_text jd_text Ht) as [tr ->].
  destruct (bert_Ok self resume_text jd_text Ha Hb) as [br ->].
  cbn. eauto.
Qed.

Lemma semantic_score_bounds self (resume_text jd_text : string)
    (sd : SemanticData.t) :
  _calculate_semantic_score self resume_text jd_text = Ok sd →
  -60 <= SemanticData.score sd <= 100
  ∧ 0 <= SemanticData.tfidf_similarity sd <= 100
  ∧ -100 <= SemanticData.bert_similarity sd <= 100.
Proof.
  intros H.
  apply _calculate_semantic_score_inv in H as (tr & br & Ht & Hb & Htf & Hbs & Hs).
  apply tfidf_similarity_bounds in Ht. apply bert_similarity_bounds in Hb.
  rewrite Hs, Htf, Hbs. lra.
Qed.

(** The experience score, case by case. *)
Lemma experience_score_absent self (sc : StructuredContent) (jd_text : string) :
  paragraphs sc = None →
  _calculate_experience_score self sc jd_text =
    Ok {| ExperienceData.score := 30;
          ExperienceData.details := Some "Unable to analyze experience structure";
          ExperienceData.experience_paragraphs_count := None;
          ExperienceData.relevance_score := None |}.
Proof.
  intros Hp. unfold _calculate_experience_score. rewrite Hp.
  destruct (structured_content_falsy sc); reflexivity.
Qed.

Lemma structured_content_with_paragraphs (sc : StructuredContent)
    (ps : list Paragraph) :
  paragraphs sc = Some ps → structured_content_falsy sc = false.
Proof. intros Hp. unfold structured_content_falsy. rewrite Hp. reflexivity. Qed.

Lemma experience_score_none_found self (sc : StructuredContent)
    (ps : list Paragraph) (jd_text : string) :
  paragraphs sc = Some ps → experience_paragraphs_of ps = [] →
  _calculate_experience_score self sc jd_text =
    Ok {| ExperienceData.score := 20;
          ExperienceData.details := Some "No clear experience section found";
          ExperienceData.experience_paragraphs_count := None;
          ExperienceData.relevance_score := None |}.
Proof.
  intros Hp He. unfold _calculate_experience_score.
  rewrite (structured_content_with_paragraphs _ _ Hp), Hp, He. reflexivity.
Qed.

Lemma experience_score_found self (sc : StructuredContent)
    (ps : list Paragraph) (jd_text : string) :
  paragraphs sc = Some ps → experience_paragraphs_of ps ≠ [] →
  _calculate_experience_score self sc jd_text =
    (fun sim =>
       {| ExperienceData.score := document_similarity sim * 100;
          ExperienceData.details := None;
          ExperienceData.experience_paragraphs_count :=
            Some (Z.of_nat (length (experience_paragraphs_of ps)));
          ExperienceData.relevance_score := Some (document_similarity sim) |})
    <$> calculate_bert_similarity self
          (Py.join " " (experience_paragraphs_of ps)) jd_text.
Proof.
  intros Hp He. unfold _calculate_experience_score.
  rewrite (structured_content_with_paragraphs _ _ Hp), Hp.
  destruct (experience_paragraphs_of ps) as [|p l] eqn:Hps; [done|].
  cbn [Py.truthy negb].
  destruct (calculate_bert_similarity _ _ _); reflexivity.
Qed.


Lemma experience_score_bounds self (sc : StructuredContent) (jd_text : string)
    (ed : ExperienceData.t) :
  _calculate_experience_score self sc jd_text = Ok ed →
  -100 <= ExperienceData.score ed <= 100.
Proof.
  destruct (paragraphs sc) as [ps|] eqn:Hp.
  - destruct (experience_paragraphs_of ps) as [|p l] eqn:He.
    + rewrite (experience_score_none_found _ _ _ _ Hp He).
      intros [= <-]; cbn; lra.
    + rewrite (experience_score_found _ _ ps _ Hp) by (rewrite He; done).
      destruct (calculate_bert_similarity _ _ _) as [sim|e] eqn:Hb;
        [|discriminate].
      intros [= <-]; cbn. apply bert_similarity_bounds in Hb. lra.
  - rewrite (experience_score_absent _ _ _ Hp). intros [= <-]; cbn; lra.
Qed.

Lemma formatting_score_bounds (resume_data : ResumeData) :
  0 <= FormattingData.score (_calculate_formatting_score resume_data) <= 100.
Proof.
  unfold _calculate_formatting_score.
  destruct (formatting_issues _) as [fi|]; [destruct (Py.truthy fi)|];
    destruct (_ <? 500)%Z; try destruct (_ >? 5000)%Z;
    destruct (structured_content resume_data) as [sc|];
    try destruct (_ <? 3)%Z; cbn [FormattingData.score];
    split; apply IZR_le; lia.
Qed.
End SubScores.

(** ** The total score *)

Section Total.
Local Open Scope R_scope.
Implicit Types (self : NLPProcessor).

Lemma calculate_ats_score_inv self (resume_data : ResumeData) (jd_text : string)
    (r : AnalysisResult) :
  calculate_ats_score self resume_data jd_text = Ok r →
  ∃ kd sd ed,
    _calculate_keyword_score self (text resume_data) jd_text = Ok kd
    ∧ _calculate_semantic_score self (text resume_data) jd_text = Ok sd
    ∧ _calculate_experience_score self
        (default empty_structured_content (structured_content resume_data))
        jd_text = Ok ed
    ∧ breakdown r =
        {| bd_keyword_match := kd;
           bd_skill_match := _calculate_skill_score self (text resume_data) jd_text;
           bd_semantic_similarity := sd;
           bd_experience_relevance := ed;
           bd_formatting_quality := _calculate_formatting_score resume_data |}
    ∧ total_score r =
        Np.round1
          (weighted_total
             (KeywordData.score kd)
             (SkillData.score (_calculate_skill_score self (text resume_data) jd_text))
             (SemanticData.score sd)
             (ExperienceData.score ed)
             (FormattingData.score (_calculate_formatting_score resume_data)))
    ∧ suggestions r =
        _generate_suggestions kd
          (_calculate_skill_score self (text resume_data) jd_text) sd ed
          (_calculate_formatting_score resume_data).
Proof.
  unfold calculate_ats_score.
  destruct (_calculate_keyword_score _ _ _) as [kd|e]; [|discriminate].
  cbn [mbind result_bind].
  destruct (_calculate_semantic_score _ _ _) as [sd|e]; [|discriminate].
  destruct (_calculate_experience_score _ _ _) as [ed|e]; [|discriminate].
  intros [= <-]. exists kd, sd, ed. cbn [breakdown total_score suggestions].
  auto 10.
Qed.

Lemma weighted_total_unfold (k s m e f : R) :
  weighted_total k s m e f = 0.30 * k + 0.25 * s + 0.20 * m + 0.15 * e + 0.10 * f.
Proof. unfold weighted_total, weights; cbn. lra. Qed.

Lemma ngrams_of_nil (i k : nat) :
  (1 <= i)%nat →
  flat_map (fun n => Sklearn.ngrams_of_size n []) (seq i k) = [].
Proof.
  revert i. induction k as [|k IH]; intros i Hi; [reflexivity|].
  cbn [seq flat_map]. rewrite IH by lia. rewrite app_nil_r.
  unfold Sklearn.ngrams_of_size. cbn [length].
  replace (0 + 1 - i)%nat with 0%nat by lia. reflexivity.
Qed.

(** A text has n-grams exactly when it has a token. *)
Lemma analyze_nil (n : nat) (doc : string) :
  Sklearn.analyze n doc = [] ↔ Sklearn.tokenize doc = [].
Proof.
  unfold Sklearn.analyze. split.
  - by intros [? _]%app_eq_nil.
  - intros ->. cbn [app]. apply ngrams_of_nil. lia.
Qed.

Lemma keyword_terms_lexical_terms self (text : string) :
  keyword_terms self text ≠ [] → lexical_terms self text ≠ [].
Proof.
  unfold keyword_terms, lexical_terms. rewrite !analyze_nil. auto.
Qed.

(** A scoring request succeeds when both texts have a term and a
    qualifying sentence, and so has the text of the experience paragraphs
    when there is one. *)
Lemma calculate_ats_score_Ok self (resume_data : ResumeData) (jd_text : string) :
  keyword_terms self (text resume_data) ≠ [] →
  keyword_terms self jd_text ≠ [] →
  long_sentences self (text resume_data) ≠ [] →
  long_sentences self jd_text ≠ [] →
  (∀ sc ps, structured_content resume_data = Some sc → paragraphs sc = Some ps →
     experience_paragraphs_of ps ≠ [] →
     long_sentences self (Py.join " " (experience_paragraphs_of ps)) ≠ []) →
  ∃ r, calculate_ats_score self resume_data jd_text = Ok r.
Proof.
  intros Hkr Hkj Hsr Hsj Hexp. unfold calculate_ats_score.
  destruct (_calculate_keyword_score_Ok self _ _ Hkr Hkj) as [kd ->].
  cbn [mbind result_bind].
  destruct (_calculate_semantic_score_Ok self (text resume_data) jd_text)
    as [sd ->]; [left; by apply keyword_terms_lexical_terms|done|done|].
  assert (∃ ed, _calculate_experience_score self
                  (default empty_structured_content (structured_content resume_data))
                  jd_text = Ok ed) as [ed ->].
  { destruct (structured_content resume_data) as [sc|] eqn:Hsc; cbn [default].
    - destruct (paragraphs sc) as [ps|] eqn:Hp.
      + destruct (experience_paragraphs_of ps) as [|p l] eqn:He.
        * rewrite (experience_score_none_found _ _ _ _ Hp He). eauto.
        * rewrite (experience_score_found _ _ ps _ Hp) by (rewrite He; done).
          destruct (bert_Ok self (Py.join " " (experience_paragraphs_of ps)) jd_text)
            as [sim ->]; [|done|cbn; eauto].
          apply (Hexp sc ps); [done|done|]. rewrite He; done.
      + rewrite (experience_score_absent _ _ _ Hp). eauto.
    - rewrite experience_score_absent by reflexivity. eauto. }
  eauto.
Qed.
End Total.

(** ** Formatting quality *)

Section Formatting.
Local Open Scope R_scope.

(** The formatting score in closed form. *)
Lemma formatting_score_eq (resume_data : ResumeData) :
  FormattingData.score (_calculate_formatting_score resume_data) =
    IZR (Z.max 0
           (100
            - 10 * Z.of_nat
                     (length (default [] (formatting_issues
                                (default empty_metadata (metadata resume_data)))))
            - (if (Py.len (text resume_data) <? 500)%Z then 20
               else if (5000 <? Py.len (text resume_data))%Z then 10 else 0)
            - match structured_content resume_data with
              | Some sc =>
                  if (Z.of_nat (length (default [] (paragraphs sc))) <? 3)%Z
                  then 15 else 0
              | None => 0
              end)).
Proof.
  unfold _calculate_formatting_score.
  rewrite Z.gtb_ltb.
  destruct (formatting_issues _) as [[|i fi]|]; cbn [Py.truthy default length];
    destruct (_ <? 500)%Z; try destruct (5000 <? _)%Z;
    destruct (structured_content resume_data) as [sc|];
    try destruct (_ <? 3)%Z; cbn [FormattingData.score];
    f_equal; unfold Datatypes.id; cbn [length]; lia.
Qed.

Lemma pdf_resume_score :
  FormattingData.score (_calculate_formatting_score pdf_resume) = 100.
Proof.
  rewrite formatting_score_eq. f_equal.
Qed.

(** C4, as stated, fails: for a resume without any structured-content
    representation (a PDF) of 600 characters and no reported issue the code
    returns 100, where the claim's formula, which counts the missing
    representation as zero paragraphs, gives 85. *)
Lemma C4_counterexample :
  structured_content pdf_resume = None
  ∧ FormattingData.score (_calculate_formatting_score pdf_resume) = 100
  ∧ formatting_score_spec pdf_resume = 85%Z
  ∧ FormattingData.score (_calculate_formatting_score pdf_resume)
      ≠ IZR (formatting_score_spec pdf_resume).
Proof.
  split; [reflexivity|]. split; [apply pdf_resume_score|].
  assert (formatting_score_spec pdf_resume = 85%Z) as Hspec
    by (vm_compute; reflexivity).
  split; [exact Hspec|].
  rewrite pdf_resume_score, Hspec. lra.
Qed.

(** C4, amended: the formatting score starts at 100, loses 10 for each
    formatting issue reported in the metadata (none when the metadata is
    missing), 20 when the text is shorter than 500 characters or 10 when it
    is longer than 5000, and 15 when a structured-content representation is
    present with fewer than 3 paragraphs (its paragraph list counting as
    empty when missing); without a structured-content representation no
    paragraph deduction applies.  The result is clamped below at 0 and lies
    in [0, 100]. *)
Theorem C4_formatting_score (resume_data : ResumeData) :
  let n_issues :=
    Z.of_nat (length (default [] (formatting_issues
                                    (default empty_metadata (metadata resume_data))))) in
  let text_length := Py.len (text resume_data) in
  let length_deduction :=
    (if (text_length <? 500)%Z then 20
     else if (5000 <? text_length)%Z then 10 else 0)%Z in
  let paragraph_deduction :=
    match structured_content resume_data with
    | Some sc =>
        if (Z.of_nat (length (default [] (paragraphs sc))) <? 3)%Z
        then 15%Z else 0%Z
    | None => 0%Z
    end in
  let score := FormattingData.score (_calculate_formatting_score resume_data) in
  score = IZR (Z.max 0 (100 - 10 * n_issues - length_deduction - paragraph_deduction))
  ∧ 0 <= score <= 100.
Proof.
  cbv zeta. split; [apply formatting_score_eq|apply formatting_score_bounds].
Qed.
End Formatting.

(** ** Suggestions *)

Section Suggestions.
Local Open Scope R_scope.

(** The first character tells the six kinds of message apart. *)
Lemma keyword_suggestion_head (l : list string) :
  String.get 0 (keyword_suggestion l) = Some "A"%char.
Proof. reflexivity. Qed.

Lemma skill_suggestion_head (l : list string) :
  String.get 0 (skill_suggestion l) = Some "C"%char.
Proof. reflexivity. Qed.

Lemma formatting_suggestion_head (issue : string) :
  String.get 0 (formatting_suggestion issue) = Some "F"%char.
Proof. reflexivity. Qed.

Lemma keyword_suggestion_not_formatting (l : list string) (issues : list string) :
  keyword_suggestion l ∉ map formatting_suggestion issues.
Proof.
  intros (issue & Heq & _)%list_elem_of_fmap.
  apply (f_equal (String.get 0)) in Heq.
  rewrite keyword_suggestion_head, formatting_suggestion_head in Heq.
  discriminate.
Qed.

Lemma keyword_suggestion_not_skill (l l' : list string) :
  keyword_suggestion l ≠ skill_suggestion l'.
Proof.
  intros Heq. apply (f_equal (String.get 0)) in Heq.
  rewrite keyword_suggestion_head, skill_suggestion_head in Heq. discriminate.
Qed.

Lemma keyword_suggestion_not_fixed (l : list string) :
  keyword_suggestion l ≠ semantic_suggestion
  ∧ keyword_suggestion l ≠ experience_suggestion
  ∧ keyword_suggestion l ≠ affirmation.
Proof.
  repeat split; intros Heq; apply (f_equal (String.get 0)) in Heq;
    rewrite keyword_suggestion_head in Heq; discriminate.
Qed.

(** The suggestions in declarative form: five blocks in a fixed order,
    replaced by the affirmation when all of them are empty. *)
Lemma _generate_suggestions_blocks (kd : KeywordData.t) (sd : SkillData.t)
    (md : SemanticData.t) (ed : ExperienceData.t) (fd : FormattingData.t) :
  let keyword_block :=
    if decide (KeywordData.score kd < 60) then
      if Py.truthy (KeywordData.missing_keywords kd)
      then [keyword_suggestion (KeywordData.missing_keywords kd)] else []
    else [] in
  let skill_block :=
    if decide (SkillData.score sd < 70) then
      if Py.truthy (SkillData.missing_skills sd)
      then [skill_suggestion (SkillData.missing_skills sd)] else []
    else [] in
  let semantic_block :=
    if decide (SemanticData.score md < 50) then [semantic_suggestion] else [] in
  let experience_block :=
    if decide (ExperienceData.score ed < 60) then [experience_suggestion] else [] in
  let formatting_block :=
    if decide (FormattingData.score fd < 80)
    then map formatting_suggestion (FormattingData.issues fd) else [] in
  let blocks :=
    keyword_block ++ skill_block ++ semantic_block ++ experience_block
      ++ formatting_block in
  _generate_suggestions kd sd md ed fd =
    if Py.truthy blocks then blocks else [affirmation].
Proof.
  cbv zeta. unfold _generate_suggestions.
  repeat case_decide;
    destruct (Py.truthy (KeywordData.missing_keywords kd));
    destruct (Py.truthy (SkillData.missing_skills sd));
    cbn [app Py.truthy negb]; try reflexivity;
    destruct (map formatting_suggestion (FormattingData.issues fd));
    reflexivity.
Qed.

Lemma truthy_or_affirmation (blocks : list string) :
  (if Py.truthy blocks then blocks else [affirmation]) ≠ [].
Proof. destruct blocks; discriminate. Qed.

(** C2: the suggestions are the keyword, skill, semantic, experience and
    formatting blocks in this order, each guarded by the strict threshold
    60, 70, 50, 60 and 80 (the keyword and skill blocks also by a non-empty
    list of missing items, the formatting block holding one message for
    each issue); the list is never empty, since the affirmation alone is
    returned when no block has a message, in particular when no threshold
    fires; a keyword score of exactly 60 gives no keyword suggestion. *)
Theorem C2_suggestions (kd : KeywordData.t) (sd : SkillData.t)
    (md : SemanticData.t) (ed : ExperienceData.t) (fd : FormattingData.t) :
  let keyword_block :=
    if decide (KeywordData.score kd < 60) then
      if Py.truthy (KeywordData.missing_keywords kd)
      then [keyword_suggestion (KeywordData.missing_keywords kd)] else []
    else [] in
  let skill_block :=
    if decide (SkillData.score sd < 70) then
      if Py.truthy (SkillData.missing_skills sd)
      then [skill_suggestion (SkillData.missing_skills sd)] else []
    else [] in
  let semantic_block :=
    if decide (SemanticData.score md < 50) then [semantic_suggestion] else [] in
  let experience_block :=
    if decide (ExperienceData.score ed < 60) then [experience_suggestion] else [] in
  let formatting_block :=
    if decide (FormattingData.score fd < 80)
    then map formatting_suggestion (FormattingData.issues fd) else [] in
  let blocks :=
    keyword_block ++ skill_block ++ semantic_block ++ experience_block
      ++ formatting_block in
  let out := _generate_suggestions kd sd md ed fd in
  out = (if Py.truthy blocks then blocks else [affirmation])
  ∧ out ≠ []
  ∧ (60 <= KeywordData.score kd → 70 <= SkillData.score sd →
     50 <= SemanticData.score md → 60 <= ExperienceData.score ed →
     80 <= FormattingData.score fd → out = [affirmation])
  ∧ (KeywordData.score kd = 60 → ∀ missing, keyword_suggestion missing ∉ out).
Proof.
  cbv zeta.
  pose proof (_generate_suggestions_blocks kd sd md ed fd) as Hblocks.
  cbv zeta in Hblocks. rewrite Hblocks.
  split; [reflexivity|]. split; [apply truthy_or_affirmation|]. split.
  - intros Hk Hs Hm He Hf.
    repeat case_decide; try lra. reflexivity.
  - intros Hk missing.
    destruct (decide (KeywordData.score kd < 60)) as [Hlt|_]; [lra|].
    cbn [app].
    destruct (keyword_suggestion_not_fixed missing) as (Hsem & Hexp & Haff).
    pose proof (keyword_suggestion_not_skill missing (SkillData.missing_skills sd)).
    pose proof (keyword_suggestion_not_formatting missing (FormattingData.issues fd)).
    match goal with
    | |- _ ∉ (if Py.truthy ?b then _ else _) =>
        assert (keyword_suggestion missing ∉ b) as Hnot
    end.
    { repeat case_decide; try destruct (Py.truthy (SkillData.missing_skills sd));
        cbn [app]; rewrite ?not_elem_of_cons; rewrite ?elem_of_nil;
        repeat split; auto. }
    match goal with
    | |- _ ∉ (if Py.truthy ?b then _ else _) =>
        destruct (Py.truthy b); [exact Hnot|]
    end.
    rewrite not_elem_of_cons, elem_of_nil. auto.
Qed.

(** The keyword boundary on a concrete request: with score 60 and missing
    keywords only the other blocks speak. *)
Lemma C2_suggestions_witness :
  let kd := {| KeywordData.score := 60;
               KeywordData.matched_keywords := [];
               KeywordData.missing_keywords := ["docker"];
               KeywordData.total_jd_keywords := 1;
               KeywordData.matched_count := 0 |} in
  let sd := {| SkillData.score := 70;
               SkillData.matched_skills := [];
               SkillData.missing_skills := ["aws"];
               SkillData.resume_skills_by_category := [];
               SkillData.jd_skills_by_category := [];
               SkillData.total_jd_skills := 1;
               SkillData.matched_count := 0 |} in
  let md := {| SemanticData.score := 50;
               SemanticData.tfidf_similarity := 50;
               SemanticData.bert_similarity := 50;
               SemanticData.top_matching_terms := [] |} in
  let ed := {| ExperienceData.score := 60;
               ExperienceData.details := None;
               ExperienceData.experience_paragraphs_count := Some 1%Z;
               ExperienceData.relevance_score := Some 0.6 |} in
  let fd := {| FormattingData.score := 80;
               FormattingData.issues := ["Resume appears too short"];
               FormattingData.metadata := empty_metadata |} in
  _generate_suggestions kd sd md ed fd = [affirmation]
  ∧ keyword_suggestion ["docker"] ∉ _generate_suggestions kd sd md ed fd.
Proof.
  cbv zeta.
  match goal with
  | |- _generate_suggestions ?kd ?sd ?md ?ed ?fd = _ ∧ _ =>
      destruct (C2_suggestions kd sd md ed fd) as (_ & _ & Haff & Hkw)
  end.
  split.
  - apply Haff; cbn; lra.
  - apply Hkw. reflexivity.
Defined.
End Suggestions.

(** ** Skills *)

Section Skills.
Local Open Scope R_scope.
Implicit Types (self : NLPProcessor).

Lemma all_skills_fold (by_category : list (string * list string))
    (acc : gset string) (s : string) :
  s ∈ fold_left (fun acc '(category, skills) =>
                   acc ∪ list_to_set (map Py.lower skills)) by_category acc
  ↔ s ∈ acc
    ∨ ∃ category skills skill,
        (category, skills) ∈ by_category ∧ skill ∈ skills ∧ s = Py.lower skill.
Proof.
  revert acc. induction by_category as [|[c sk] l IH]; intros acc; cbn [fold_left].
  - split; [auto|]. intros [H|(c & sk & x & H & _)]; [exact H|].
    by apply elem_of_nil in H.
  - rewrite IH, elem_of_union, elem_of_list_to_set, list_elem_of_fmap. split.
    + intros [[H|(x & -> & Hx)]|(c' & sk' & x & Hin & Hx & ->)].
      * by left.
      * right. exists c, sk, x. split; [left|]. auto.
      * right. exists c', sk', x. split; [by right|]. auto.
    + intros [H|(c' & sk' & x & Hin & Hx & ->)]; [by left; left|].
      apply elem_of_cons in Hin as [[= -> ->]|Hin].
      * left; right. eauto.
      * right. eauto 10.
Qed.

(** The flattened set holds the lower-cased skills of all categories. *)
Lemma elem_of_all_skills (by_category : list (string * list string)) (s : string) :
  s ∈ all_skills by_category
  ↔ ∃ category skills skill,
      (category, skills) ∈ by_category ∧ skill ∈ skills ∧ s = Py.lower skill.
Proof.
  unfold all_skills. rewrite all_skills_fold. split; [|auto].
  intros [H|H]; [|exact H]. by apply not_elem_of_empty in H.
Qed.

Lemma skill_score_eq self (resume_text jd_text : string) :
  SkillData.score (_calculate_skill_score self resume_text jd_text) =
    if decide (0 < size (all_skills (extract_skills self jd_text)))%nat
    then Rmin 100
           (100 * INR (size (all_skills (extract_skills self resume_text)
                             ∩ all_skills (extract_skills self jd_text)))
            / INR (size (all_skills (extract_skills self jd_text))))
    else 50.
Proof.
  unfold _calculate_skill_score; cbn [SkillData.score].
  case_decide; [|reflexivity].
  rewrite Rmin_comm. f_equal. unfold Rdiv. ring.
Qed.

(** C3: the skill score is min(100, 100 |matched| / |jdAllSkills|) over the
    flattened, lower-cased skill sets of the two texts when the job
    description has a detected skill, and exactly 50 when it has none,
    whatever the resume. *)
Theorem C3_skill_score self (resume_text jd_text : string) :
  let resume_all := all_skills (extract_skills self resume_text) in
  let jd_all := all_skills (extract_skills self jd_text) in
  let matched := resume_all ∩ jd_all in
  let score := SkillData.score (_calculate_skill_score self resume_text jd_text) in
  (∀ text s,
      s ∈ all_skills (extract_skills self text)
      ↔ ∃ category skills skill,
          (category, skills) ∈ extract_skills self text
          ∧ skill ∈ skills ∧ s = Py.lower skill)
  ∧ (size jd_all ≠ 0%nat →
     score = Rmin 100 (100 * INR (size matched) / INR (size jd_all)))
  ∧ (size jd_all = 0%nat → score = 50).
Proof.
  cbv zeta. split; [intros; apply elem_of_all_skills|].
  rewrite skill_score_eq. split; intros Hsize; case_decide; try lia; reflexivity.
Qed.

Lemma no_skill_in_empty_jd :
  size (all_skills (extract_skills toy_processor "")) = 0%nat.
Proof. vm_compute. reflexivity. Qed.

Lemma skills_of_unrelated_jd :
  size (all_skills (extract_skills toy_processor unrelated_jd)) = 7%nat
  ∧ size (all_skills (extract_skills toy_processor (text unrelated_resume))
          ∩ all_skills (extract_skills toy_processor unrelated_jd)) = 0%nat.
Proof. split; vm_compute; reflexivity. Qed.

(** Both cases on concrete texts: a job description without any skill
    gives 50, one with seven skills of which none is matched gives
    min(100, 100 * 0 / 7). *)
Lemma C3_skill_score_witness :
  SkillData.score (_calculate_skill_score toy_processor "python developer" "") = 50
  ∧ SkillData.score
      (_calculate_skill_score toy_processor (text unrelated_resume) unrelated_jd)
    = Rmin 100 (100 * INR 0 / INR 7).
Proof.
  split.
  - apply (C3_skill_score toy_processor "python developer" "").
    exact no_skill_in_empty_jd.
  - destruct (C3_skill_score toy_processor (text unrelated_resume) unrelated_jd)
      as (_ & Hpos & _).
    destruct skills_of_unrelated_jd as [Hjd Hmatched].
    rewrite Hpos by (rewrite Hjd; discriminate).
    rewrite Hjd, Hmatched. reflexivity.
Defined.



End Skills.

(** ** Experience relevance *)

Section Experience.
Local Open Scope R_scope.
Implicit Types (self : NLPProcessor).




End Experience.

(** ** Degenerate texts *)

Section Degenerate.
Local Open Scope R_scope.
Implicit Types (self : NLPProcessor).

Lemma toy_stopword_text :
  preprocess_text toy_processor stopword_jd = ""
  ∧ keyword_terms toy_processor stopword_jd = []
  ∧ lexical_terms toy_processor stopword_jd = []
  ∧ (Py.len (Py.strip stopword_jd) >= 50)%Z.
Proof. repeat split; vm_compute; first [reflexivity|discriminate]. Qed.

Lemma toy_empty_text :
  preprocess_text toy_processor "" = ""
  ∧ keyword_terms toy_processor "" = []
  ∧ lexical_terms toy_processor "" = []
  ∧ long_sentences toy_processor "" = [].
Proof. repeat split; vm_compute; reflexivity. Qed.

(** C6, as stated, fails: for an empty resume text and a job description
    made of stop words neither text has a term, the vectorizer has no
    vocabulary, and the lexical similarity raises instead of returning 0. *)
Lemma C6_counterexample :
  lexical_terms toy_processor "" = []
  ∧ lexical_terms toy_processor stopword_jd = []
  ∧ calculate_tfidf_similarity toy_processor "" stopword_jd =
      Err (ValueError "empty vocabulary; perhaps the documents only contain stop words")
  ∧ ¬ ∃ r, calculate_tfidf_similarity toy_processor "" stopword_jd = Ok r
           ∧ similarity_score r = 0 ∧ matching_terms r = [].
Proof.
  destruct toy_empty_text as (_ & _ & Hterms & _).
  destruct toy_stopword_text as (_ & _ & Hsterms & _).
  split; [exact Hterms|]. split; [exact Hsterms|].
  rewrite (tfidf_both_empty toy_processor "" stopword_jd Hterms Hsterms).
  split; [reflexivity|]. intros (r & Hr & _). discriminate.
Qed.

(** C6, amended: if exactly one of the two texts has no extractable term
    after preprocessing, the lexical similarity returns similarity 0 and no
    matching term; if neither has one, it raises the vectorizer's
    empty-vocabulary error. *)
Theorem C6_lexical_degenerate self (resume_text jd_text : string) :
  (lexical_terms self resume_text = [] → lexical_terms self jd_text ≠ [] →
   ∃ r, calculate_tfidf_similarity self resume_text jd_text = Ok r
        ∧ similarity_score r = 0 ∧ matching_terms r = [])
  ∧ (lexical_terms self resume_text ≠ [] → lexical_terms self jd_text = [] →
     ∃ r, calculate_tfidf_similarity self resume_text jd_text = Ok r
          ∧ similarity_score r = 0 ∧ matching_terms r = [])
  ∧ (lexical_terms self resume_text = [] → lexical_terms self jd_text = [] →
     calculate_tfidf_similarity self resume_text jd_text =
       Err (ValueError
              "empty vocabulary; perhaps the documents only contain stop words")).
Proof.
  split; [apply tfidf_resume_empty|].
  split; [apply tfidf_jd_empty|apply tfidf_both_empty].
Qed.

Lemma C6_lexical_degenerate_witness :
  ∃ r, calculate_tfidf_similarity toy_processor "" unrelated_jd = Ok r
       ∧ similarity_score r = 0 ∧ matching_terms r = [].
Proof.
  destruct (C6_lexical_degenerate toy_processor "" unrelated_jd) as (Hone & _ & _).
  apply Hone.
  - vm_compute. reflexivity.
  - vm_compute. discriminate.
Defined.

(** C7, as stated, fails: for an empty resume text no sentence qualifies,
    the mean of the empty embedding array is taken, and the request fails
    with the similarity function's complaint about the shape of its input,
    which is not a report of insufficient content. *)
Lemma C7_counterexample :
  long_sentences toy_processor "" = []
  ∧ Np.mean_axis0 (encode toy_processor (long_sentences toy_processor "")) = None
  ∧ calculate_bert_similarity toy_processor "" unrelated_jd =
      Err (ValueError "Expected 2D array, got 1D array instead")
  ∧ ¬ reports_insufficient_content
        (calculate_bert_similarity toy_processor "" unrelated_jd).
Proof.
  destruct toy_empty_text as (_ & _ & _ & Hsents).
  split; [exact Hsents|]. split; [rewrite Hsents; reflexivity|].
  rewrite (bert_undefined_mean toy_processor "" unrelated_jd) by (left; exact Hsents).
  split; [reflexivity|]. cbn. discriminate.
Qed.

(** C7, amended: if one of the two texts has no sentence whose trimmed
    length exceeds 10 characters, the semantic similarity returns no result:
    the undefined mean embedding is rejected by the input validation of the
    similarity function with a [ValueError].  With a qualifying sentence on
    both sides a result is returned. *)
Theorem C7_semantic_degenerate self (resume_text jd_text : string) :
  (long_sentences self resume_text = [] ∨ long_sentences self jd_text = [] →
   calculate_bert_similarity self resume_text jd_text =
     Err (ValueError "Expected 2D array, got 1D array instead"))
  ∧ (long_sentences self resume_text ≠ [] → long_sentences self jd_text ≠ [] →
     ∃ r, calculate_bert_similarity self resume_text jd_text = Ok r).
Proof. split; [apply bert_undefined_mean|apply bert_Ok]. Qed.

Lemma C7_semantic_degenerate_witness :
  calculate_bert_similarity toy_processor "short" unrelated_jd =
    Err (ValueError "Expected 2D array, got 1D array instead")
  ∧ ∃ r, calculate_bert_similarity toy_processor "cooking baking knitting"
           unrelated_jd = Ok r.
Proof.
  split.
  - apply (C7_semantic_degenerate toy_processor "short" unrelated_jd).
    left. vm_compute. reflexivity.
  - apply (C7_semantic_degenerate toy_processor "cooking baking knitting"
             unrelated_jd); vm_compute; discriminate.
Defined.
End Degenerate.

(** ** Symmetry of the lexical similarity *)

Section Symmetry.
Local Open Scope R_scope.
Implicit Types (self : NLPProcessor).

(** C9: the lexical similarity score does not depend on the order of the
    two texts: either both calls raise the same error or both return, with
    the same similarity score. *)
Theorem C9_lexical_symmetry self (a b : string) :
  similarity_score <$> calculate_tfidf_similarity self a b
  = similarity_score <$> calculate_tfidf_similarity self b a.
Proof.
  destruct (fit_transform_swap 1000 2 (preprocess_text self a) (preprocess_text self b))
    as [(e & Hab & Hba)|(vocab & ra & rb & Hab & Hba)].
  - by rewrite (tfidf_of_fit_err _ _ _ _ Hab), (tfidf_of_fit_err _ _ _ _ Hba).
  - rewrite (tfidf_of_fit _ _ _ _ _ _ Hab), (tfidf_of_fit _ _ _ _ _ _ Hba).
    cbn. f_equal. apply cosine_comm.
Qed.
End Symmetry.

(** ** The total score of a request *)

Section TotalScore.
Local Open Scope R_scope.
Implicit Types (self : NLPProcessor).

Lemma unrelated_request_Ok :
  ∃ r, calculate_ats_score toy_processor unrelated_resume unrelated_jd = Ok r.
Proof.
  apply calculate_ats_score_Ok.
  - vm_compute. discriminate.
  - vm_compute. discriminate.
  - vm_compute. discriminate.
  - vm_compute. discriminate.
  - intros sc ps [= <-] [= <-] _. vm_compute. discriminate.
Qed.

Lemma total_score_eq self (resume_data : ResumeData) (jd_text : string)
    (r : AnalysisResult) :
  calculate_ats_score self resume_data jd_text = Ok r →
  total_score r =
    Np.round1
      (0.30 * KeywordData.score (bd_keyword_match (breakdown r))
       + 0.25 * SkillData.score (bd_skill_match (breakdown r))
       + 0.20 * SemanticData.score (bd_semantic_similarity (breakdown r))
       + 0.15 * ExperienceData.score (bd_experience_relevance (breakdown r))
       + 0.10 * FormattingData.score (bd_formatting_quality (breakdown r))).
Proof.
  intros (kd & sd & ed & _ & _ & _ & -> & -> & _)%calculate_ats_score_inv.
  cbn [bd_keyword_match bd_skill_match bd_semantic_similarity
       bd_experience_relevance bd_formatting_quality].
  by rewrite weighted_total_unfold.
Qed.

(** The ranges of the five sub-scores of a returned result. *)
Lemma breakdown_bounds self (resume_data : ResumeData) (jd_text : string)
    (r : AnalysisResult) :
  calculate_ats_score self resume_data jd_text = Ok r →
  0 <= KeywordData.score (bd_keyword_match (breakdown r)) <= 100
  ∧ 0 <= SkillData.score (bd_skill_match (breakdown r)) <= 100
  ∧ -60 <= SemanticData.score (bd_semantic_similarity (breakdown r)) <= 100
  ∧ (0 <= SemanticData.bert_similarity (bd_semantic_similarity (breakdown r)) →
     0 <= SemanticData.score (bd_semantic_similarity (breakdown r)))
  ∧ -100 <= ExperienceData.score (bd_experience_relevance (breakdown r)) <= 100
  ∧ 0 <= FormattingData.score (bd_formatting_quality (breakdown r)) <= 100.
Proof.
  intros (kd & sd & ed & Hk & Hs & He & -> & _ & _)%calculate_ats_score_inv.
  cbn [bd_keyword_match bd_skill_match bd_semantic_similarity
       bd_experience_relevance bd_formatting_quality].
  split; [by eapply keyword_score_bounds|].
  split; [apply skill_score_bounds|].
  pose proof (semantic_score_bounds _ _ _ _ Hs) as (Hsd & Htf & Hbs).
  split; [exact Hsd|]. split.
  - intros Hpos.
    apply _calculate_semantic_score_inv in Hs as (_ & _ & _ & _ & _ & _ & ->).
    lra.
  - split; [by eapply experience_score_bounds|apply formatting_score_bounds].
Qed.
End TotalScore.

(** ** The composite score *)

Section Composite.
Local Open Scope R_scope.
Implicit Types (self : NLPProcessor).

(** X18: the total score of a returned result is the weighted sum of its
    five sub-scores with weights 0.30 (keyword), 0.25 (skill), 0.20
    (semantic), 0.15 (experience) and 0.10 (formatting), rounded to one
    decimal.  It is at most 100, and it is at least 0 whenever the embedding
    similarity of the two texts and the experience score are not negative:
    these two are the only sub-scores that the code does not clamp. *)
Theorem X18_total_score self (resume_data : ResumeData) (jd_text : string)
    (r : AnalysisResult) :
  calculate_ats_score self resume_data jd_text = Ok r →
  let b := breakdown r in
  let weighted_sum :=
    0.30 * KeywordData.score (bd_keyword_match b)
    + 0.25 * SkillData.score (bd_skill_match b)
    + 0.20 * SemanticData.score (bd_semantic_similarity b)
    + 0.15 * ExperienceData.score (bd_experience_relevance b)
    + 0.10 * FormattingData.score (bd_formatting_quality b) in
  total_score r = Np.round1 weighted_sum
  ∧ total_score r <= 100
  ∧ 0 <= KeywordData.score (bd_keyword_match b)
  ∧ 0 <= SkillData.score (bd_skill_match b)
  ∧ 0 <= FormattingData.score (bd_formatting_quality b)
  ∧ (0 <= SemanticData.bert_similarity (bd_semantic_similarity b) →
     0 <= ExperienceData.score (bd_experience_relevance b) →
     0 <= total_score r).
Proof.
  intros Hr. cbv zeta.
  pose proof (total_score_eq _ _ _ _ Hr) as Htotal.
  pose proof (breakdown_bounds _ _ _ _ Hr) as (Hk & Hs & Hm & Hm0 & He & Hf).
  rewrite Htotal.
  split; [reflexivity|]. split; [|split; [lra|split; [lra|split; [lra|]]]].
  - replace 100 with (IZR 1000 / 10) by lra.
    apply round1_le_tenths. lra.
  - intros Hbert Hexp. specialize (Hm0 Hbert).
    replace 0 with (IZR 0 / 10) by lra.
    apply round1_ge_tenths. lra.
Qed.

Lemma X18_total_score_witness :
  ∃ r, calculate_ats_score toy_processor unrelated_resume unrelated_jd = Ok r
       ∧ total_score r <= 100.
Proof.
  destruct unrelated_request_Ok as [r Hr]. exists r. split; [exact Hr|].
  apply (X18_total_score toy_processor unrelated_resume unrelated_jd r Hr).
Defined.
End Composite.

(** ** The skill scenario of the specification *)

Section Scenario.

(** The missing skills are aws, docker and kubernetes; python and django are
    matched, and so are the substrings "go" and "r". *)
Example scenario_missing_skills :
  SkillData.missing_skills
    (_calculate_skill_score toy_processor scenario_resume_text scenario_jd)
  = ["kubernetes"; "aws"; "docker"]
  ∧ SkillData.matched_skills
      (_calculate_skill_score toy_processor scenario_resume_text scenario_jd)
    = ["go"; "r"; "django"; "python"].
Proof.
  unfold _calculate_skill_score.
  cbn [SkillData.missing_skills SkillData.matched_skills].
  split; vm_compute; reflexivity.
Qed.

Example analyze_punctuated :
  Sklearn.analyze 2 "node.js and c++ developer"
  = ["node"; "js"; "and"; "developer"; "node js"; "js and"; "and developer"].
Proof. vm_compute. reflexivity. Qed.

End Scenario.

(** * Further properties of the processor and the calculator *)

(** ** Substrings *)

Section Substrings.

Lemma append_cons (c : ascii) (s t : string) :
  String c s +:+ t = String c (s +:+ t).
Proof. reflexivity. Qed.

Lemma append_nil_l (t : string) : "" +:+ t = t.
Proof. reflexivity. Qed.

Lemma append_assoc (s t u : string) : (s +:+ t) +:+ u = s +:+ (t +:+ u).
Proof.
  induction s as [|c s IH]; [reflexivity|].
  rewrite !append_cons, IH. reflexivity.
Qed.

Lemma prefix_spec (needle hay : string) :
  String.prefix needle hay = true ↔ ∃ post, hay = needle +:+ post.
Proof.
  revert hay. induction needle as [|c needle IH]; intros hay.
  - split; [intros _; exists hay; reflexivity|]. intros _. by destruct hay.
  - destruct hay as [|d hay]; cbn [String.prefix].
    + split; [discriminate|]. intros [post Hpost]. discriminate.
    + destruct (ascii_dec c d) as [->|Hne].
      * rewrite IH. split; intros [post Hpost]; exists post.
        -- rewrite append_cons. by f_equal.
        -- rewrite append_cons in Hpost. by injection Hpost.
      * split; [discriminate|]. intros [post Hpost].
        rewrite append_cons in Hpost. injection Hpost as Hcd _. congruence.
Qed.

(** [needle in hay] holds exactly when [hay] is [needle] between two
    strings. *)
Lemma contains_spec (needle hay : string) :
  Py.contains needle hay = true ↔ ∃ pre post, hay = pre +:+ needle +:+ post.
Proof.
  induction hay as [|d hay IH].
  - cbn [Py.contains]. destruct (String.prefix needle "") eqn:Hp.
    + split; [intros _|reflexivity].
      apply prefix_spec in Hp as [post Hpost]. exists "", post. exact Hpost.
    + split; [discriminate|]. intros (pre & post & Heq).
      destruct pre as [|c pre]; [|discriminate].
      rewrite append_nil_l in Heq.
      assert (String.prefix needle "" = true) by (apply prefix_spec; eauto).
      congruence.
  - cbn [Py.contains]. destruct (String.prefix needle (String d hay)) eqn:Hp.
    + split; [intros _|reflexivity].
      apply prefix_spec in Hp as [post Hpost]. exists "", post. exact Hpost.
    + rewrite IH. split.
      * intros (pre & post & ->). exists (String d pre), post. reflexivity.
      * intros (pre & post & Heq). destruct pre as [|c pre].
        -- rewrite append_nil_l in Heq.
           assert (String.prefix needle (String d hay) = true)
             by (apply prefix_spec; eauto).
           congruence.
        -- rewrite append_cons in Heq. injection Heq as _ ->. eauto.
Qed.

Lemma contains_trans (a b c : string) :
  Py.contains a b = true → Py.contains b c = true → Py.contains a c = true.
Proof.
  rewrite !contains_spec. intros (p1 & q1 & ->) (p2 & q2 & ->).
  exists (p2 +:+ p1), (q1 +:+ q2). by rewrite !append_assoc.
Qed.

Lemma lower_ascii_idemp (c : ascii) :
  Py.lower_ascii (Py.lower_ascii c) = Py.lower_ascii c.
Proof. destruct c as [[] [] [] [] [] [] [] []]; reflexivity. Qed.

Lemma lower_idemp (s : string) : Py.lower (Py.lower s) = Py.lower s.
Proof.
  induction s as [|c s IH]; [reflexivity|].
  cbn [Py.lower]. by rewrite lower_ascii_idemp, IH.
Qed.

End Substrings.

(** ** Catalogue skills *)

Section Catalogue.
Implicit Types (self : NLPProcessor).

Lemma extract_skills_shape self (text : string) :
  ∃ other,
    extract_skills self text =
      map (fun '(category, skills) =>
             (category,
              filter (fun skill => Py.contains skill (Py.lower text) = true) skills))
          skill_patterns
      ++ [("other", other)].
Proof. unfold extract_skills. eauto. Qed.

Lemma extract_skills_catalogue self (text category : string) (skills : list string) :
  (category, skills) ∈ skill_patterns →
  (category, filter (fun skill => Py.contains skill (Py.lower text) = true) skills)
    ∈ extract_skills self text.
Proof.
  intros Hin. destruct (extract_skills_shape self text) as [other ->].
  apply elem_of_app. left. apply list_elem_of_fmap.
  exists (category, skills). split; [reflexivity|exact Hin].
Qed.

(** X1: the dictionary returned by [extract_skills] has the five catalogue
    categories and then "other" as its keys, in this order.  The entry of a
    catalogue category lists, in catalogue order, exactly the skills of that
    category that occur as substrings of the lower-cased text; these five
    entries depend neither on the letter case of the text nor on the NLP
    pipeline. *)
Theorem X1_catalogue_detection self (text : string) :
  map fst (extract_skills self text) =
    ["programming_languages"; "web_technologies"; "databases";
     "cloud_platforms"; "tools"; "other"]
  ∧ (∀ category skills, (category, skills) ∈ skill_patterns →
       ∃ found,
         (category, found) ∈ extract_skills self text
         ∧ sublist found skills
         ∧ ∀ skill, skill ∈ found
                    ↔ skill ∈ skills ∧ Py.contains skill (Py.lower text) = true)
  ∧ (∀ self', take 5 (extract_skills self' (Py.lower text))
              = take 5 (extract_skills self text)).
Proof.
  split; [|split].
  - destruct (extract_skills_shape self text) as [other ->]. reflexivity.
  - intros category skills Hin. eexists. split; [by apply extract_skills_catalogue|].
    split; [apply sublist_filter|].
    intros skill. rewrite list_elem_of_filter. tauto.
  - intros self'.
    destruct (extract_skills_shape self text) as [other ->].
    destruct (extract_skills_shape self' (Py.lower text)) as [other' ->].
    rewrite lower_idemp. reflexivity.
Qed.

Lemma other_not_in_catalogue (skills : list string) :
  ("other", skills) ∉ skill_patterns.
Proof.
  intros Hin%list_elem_of_In. cbn in Hin.
  repeat (destruct Hin as [Hin|Hin]; [discriminate|]). exact Hin.
Qed.

(** A skill listed under a catalogue category occurs in the text. *)
Lemma detected_contains self (text category : string) (skills found : list string)
    (skill : string) :
  (category, skills) ∈ skill_patterns →
  (category, found) ∈ extract_skills self text → skill ∈ found →
  Py.contains skill (Py.lower text) = true.
Proof.
  intros Hcat Hin Hskill.
  destruct (extract_skills_shape self text) as [other Hshape].
  rewrite Hshape in Hin. apply elem_of_app in Hin as [Hin|Hin].
  - apply list_elem_of_fmap in Hin as ([c sk] & [= -> ->] & _).
    by apply list_elem_of_filter in Hskill as [Hc _].
  - apply list_elem_of_singleton in Hin as [= -> _].
    by apply other_not_in_catalogue in Hcat.
Qed.

(** X2: detection is closed under substrings of skills.  When a catalogue
    skill is a substring of another catalogue skill, every text in which the
    longer one is detected is also credited with the shorter one: "java" with
    "javascript", "go" with "django", "r" with "docker". *)
Theorem X2_substring_closure self (text : string)
    (category category' : string) (skills skills' : list string)
    (skill skill' : string) :
  (category, skills) ∈ skill_patterns → skill ∈ skills →
  (category', skills') ∈ skill_patterns →
  Py.contains skill skill' = true →
  (∃ found', (category', found') ∈ extract_skills self text ∧ skill' ∈ found') →
  ∃ found, (category, found) ∈ extract_skills self text ∧ skill ∈ found.
Proof.
  intros Hcat Hskill Hcat' Hsub (found' & Hin' & Hskill').
  eexists. split; [by apply extract_skills_catalogue|].
  apply list_elem_of_filter. split; [|exact Hskill].
  eapply contains_trans; [exact Hsub|].
  by eapply detected_contains.
Qed.

Lemma X2_substring_closure_witness :
  ∃ found,
    ("programming_languages", found)
      ∈ extract_skills toy_processor "Built a Django and JavaScript shop"
    ∧ "go" ∈ found.
Proof.
  apply (X2_substring_closure toy_processor "Built a Django and JavaScript shop"
           "programming_languages" "web_technologies"
           ["python"; "java"; "javascript"; "c++"; "c#"; "ruby"; "php"; "swift";
            "kotlin"; "typescript"; "go"; "rust"; "scala"; "r"; "matlab"; "perl";
            "vb.net"]
           ["html"; "css"; "react"; "angular"; "vue"; "node.js"; "express";
            "django"; "flask"; "spring"; "asp.net"; "laravel"; "ruby on rails";
            "jquery"]
           "go" "django").
  - apply list_elem_of_In. cbn. tauto.
  - apply list_elem_of_In. cbn. tauto.
  - apply list_elem_of_In. cbn. tauto.
  - reflexivity.
  - eexists. split.
    + apply (extract_skills_catalogue toy_processor _ "web_technologies").
      apply list_elem_of_In. cbn. tauto.
    + apply list_elem_of_filter. split; [reflexivity|].
      apply list_elem_of_In. cbn. tauto.
Defined.

End Catalogue.

(** ** Sorted results *)

Section SortedDesc.
Local Open Scope R_scope.
Context {A : Type}.

(** [sort_desc] on real keys returns the keys in non-increasing order. *)
Lemma insert_desc_sorted (key : A → R) (x : A) (l : list A) :
  StronglySorted (fun a b => key b <= key a) l →
  StronglySorted (fun a b => key b <= key a)
    (insert_desc (fun a b => bool_decide (key a < key b)) x l).
Proof.
  induction 1 as [|y l Hl IH Hy]; cbn [insert_desc].
  - constructor; [constructor|constructor].
  - case_bool_decide as Hlt.
    + constructor; [exact IH|].
      rewrite insert_desc_perm. constructor; [lra|exact Hy].
    + constructor; [by constructor|].
      constructor; [lra|].
      eapply Forall_impl; [exact Hy|]. intros z Hz. cbn in Hz. lra.
Qed.

Lemma sort_desc_sorted (key : A → R) (l : list A) :
  StronglySorted (fun a b => key b <= key a)
    (sort_desc (fun a b => bool_decide (key a < key b)) l).
Proof.
  unfold sort_desc. induction l as [|x l IH]; cbn [foldr]; [constructor|].
  by apply insert_desc_sorted.
Qed.

Lemma take_sorted (R : A → A → Prop) (n : nat) (l : list A) :
  StronglySorted R l → StronglySorted R (take n l).
Proof.
  intros Hl. rewrite <- (take_drop n l) in Hl.
  by apply StronglySorted_app_1_l in Hl.
Qed.

End SortedDesc.

(** ** Weight rows *)

Section Rows.
Local Open Scope R_scope.

Lemma zip_map_self {A B : Type} (f : A → B) (l : list A) :
  zip l (map f l) = map (fun a => (a, f a)) l.
Proof. induction l as [|a l IH]; cbn; [reflexivity|]. by rewrite IH. Qed.

Lemma zip_map_self2 {A B C : Type} (f : A → B) (g : A → C) (l : list A) :
  zip l (zip (map f l) (map g l)) = map (fun a => (a, (f a, g a))) l.
Proof. induction l as [|a l IH]; cbn; [reflexivity|]. by rewrite IH. Qed.

Lemma elem_sq_le_sum_sq (x : R) (v : list R) : x ∈ v → x * x <= Np.sum_sq v.
Proof.
  induction v as [|a v IH]; intros Hin; [by apply elem_of_nil in Hin|].
  rewrite sum_sq_cons. pose proof (sum_sq_nonneg v).
  apply elem_of_cons in Hin as [->|Hin]; [nra|].
  specialize (IH Hin). nra.
Qed.

(** A weight row is the list of the raw weights divided by one positive
    number. *)
Lemma tfidf_row_map (docs : list (list string)) (vocab d : list string) :
  ∃ n, 0 < n
       ∧ Sklearn.tfidf_row docs vocab d =
           map (fun t => INR (Sklearn.count t d)
                         * Sklearn.idf (length docs) (Sklearn.doc_freq t docs) / n)
               vocab.
Proof.
  unfold Sklearn.tfidf_row, Sklearn.normalize.
  set (raw := map _ vocab).
  pose proof (l2_norm_nonneg raw) as Hn.
  exists (if decide (Sklearn.l2_norm raw = 0) then 1 else Sklearn.l2_norm raw).
  split; [case_decide; lra|].
  unfold raw. rewrite map_map. reflexivity.
Qed.

Lemma tfidf_row_le_1 (docs : list (list string)) (vocab d : list string) (x : R) :
  x ∈ Sklearn.tfidf_row docs vocab d → x <= 1.
Proof.
  intros Hx%elem_sq_le_sum_sq.
  pose proof (sum_sq_normalize
                (map (fun t => INR (Sklearn.count t d)
                               * Sklearn.idf (length docs) (Sklearn.doc_freq t docs))
                     vocab)) as Hle.
  fold (Sklearn.tfidf_row docs vocab d) in Hle. nra.
Qed.

Lemma count_pos (t : string) (d : list string) :
  (0 < Sklearn.count t d)%nat ↔ t ∈ d.
Proof.
  unfold Sklearn.count. induction d as [|u d IH].
  - cbn. split; [lia|]. intros H. by apply elem_of_nil in H.
  - rewrite filter_cons, elem_of_cons. case_decide as Hu; cbn [length].
    + subst. split; [auto|lia].
    + rewrite IH. split; [auto|]. intros [->|H]; [done|exact H].
Qed.

(** The weight of a term in a row is positive exactly when the term occurs
    in the document. *)
Lemma raw_weight_pos (docs : list (list string)) (t : string) (d : list string)
    (n : R) :
  0 < n →
  (0 < INR (Sklearn.count t d)
       * Sklearn.idf (length docs) (Sklearn.doc_freq t docs) / n) ↔ t ∈ d.
Proof.
  intros Hn. rewrite <- count_pos.
  pose proof (idf_pos _ _ (doc_freq_le t docs)) as Hidf.
  pose proof (Rinv_0_lt_compat n Hn) as Hinv.
  split.
  - intros Hpos. destruct (Sklearn.count t d) as [|k]; [|lia].
    cbn [INR] in Hpos. unfold Rdiv in Hpos. rewrite !Rmult_0_l in Hpos. lra.
  - intros Hc%lt_INR. cbn [INR] in Hc.
    unfold Rdiv. apply Rmult_lt_0_compat; [|exact Hinv].
    apply Rmult_lt_0_compat; lra.
Qed.

Lemma vocab_NoDup (m n : nat) (raw : list string) (vocab : list string)
    (rows : list (list R)) :
  Sklearn.fit_transform m n raw = Ok (vocab, rows) → NoDup vocab.
Proof.
  unfold Sklearn.fit_transform. repeat case_decide; try discriminate.
  intros [= <- _]. unfold Sklearn.limit_features.
  assert (NoDup (merge_sort String.le
                   (elements (list_to_set (concat (map (Sklearn.analyze n) raw))
                              : gset string)))) as Hnd.
  { rewrite merge_sort_Permutation. apply NoDup_elements. }
  case_decide; [by apply NoDup_filter|exact Hnd].
Qed.

End Rows.

(** ** Letter case and keyword lists *)

Section KeywordLists.
Local Open Scope R_scope.
Implicit Types (self : NLPProcessor).

Lemma preprocess_text_lower self (text : string) :
  preprocess_text self (Py.lower text) = preprocess_text self text.
Proof. unfold preprocess_text. by rewrite lower_idemp. Qed.

(** X3: the lexical functions ignore letter case.  Lower-casing the input
    texts changes neither the preprocessed text, nor the extracted keywords,
    nor the lexical similarity result, nor the keyword score. *)
Theorem X3_lexical_case_insensitive self (a b : string) (top_k : nat) :
  preprocess_text self (Py.lower a) = preprocess_text self a
  ∧ extract_keywords self (Py.lower a) top_k = extract_keywords self a top_k
  ∧ calculate_tfidf_similarity self (Py.lower a) (Py.lower b)
    = calculate_tfidf_similarity self a b
  ∧ _calculate_keyword_score self (Py.lower a) (Py.lower b)
    = _calculate_keyword_score self a b.
Proof.
  assert (Hk : ∀ t k, extract_keywords self (Py.lower t) k = extract_keywords self t k).
  { intros t k. unfold extract_keywords. by rewrite preprocess_text_lower. }
  split; [apply preprocess_text_lower|]. split; [apply Hk|]. split.
  - unfold calculate_tfidf_similarity. by rewrite !preprocess_text_lower.
  - unfold _calculate_keyword_score. by rewrite !Hk.
Qed.

Lemma keywords_sublist (names : list string) (scores : list R) :
  sublist
    (map keyword
       (omap (fun '(name, score) =>
                if decide (score > 0)
                then Some {| keyword := name; kw_score := score |}
                else None)
             (zip names scores)))
    names.
Proof.
  revert scores. induction names as [|nm names IH]; intros scores.
  - constructor.
  - destruct scores as [|sc scores]; [apply sublist_nil_l|].
    cbn. destruct (decide (sc > 0)).
    + cbn. constructor. apply IH.
    + apply sublist_cons. apply IH.
Qed.

Lemma first_row_of_one {A : Type} (f : A → list R) (d : A) :
  default [] (map f [d] !! 0%nat) = f d.
Proof. reflexivity. Qed.

(** What a successful keyword extraction is made of. *)
Lemma extract_keywords_inv self (text : string) (top_k : nat) (kws : list Keyword) :
  extract_keywords self text top_k = Ok kws →
  ∃ vocab n,
    (0 < top_k)%nat ∧ vocab ≠ [] ∧ NoDup vocab
    ∧ vocab ⊆ keyword_terms self text ∧ 0 < n
    ∧ Sklearn.tfidf_row [keyword_terms self text] vocab (keyword_terms self text)
      = map (fun t =>
               INR (Sklearn.count t (keyword_terms self text))
               * Sklearn.idf 1 (Sklearn.doc_freq t [keyword_terms self text]) / n)
            vocab
    ∧ kws =
        take top_k
          (sort_desc (fun x y => bool_decide (kw_score x < kw_score y))
             (omap (fun '(name, score) =>
                      if decide (score > 0)
                      then Some {| keyword := name; kw_score := score |}
                      else None)
                   (zip vocab
                      (map (fun t =>
                              INR (Sklearn.count t (keyword_terms self text))
                              * Sklearn.idf 1
                                  (Sklearn.doc_freq t [keyword_terms self text]) / n)
                           vocab)))).
Proof.
  unfold extract_keywords, keyword_terms.
  destruct (Sklearn.fit_transform _ _ _) as [[vocab rows]|e] eqn:Hfit;
    [|discriminate].
  cbn. intros [= <-].
  pose proof (vocab_NoDup _ _ _ _ _ Hfit) as Hnd.
  assert (0 < top_k)%nat as Hk.
  { destruct top_k; [|lia]. unfold Sklearn.fit_transform in Hfit.
    cbn in Hfit. discriminate. }
  apply fit_transform_Ok_inv in Hfit as (Hne & Hsub & ->).
  change (map (Sklearn.analyze 3) [preprocess_text self text])
    with [Sklearn.analyze 3 (preprocess_text self text)] in *.
  rewrite first_row_of_one.
  change (concat [Sklearn.analyze 3 (preprocess_text self text)])
    with (Sklearn.analyze 3 (preprocess_text self text) ++ []) in Hsub.
  rewrite app_nil_r in Hsub.
  destruct (tfidf_row_map [Sklearn.analyze 3 (preprocess_text self text)] vocab
              (Sklearn.analyze 3 (preprocess_text self text))) as (n & Hn & Hrow).
  exists vocab, n. rewrite Hrow.
  change (length [Sklearn.analyze 3 (preprocess_text self text)]) with 1%nat.
  auto 10.
Qed.

(** X4: a list returned by [extract_keywords] has between 1 and [top_k]
    entries, no keyword twice, scores in (0, 1] in non-increasing order, and
    each keyword is an n-gram (of one to three tokens) of the preprocessed
    text. *)
Theorem X4_extract_keywords_shape self (text : string) (top_k : nat)
    (kws : list Keyword) :
  extract_keywords self text top_k = Ok kws →
  (1 <= length kws <= top_k)%nat
  ∧ NoDup (map keyword kws)
  ∧ StronglySorted (fun a b => kw_score b <= kw_score a) kws
  ∧ ∀ kw, kw ∈ kws →
      0 < kw_score kw <= 1
      ∧ keyword kw ∈ Sklearn.analyze 3 (preprocess_text self text).
Proof.
  intros Hk.
  pose proof (extract_keywords_terms _ _ _ _ Hk) as Hterms.
  apply extract_keywords_inv in Hk
    as (vocab & n & Hpos & Hne & Hnd & Hsub & Hn & Hrow & ->).
  set (scores := map _ vocab).
  set (found := omap _ (zip vocab scores)).
  set (sorted := sort_desc _ found).
  assert (Hperm : sorted ≡ₚ found) by apply sort_desc_perm.
  assert (Hfound : ∀ kw, kw ∈ found →
            keyword kw ∈ vocab ∧ 0 < kw_score kw ∧ kw_score kw ∈ scores).
  { intros kw ([nm sc] & Hin & Hsome)%list_elem_of_omap.
    case_decide as Hsc; [|discriminate]. injection Hsome as <-. cbn.
    split; [by apply elem_of_zip_l in Hin|].
    split; [lra|by apply elem_of_zip_r in Hin]. }
  split; [split|].
  - destruct vocab as [|t vocab'] eqn:Hv; [done|].
    assert (t ∈ keyword_terms self text) as Ht by (apply Hsub; left).
    assert ({| keyword := t;
               kw_score := INR (Sklearn.count t (keyword_terms self text))
                           * Sklearn.idf 1 (Sklearn.doc_freq t [keyword_terms self text])
                           / n |} ∈ found) as Hin.
    { apply list_elem_of_omap. eexists (t, _). split; [left|].
      cbn. rewrite decide_True; [reflexivity|].
      apply Rlt_gt. by apply (raw_weight_pos [keyword_terms self text]). }
    rewrite <- Hperm in Hin.
    destruct sorted as [|kw sorted']; [by apply elem_of_nil in Hin|].
    destruct top_k; [lia|]. cbn. lia.
  - rewrite length_take. lia.
  - split; [|split].
    + eapply sublist_NoDup; [|apply fmap_sublist, sublist_take].
      fold sorted. rewrite Hperm.
      eapply sublist_NoDup; [exact Hnd|apply keywords_sublist].
    + apply take_sorted, sort_desc_sorted.
    + intros kw Hkw. split; [|by apply Hterms].
      apply elem_of_take in Hkw as (i & Hkw%list_elem_of_lookup_2 & _).
      rewrite Hperm in Hkw. apply Hfound in Hkw as (_ & Hgt & Hin).
      split; [exact Hgt|].
      unfold scores in Hin. rewrite <- Hrow in Hin.
      by eapply tfidf_row_le_1.
Qed.

Lemma X4_extract_keywords_shape_witness :
  ∃ kws, extract_keywords toy_processor unrelated_jd 30 = Ok kws
         ∧ (1 <= length kws <= 30)%nat.
Proof.
  destruct (extract_keywords_Ok toy_processor unrelated_jd 30) as [kws Hk].
  - vm_compute. discriminate.
  - lia.
  - exists kws. split; [exact Hk|].
    apply (X4_extract_keywords_shape toy_processor unrelated_jd 30 kws Hk).
Defined.

End KeywordLists.

(** ** More on the lexical similarity *)

Section LexicalMore.
Local Open Scope R_scope.
Implicit Types (self : NLPProcessor).

Lemma dot_self (v : list R) : Np.dot v v = Np.sum_sq v.
Proof.
  induction v as [|a v IH]; [reflexivity|].
  by rewrite dot_cons, sum_sq_cons, IH.
Qed.

Lemma l2_norm_pos (v : list R) (x : R) : x ∈ v → 0 < x → 0 < Sklearn.l2_norm v.
Proof.
  intros Hin%elem_sq_le_sum_sq Hx. unfold Sklearn.l2_norm.
  apply sqrt_lt_R0. nra.
Qed.

Lemma sum_sq_normalize_eq (v : list R) :
  Sklearn.l2_norm v ≠ 0 → Np.sum_sq (Sklearn.normalize v) = 1.
Proof.
  intros Hn. unfold Sklearn.normalize.
  rewrite decide_False by exact Hn. rewrite sum_sq_scale.
  unfold Sklearn.l2_norm in *. pose proof (sum_sq_nonneg v) as Hv.
  rewrite sqrt_sqrt by exact Hv.
  assert (Np.sum_sq v ≠ 0) by (intros E; apply Hn; rewrite E; apply sqrt_0).
  by apply Rdiv_diag.
Qed.

(** A vector of non-zero norm has cosine 1 with itself. *)
Lemma cosine_self (v : list R) : Sklearn.l2_norm v ≠ 0 → Sklearn.cosine v v = 1.
Proof.
  intros Hn. unfold Sklearn.cosine. rewrite dot_self. by apply sum_sq_normalize_eq.
Qed.

Lemma dot_map_zero {A : Type} (f g : A → R) (l : list A) :
  (∀ a, a ∈ l → f a = 0 ∨ g a = 0) → Np.dot (map f l) (map g l) = 0.
Proof.
  induction l as [|a l IH]; intros Hz; [reflexivity|].
  cbn [map]. rewrite dot_cons, IH by (intros b Hb; apply Hz; by right).
  destruct (Hz a) as [->| ->]; [left|ring|ring].
Qed.

Lemma normalize_map {A : Type} (f : A → R) (l : list A) :
  ∃ n, 0 < n ∧ Sklearn.normalize (map f l) = map (fun a => f a / n) l.
Proof.
  unfold Sklearn.normalize.
  pose proof (l2_norm_nonneg (map f l)) as Hn.
  exists (if decide (Sklearn.l2_norm (map f l) = 0) then 1
          else Sklearn.l2_norm (map f l)).
  split; [case_decide; lra|]. by rewrite map_map.
Qed.

(** What a successful lexical comparison is made of: a vocabulary without
    repetition drawn from the terms of the two texts, and for each text the
    raw weights of its terms divided by one positive number. *)
Lemma tfidf_inv self (a b : string) (r : TfidfResult) :
  calculate_tfidf_similarity self a b = Ok r →
  ∃ vocab na nb,
    vocab ≠ [] ∧ NoDup vocab
    ∧ vocab ⊆ lexical_terms self a ++ lexical_terms self b
    ∧ 0 < na ∧ 0 < nb
    ∧ resume_vector r =
        map (fun t => INR (Sklearn.count t (lexical_terms self a))
                      * Sklearn.idf 2 (Sklearn.doc_freq t
                                         [lexical_terms self a; lexical_terms self b])
                      / na) vocab
    ∧ jd_vector r =
        map (fun t => INR (Sklearn.count t (lexical_terms self b))
                      * Sklearn.idf 2 (Sklearn.doc_freq t
                                         [lexical_terms self a; lexical_terms self b])
                      / nb) vocab
    ∧ resume_vector r =
        Sklearn.tfidf_row [lexical_terms self a; lexical_terms self b] vocab
          (lexical_terms self a)
    ∧ jd_vector r =
        Sklearn.tfidf_row [lexical_terms self a; lexical_terms self b] vocab
          (lexical_terms self b)
    ∧ vectorizer r = vocab
    ∧ similarity_score r = Sklearn.cosine (resume_vector r) (jd_vector r)
    ∧ matching_terms r = take 20 (matching_of vocab (resume_vector r) (jd_vector r)).
Proof.
  intros Hr. unfold lexical_terms.
  destruct (Sklearn.fit_transform 1000 2
              [preprocess_text self a; preprocess_text self b])
    as [[vocab rows]|e] eqn:Hfit.
  2:{ rewrite (tfidf_of_fit_err _ _ _ _ Hfit) in Hr. discriminate. }
  pose proof (vocab_NoDup _ _ _ _ _ Hfit) as Hnd.
  pose proof (fit_pair_rows _ _ _ _ _ _ Hfit) as ->.
  rewrite (tfidf_of_fit _ _ _ _ _ _ Hfit) in Hr. injection Hr as <-.
  apply fit_transform_Ok_inv in Hfit as (Hne & Hsub & _).
  change (concat (map (Sklearn.analyze 2)
                    [preprocess_text self a; preprocess_text self b]))
    with (Sklearn.analyze 2 (preprocess_text self a)
          ++ Sklearn.analyze 2 (preprocess_text self b) ++ []) in Hsub.
  rewrite app_nil_r in Hsub.
  cbn [resume_vector jd_vector vectorizer similarity_score matching_terms].
  set (da := Sklearn.analyze 2 (preprocess_text self a)) in *.
  set (db := Sklearn.analyze 2 (preprocess_text self b)) in *.
  destruct (tfidf_row_map [da; db] vocab da) as (na & Hna & Hra).
  destruct (tfidf_row_map [da; db] vocab db) as (nb & Hnb & Hrb).
  exists vocab, na, nb.
  change (length [da; db]) with 2%nat in Hra, Hrb.
  auto 15.
Qed.

Lemma dot_map_pos {A : Type} (f g : A → R) (l : list A) :
  (∀ a, a ∈ l → 0 <= f a ∧ 0 <= g a) →
  0 <= Np.dot (map f l) (map g l)
  ∧ (0 < Np.dot (map f l) (map g l) ↔ ∃ a, a ∈ l ∧ 0 < f a ∧ 0 < g a).
Proof.
  induction l as [|a l IH]; intros Hpos.
  - split; [cbn; lra|]. split; [cbn; lra|].
    intros (a & Ha & _). by apply elem_of_nil in Ha.
  - cbn [map]. rewrite dot_cons.
    destruct (Hpos a) as [Hf Hg]; [left|].
    destruct IH as [IH0 IH1]; [intros c Hc; apply Hpos; by right|].
    pose proof (Rmult_le_pos _ _ Hf Hg) as Hfg.
    split; [lra|]. split.
    + intros Hlt. destruct (Rle_lt_or_eq_dec _ _ Hfg) as [Hp|Hz].
      * exists a. split; [left|].
        destruct (Rle_lt_or_eq_dec _ _ Hf) as [Hfa|Hfa];
          [|rewrite <- Hfa in Hp; lra].
        destruct (Rle_lt_or_eq_dec _ _ Hg) as [Hga|Hga];
          [|rewrite <- Hga in Hp; lra].
        auto.
      * destruct IH1 as [IH1 _].
        destruct IH1 as (c & Hc & Hfc & Hgc); [lra|].
        exists c. split; [by right|auto].
    + intros (c & [->|Hc]%elem_of_cons & Hfc & Hgc).
      * pose proof (Rmult_lt_0_compat _ _ Hfc Hgc). lra.
      * assert (0 < Np.dot (map f l) (map g l)) by (apply IH1; eauto). lra.
Qed.

Lemma div_pos_iff (x n : R) : 0 < n → (0 < x / n ↔ 0 < x).
Proof.
  intros Hn. split; intros Hx.
  - replace x with (x / n * n) by (field; lra). by apply Rmult_lt_0_compat.
  - by apply Rdiv_lt_0_compat.
Qed.

Lemma raw_weight_nonneg (docs : list (list string)) (t : string) (d : list string)
    (n : R) :
  0 < n →
  0 <= INR (Sklearn.count t d) * Sklearn.idf (length docs) (Sklearn.doc_freq t docs) / n.
Proof.
  intros Hn. destruct (decide (t ∈ d)) as [Hin|Hnin].
  - left. by apply raw_weight_pos.
  - destruct (Sklearn.count t d) as [|k] eqn:Hc.
    + cbn [INR]. unfold Rdiv. lra.
    + exfalso. apply Hnin, count_pos. lia.
Qed.

(** An entry of the loop over the two weight rows for every term weighted in
    both. *)
Lemma matching_of_elem (names : list string) (ra rb : list R) (name : string)
    (x y : R) :
  (name, (x, y)) ∈ zip names (zip ra rb) → 0 < x → 0 < y →
  {| term := name; resume_score := x; jd_score := y; combined_score := x * y |}
    ∈ matching_of names ra rb.
Proof.
  intros Hin Hx Hy. unfold matching_of. rewrite sort_desc_perm.
  apply list_elem_of_omap. exists (name, (x, y)). split; [exact Hin|].
  cbn. rewrite decide_True by lra. reflexivity.
Qed.

(** A vocabulary term that occurs in both texts has an entry in the loop. *)
Lemma common_term_entry self (a b : string) (r : TfidfResult) (t : string) :
  calculate_tfidf_similarity self a b = Ok r →
  t ∈ vectorizer r → t ∈ lexical_terms self a → t ∈ lexical_terms self b →
  ∃ m, m ∈ matching_of (vectorizer r) (resume_vector r) (jd_vector r) ∧ term m = t.
Proof.
  intros Hr Hv Ha Hb.
  apply tfidf_inv in Hr
    as (vocab & na & nb & _ & _ & _ & Hna & Hnb & Hra & Hrb & _ & _ & Hvec & _ & _).
  rewrite Hvec in *. rewrite Hra, Hrb.
  eexists. split.
  - apply (matching_of_elem _ _ _ t).
    + rewrite zip_map_self2. apply list_elem_of_fmap. exists t.
      split; [reflexivity|exact Hv].
    + by apply (raw_weight_pos [lexical_terms self a; lexical_terms self b]).
    + by apply (raw_weight_pos [lexical_terms self a; lexical_terms self b]).
  - reflexivity.
Qed.

Lemma matching_terms_eq self (a b : string) (r : TfidfResult) :
  calculate_tfidf_similarity self a b = Ok r →
  matching_terms r
  = take 20 (matching_of (vectorizer r) (resume_vector r) (jd_vector r)).
Proof.
  intros Hr. apply tfidf_inv in Hr
    as (vocab & na & nb & _ & _ & _ & _ & _ & _ & _ & _ & _ & -> & _ & ->).
  reflexivity.
Qed.

Lemma take_nonempty {A : Type} (n : nat) (l : list A) :
  take (S n) l ≠ [] ↔ l ≠ [].
Proof. by destruct l. Qed.

(** The sign of the cosine of the two weight rows. *)
Lemma tfidf_similarity_sign self (a b : string) (r : TfidfResult) :
  calculate_tfidf_similarity self a b = Ok r →
  0 <= similarity_score r
  ∧ (0 < similarity_score r
     ↔ ∃ t, t ∈ vectorizer r ∧ t ∈ lexical_terms self a ∧ t ∈ lexical_terms self b).
Proof.
  intros Hr. apply tfidf_inv in Hr
    as (vocab & na & nb & _ & _ & _ & Hna & Hnb & Hra & Hrb & _ & _ & -> & -> & _).
  rewrite Hra, Hrb. unfold Sklearn.cosine.
  set (fa := fun t => INR (Sklearn.count t (lexical_terms self a))
                      * Sklearn.idf 2 (Sklearn.doc_freq t
                                         [lexical_terms self a; lexical_terms self b])
                      / na).
  set (fb := fun t => INR (Sklearn.count t (lexical_terms self b))
                      * Sklearn.idf 2 (Sklearn.doc_freq t
                                         [lexical_terms self a; lexical_terms self b])
                      / nb).
  destruct (normalize_map fa vocab) as (n1 & Hn1 & ->).
  destruct (normalize_map fb vocab) as (n2 & Hn2 & ->).
  assert (Hfa : ∀ t, 0 <= fa t ∧ (0 < fa t ↔ t ∈ lexical_terms self a)).
  { intros t. split.
    - by apply (raw_weight_nonneg [lexical_terms self a; lexical_terms self b]).
    - by apply (raw_weight_pos [lexical_terms self a; lexical_terms self b]). }
  assert (Hfb : ∀ t, 0 <= fb t ∧ (0 < fb t ↔ t ∈ lexical_terms self b)).
  { intros t. split.
    - by apply (raw_weight_nonneg [lexical_terms self a; lexical_terms self b]).
    - by apply (raw_weight_pos [lexical_terms self a; lexical_terms self b]). }
  destruct (dot_map_pos (fun t => fa t / n1) (fun t => fb t / n2) vocab) as [H0 Hpos].
  { intros t _. destruct (Hfa t) as [Ha _]. destruct (Hfb t) as [Hb _].
    split; (unfold Rdiv; apply Rmult_le_pos;
            [assumption|left; by apply Rinv_0_lt_compat]). }
  split; [exact H0|]. rewrite Hpos.
  split; intros (t & Ht & Hx & Hy); exists t; (split; [exact Ht|]).
  - apply div_pos_iff in Hx; [|exact Hn1]. apply div_pos_iff in Hy; [|exact Hn2].
    split; [by apply Hfa|by apply Hfb].
  - split; (apply div_pos_iff; [assumption|]); [by apply Hfa|by apply Hfb].
Qed.

Lemma fit_transform_complete (m n : nat) (raw : list string) (vocab : list string)
    (rows : list (list R)) :
  Sklearn.fit_transform m n raw = Ok (vocab, rows) →
  (size (list_to_set (concat (map (Sklearn.analyze n) raw)) : gset string) <= m)%nat →
  ∀ t, t ∈ concat (map (Sklearn.analyze n) raw) → t ∈ vocab.
Proof.
  intros Hfit Hsize t Ht. unfold Sklearn.fit_transform in Hfit.
  repeat case_decide; try discriminate. injection Hfit as <- _.
  unfold Sklearn.limit_features. rewrite decide_False.
  - rewrite merge_sort_Permutation. by apply elem_of_elements, elem_of_list_to_set.
  - rewrite merge_sort_Permutation. unfold size, set_size in Hsize. cbn in Hsize. lia.
Qed.

(** When the two texts have at most 1000 distinct terms between them, the
    feature limit cuts nothing and every term is in the vocabulary. *)
Lemma tfidf_vocab_complete self (a b : string) (r : TfidfResult) :
  calculate_tfidf_similarity self a b = Ok r →
  (size (list_to_set (lexical_terms self a ++ lexical_terms self b) : gset string)
   <= 1000)%nat →
  ∀ t, t ∈ lexical_terms self a ++ lexical_terms self b → t ∈ vectorizer r.
Proof.
  intros Hr Hsize t Ht. unfold lexical_terms in *.
  destruct (Sklearn.fit_transform 1000 2
              [preprocess_text self a; preprocess_text self b])
    as [[vocab rows]|e] eqn:Hfit.
  2:{ rewrite (tfidf_of_fit_err _ _ _ _ Hfit) in Hr. discriminate. }
  pose proof (fit_pair_rows _ _ _ _ _ _ Hfit) as ->.
  rewrite (tfidf_of_fit _ _ _ _ _ _ Hfit) in Hr. injection Hr as <-.
  cbn [vectorizer].
  apply (fit_transform_complete _ _ _ _ _ Hfit);
    change (concat (map (Sklearn.analyze 2)
                      [preprocess_text self a; preprocess_text self b]))
      with (Sklearn.analyze 2 (preprocess_text self a)
            ++ Sklearn.analyze 2 (preprocess_text self b) ++ []);
    rewrite app_nil_r; assumption.
Qed.

Lemma matching_terms_sublist (names : list string) (ra rb : list R) :
  sublist
    (map term
       (omap (fun '(name, (resume_score, jd_score)) =>
                if decide (resume_score > 0 ∧ jd_score > 0)
                then Some {| term := name;
                             resume_score := resume_score;
                             jd_score := jd_score;
                             combined_score := resume_score * jd_score |}
                else None)
             (zip names (zip ra rb))))
    names.
Proof.
  revert ra rb. induction names as [|nm names IH]; intros ra rb.
  - constructor.
  - destruct ra as [|x ra]; [apply sublist_nil_l|].
    destruct rb as [|y rb]; [apply sublist_nil_l|].
    cbn. destruct (decide (x > 0 ∧ y > 0)).
    + cbn. constructor. apply IH.
    + apply sublist_cons. apply IH.
Qed.

(** The entries of [matching_of]: a term of the vocabulary with its two
    positive weights and their product. *)
Lemma elem_of_matching_of (names : list string) (ra rb : list R) (m : MatchingTerm) :
  m ∈ matching_of names ra rb →
  (term m, (resume_score m, jd_score m)) ∈ zip names (zip ra rb)
  ∧ 0 < resume_score m ∧ 0 < jd_score m
  ∧ combined_score m = resume_score m * jd_score m.
Proof.
  unfold matching_of. rewrite sort_desc_perm.
  intros ([nm [x y]] & Hin & Hsome)%list_elem_of_omap.
  case_decide as Hpos; [|discriminate]. injection Hsome as <-. cbn.
  split; [exact Hin|]. split; [lra|]. split; [lra|reflexivity].
Qed.

(** A matching term is reported exactly when some term of the vocabulary
    occurs in both texts. *)
Lemma matching_terms_nonempty_iff self (a b : string) (r : TfidfResult) :
  calculate_tfidf_similarity self a b = Ok r →
  matching_terms r ≠ []
  ↔ ∃ t, t ∈ vectorizer r ∧ t ∈ lexical_terms self a ∧ t ∈ lexical_terms self b.
Proof.
  intros Hr.
  rewrite (matching_terms_eq _ _ _ _ Hr), take_nonempty. split.
  - intros Hne.
    destruct (matching_of _ _ _) as [|m l] eqn:Hm; [done|].
    assert (m ∈ matching_of (vectorizer r) (resume_vector r) (jd_vector r)) as Hin
      by (rewrite Hm; left).
    apply elem_of_matching_of in Hin as (Hin & Hx & Hy & _).
    apply tfidf_inv in Hr
      as (vocab & na & nb & _ & _ & _ & Hna & Hnb & Hra & Hrb & _ & _ & Hvec & _ & _).
    rewrite Hvec, Hra, Hrb, zip_map_self2 in Hin.
    apply list_elem_of_fmap in Hin as (t & [= Ht Hxt Hyt] & Hv).
    rewrite Hxt in Hx. rewrite Hyt in Hy.
    apply (raw_weight_pos [lexical_terms self a; lexical_terms self b]) in Hx;
      [|exact Hna].
    apply (raw_weight_pos [lexical_terms self a; lexical_terms self b]) in Hy;
      [|exact Hnb].
    exists t. rewrite Hvec. auto.
  - intros (t & Hv & Ha & Hb).
    destruct (common_term_entry _ _ _ _ t Hr Hv Ha Hb) as (m & Hm & _).
    intros Hnil. rewrite Hnil in Hm. by apply elem_of_nil in Hm.
Qed.

Lemma similarity_pos_iff self (a b : string) (r : TfidfResult) :
  calculate_tfidf_similarity self a b = Ok r →
  0 <= similarity_score r ∧ (0 < similarity_score r ↔ matching_terms r ≠ []).
Proof.
  intros Hr. pose proof (tfidf_similarity_sign _ _ _ _ Hr) as [H0 Hsign].
  split; [exact H0|].
  etrans; [exact Hsign|]. symmetry. by apply matching_terms_nonempty_iff.
Qed.

(** X5: a returned lexical similarity is never negative, and it is positive
    exactly when a matching term is reported, that is when some term of the
    vocabulary occurs in both preprocessed texts; otherwise it is 0.  When
    the two texts have at most 1000 distinct terms between them, no term is
    cut from the vocabulary, and the similarity is positive exactly when the
    texts share a term. *)
Theorem X5_lexical_similarity_sign self (a b : string) (r : TfidfResult) :
  calculate_tfidf_similarity self a b = Ok r →
  0 <= similarity_score r
  ∧ (0 < similarity_score r ↔ matching_terms r ≠ [])
  ∧ (similarity_score r = 0 ↔ matching_terms r = [])
  ∧ (matching_terms r ≠ []
     ↔ ∃ t, t ∈ vectorizer r ∧ t ∈ lexical_terms self a ∧ t ∈ lexical_terms self b)
  ∧ ((size (list_to_set (lexical_terms self a ++ lexical_terms self b) : gset string)
      <= 1000)%nat →
     (0 < similarity_score r
      ↔ ∃ t, t ∈ lexical_terms self a ∧ t ∈ lexical_terms self b)).
Proof.
  intros Hr.
  pose proof (tfidf_similarity_sign _ _ _ _ Hr) as [H0 Hsign].
  pose proof (matching_terms_nonempty_iff _ _ _ _ Hr) as Hmatch.
  split; [exact H0|]. split; [etrans; [exact Hsign|symmetry; exact Hmatch]|].
  split.
  { split.
    - intros Hz. destruct (matching_terms r) as [|m l] eqn:Hm; [reflexivity|].
      assert (0 < similarity_score r); [|lra].
      apply Hsign, Hmatch. first [done|by rewrite Hm].
    - intros Hnil. destruct (Rle_lt_or_eq_dec _ _ H0) as [Hpos|Hz]; [|by symmetry].
      apply Hsign, Hmatch in Hpos. contradiction. }
  split; [exact Hmatch|].
  intros Hsize. rewrite Hsign. split.
  - intros (t & _ & Ha & Hb). eauto.
  - intros (t & Ha & Hb). exists t.
    split; [|auto].
    apply (tfidf_vocab_complete _ _ _ _ Hr Hsize). apply elem_of_app. auto.
Qed.

Lemma X5_lexical_similarity_sign_witness :
  ∃ r, calculate_tfidf_similarity toy_processor shared_resume_text shared_jd = Ok r
       ∧ 0 < similarity_score r ∧ matching_terms r ≠ [].
Proof.
  destruct (tfidf_Ok toy_processor shared_resume_text shared_jd) as [r Hr].
  { left. vm_compute. discriminate. }
  exists r. split; [exact Hr|].
  destruct (X5_lexical_similarity_sign toy_processor shared_resume_text shared_jd r Hr)
    as (_ & Hmatch & _ & _ & Hshare).
  assert (0 < similarity_score r) as Hpos.
  { apply Hshare.
    - apply Nat.leb_le. vm_compute. reflexivity.
    - exists "python".
      split; apply list_elem_of_In; vm_compute; auto. }
  split; [exact Hpos|by apply Hmatch].
Defined.

Lemma matching_terms_entries self (a b : string) (r : TfidfResult) :
  calculate_tfidf_similarity self a b = Ok r →
  (length (matching_terms r) <= 20)%nat
  ∧ NoDup (map term (matching_terms r))
  ∧ StronglySorted (fun m m' => combined_score m' <= combined_score m)
      (matching_terms r)
  ∧ ∀ m, m ∈ matching_terms r →
      term m ∈ Sklearn.analyze 2 (preprocess_text self a)
      ∧ term m ∈ Sklearn.analyze 2 (preprocess_text self b)
      ∧ 0 < resume_score m <= 1 ∧ 0 < jd_score m <= 1
      ∧ combined_score m = resume_score m * jd_score m.
Proof.
  intros Hr.
  apply tfidf_inv in Hr
    as (vocab & na & nb & Hv & Hnd & Hsub & Hna & Hnb & Hra & Hrb & Hrowa & Hrowb
        & _ & _ & ->).
  fold (lexical_terms self a) (lexical_terms self b).
  split; [rewrite length_take; lia|]. split; [|split].
  - eapply sublist_NoDup; [|apply fmap_sublist, sublist_take].
    unfold matching_of. rewrite sort_desc_perm.
    eapply sublist_NoDup; [exact Hnd|apply matching_terms_sublist].
  - apply take_sorted. unfold matching_of. apply sort_desc_sorted.
  - intros m (i & Hm%list_elem_of_lookup_2 & _)%elem_of_take.
    apply elem_of_matching_of in Hm as (Hin & Hx & Hy & Hc).
    assert (resume_score m ∈ resume_vector r ∧ jd_score m ∈ jd_vector r) as [Hxr Hyr].
    { apply elem_of_zip_r in Hin as Hin'.
      split; [by apply elem_of_zip_l in Hin'|by apply elem_of_zip_r in Hin']. }
    assert (resume_score m <= 1) by (rewrite Hrowa in Hxr; by eapply tfidf_row_le_1).
    assert (jd_score m <= 1) by (rewrite Hrowb in Hyr; by eapply tfidf_row_le_1).
    rewrite Hra, Hrb, zip_map_self2 in Hin.
    apply list_elem_of_fmap in Hin as (t & [= Ht Hxt Hyt] & _).
    pose proof Hx as Hta. pose proof Hy as Htb.
    rewrite Hxt in Hta. rewrite Hyt in Htb.
    apply (raw_weight_pos [lexical_terms self a; lexical_terms self b]) in Hta;
      [|exact Hna].
    apply (raw_weight_pos [lexical_terms self a; lexical_terms self b]) in Htb;
      [|exact Hnb].
    rewrite Ht. auto 10.
Qed.

(** X6: the matching terms of a returned lexical similarity are at most 20,
    name no term twice, and come in non-increasing order of their combined
    score.  Each entry names a term that occurs in both preprocessed texts,
    carries the weights of the term in the two texts, both in (0, 1], and has
    their product as combined score.  Conversely every term of the vocabulary
    that occurs in both texts is listed, unless the list is full with 20
    entries. *)
Theorem X6_matching_terms self (a b : string) (r : TfidfResult) :
  calculate_tfidf_similarity self a b = Ok r →
  ((length (matching_terms r) <= 20)%nat
   ∧ NoDup (map term (matching_terms r))
   ∧ StronglySorted (fun m m' => combined_score m' <= combined_score m)
       (matching_terms r)
   ∧ ∀ m, m ∈ matching_terms r →
       term m ∈ Sklearn.analyze 2 (preprocess_text self a)
       ∧ term m ∈ Sklearn.analyze 2 (preprocess_text self b)
       ∧ 0 < resume_score m <= 1 ∧ 0 < jd_score m <= 1
       ∧ combined_score m = resume_score m * jd_score m)
  ∧ ∀ t, t ∈ vectorizer r →
      t ∈ Sklearn.analyze 2 (preprocess_text self a) →
      t ∈ Sklearn.analyze 2 (preprocess_text self b) →
      (∃ m, m ∈ matching_terms r ∧ term m = t)
      ∨ length (matching_terms r) = 20%nat.
Proof.
  intros Hr. split; [by apply matching_terms_entries|].
  intros t Hv Ha Hb.
  destruct (common_term_entry self a b r t Hr Hv Ha Hb) as (m & Hm & Ht).
  rewrite (matching_terms_eq _ _ _ _ Hr).
  destruct (decide (length (matching_of (vectorizer r) (resume_vector r) (jd_vector r))
                    <= 20)%nat) as [Hle|Hgt].
  - left. exists m. rewrite take_ge by exact Hle. auto.
  - right. rewrite length_take. lia.
Qed.

Lemma X6_matching_terms_witness :
  ∃ r m, calculate_tfidf_similarity toy_processor shared_resume_text shared_jd = Ok r
         ∧ m ∈ matching_terms r ∧ term m = "python"
         ∧ 0 < resume_score m <= 1 ∧ 0 < jd_score m <= 1.
Proof.
  destruct (tfidf_Ok toy_processor shared_resume_text shared_jd) as [r Hr].
  { left. vm_compute. discriminate. }
  destruct (X6_matching_terms toy_processor shared_resume_text shared_jd r Hr)
    as ((Hlen & Hnd & _ & Hentries) & Hcommon).
  assert ("python" ∈ vectorizer r) as Hv.
  { apply (tfidf_vocab_complete _ _ _ _ Hr).
    - apply Nat.leb_le. vm_compute. reflexivity.
    - apply list_elem_of_In. vm_compute. auto. }
  destruct (Hcommon "python" Hv) as [(m & Hm & Ht)|Hfull].
  - apply list_elem_of_In. vm_compute. auto.
  - apply list_elem_of_In. vm_compute. auto.
  - exists r, m. destruct (Hentries m Hm) as (_ & _ & Hx & Hy & _). auto.
  - exfalso.
    assert (map term (matching_terms r)
              ⊆+ Sklearn.analyze 2 (preprocess_text toy_processor shared_resume_text))
      as Hsub.
    { apply NoDup_submseteq; [exact Hnd|].
      intros t (m & -> & Hm)%list_elem_of_fmap.
      destruct (Hentries m Hm) as (Ha & _). exact Ha. }
    apply submseteq_length in Hsub. rewrite length_map, Hfull in Hsub.
    vm_compute in Hsub. lia.
Defined.

(** X7: two texts without a common term after preprocessing, of which at
    least one has a term, have lexical similarity 0 and no matching term. *)
Theorem X7_no_common_term self (a b : string) :
  (∀ t, t ∈ Sklearn.analyze 2 (preprocess_text self a) →
        t ∉ Sklearn.analyze 2 (preprocess_text self b)) →
  Sklearn.analyze 2 (preprocess_text self a) ≠ []
  ∨ Sklearn.analyze 2 (preprocess_text self b) ≠ [] →
  ∃ r, calculate_tfidf_similarity self a b = Ok r
       ∧ similarity_score r = 0 ∧ matching_terms r = [].
Proof.
  fold (lexical_terms self a) (lexical_terms self b).
  intros Hdisj Hne. destruct (tfidf_Ok self a b Hne) as [r Hr].
  exists r. split; [exact Hr|].
  apply tfidf_inv in Hr
    as (vocab & na & nb & Hv & Hnd & Hsub & Hna & Hnb & Hra & Hrb & _ & _
        & _ & -> & ->).
  assert (Hzero : ∀ t,
            INR (Sklearn.count t (lexical_terms self a))
            * Sklearn.idf 2 (Sklearn.doc_freq t
                               [lexical_terms self a; lexical_terms self b]) / na = 0
            ∨ INR (Sklearn.count t (lexical_terms self b))
              * Sklearn.idf 2 (Sklearn.doc_freq t
                                 [lexical_terms self a; lexical_terms self b]) / nb = 0).
  { intros t.
    destruct (decide (t ∈ lexical_terms self a)) as [Hin|Hnin].
    - right. apply Hdisj in Hin.
      destruct (Sklearn.count t (lexical_terms self b)) as [|k] eqn:Hc.
      + cbn [INR]. unfold Rdiv. ring.
      + exfalso. apply Hin, count_pos. lia.
    - left.
      destruct (Sklearn.count t (lexical_terms self a)) as [|k] eqn:Hc.
      + cbn [INR]. unfold Rdiv. ring.
      + exfalso. apply Hnin, count_pos. lia. }
  split.
  - rewrite Hra, Hrb. unfold Sklearn.cosine.
    match goal with
    | |- Np.dot (Sklearn.normalize (map ?f vocab)) (Sklearn.normalize (map ?g vocab)) = 0 =>
        destruct (normalize_map f vocab) as (n1 & Hn1 & ->);
        destruct (normalize_map g vocab) as (n2 & Hn2 & ->)
    end.
    apply dot_map_zero. intros t _.
    destruct (Hzero t) as [-> | ->]; [left|right]; unfold Rdiv; ring.
  - assert (matching_of vocab (resume_vector r) (jd_vector r) = []) as ->;
      [|reflexivity].
    destruct (matching_of vocab (resume_vector r) (jd_vector r)) as [|m l] eqn:Hm;
      [reflexivity|].
    exfalso.
    assert (m ∈ matching_of vocab (resume_vector r) (jd_vector r)) as Hin
      by (rewrite Hm; left).
    apply elem_of_matching_of in Hin as (Hin & Hx & Hy & _).
    rewrite Hra, Hrb, zip_map_self2 in Hin.
    apply list_elem_of_fmap in Hin as (t & [= _ Hxt Hyt] & _).
    destruct (Hzero t) as [Hz|Hz]; lra.
Qed.

Lemma disjoint_lists (la lb : list string) :
  (list_to_set la ∩ list_to_set lb : gset string) = ∅ →
  ∀ t, t ∈ la → t ∈ lb → False.
Proof.
  intros Hempty t Ha Hb.
  apply (not_elem_of_empty (C := gset string) t). rewrite <- Hempty.
  apply elem_of_intersection. split; by apply elem_of_list_to_set.
Qed.

Lemma X7_no_common_term_witness :
  ∃ r, calculate_tfidf_similarity toy_processor (text unrelated_resume) unrelated_jd
       = Ok r
       ∧ similarity_score r = 0 ∧ matching_terms r = [].
Proof.
  apply (X7_no_common_term toy_processor (text unrelated_resume) unrelated_jd).
  - intros t Ht Ht'.
    assert ((list_to_set (lexical_terms toy_processor (text unrelated_resume))
             ∩ list_to_set (lexical_terms toy_processor unrelated_jd)
             : gset string) = ∅) as Hempty by (vm_compute; reflexivity).
    exact (disjoint_lists (lexical_terms toy_processor (text unrelated_resume))
             (lexical_terms toy_processor unrelated_jd) Hempty t Ht Ht').
  - left. vm_compute. discriminate.
Defined.

End LexicalMore.

(** ** More on the semantic similarity *)

Section SemanticMore.
Local Open Scope R_scope.
Implicit Types (self : NLPProcessor).

Lemma mapM_result_inv {A B : Type} (f : A → result B) (l : list A) (ys : list B) :
  mapM f l = Ok ys → Forall2 (fun x y => f x = Ok y) l ys.
Proof.
  revert ys. induction l as [|x l IH]; intros ys; cbn.
  - intros [= <-]. constructor.
  - destruct (f x) as [y|e] eqn:Hx; cbn; [|discriminate].
    destruct (mapM f l) as [ys'|e] eqn:Hl; cbn; [|discriminate].
    intros [= <-]. constructor; [exact Hx|by apply IH].
Qed.

(** The inner loop returns the greatest cosine above the initial value,
    with the earliest sentence that attains it. *)
Lemma best_match_loop_spec (emb : list R) (jd : list (string * list R))
    (m0 : R) (b0 : string) (m : R) (b : string) :
  best_match_loop emb jd m0 b0 = Ok (m, b) →
  m0 <= m
  ∧ (∀ s e, (s, e) ∈ jd → Sklearn.cosine emb e <= m)
  ∧ ((m = m0 ∧ b = b0)
     ∨ (m0 < m
        ∧ ∃ i e, jd !! i = Some (b, e) ∧ m = Sklearn.cosine emb e
                 ∧ ∀ j s' e', (j < i)%nat → jd !! j = Some (s', e') →
                     Sklearn.cosine emb e' < m)).
Proof.
  revert m0 b0. induction jd as [|[s1 e1] jd IH]; intros m0 b0.
  - cbn. intros [= <- <-]. split; [lra|]. split; [|by left].
    intros s e Hin. by apply elem_of_nil in Hin.
  - cbn [best_match_loop Sklearn.cosine_similarity mbind result_bind].
    case_decide as Hgt.
    + intros (Hle & Hall & Hcase)%IH. split; [lra|]. split.
      * intros s e [[= -> ->]|Hin]%elem_of_cons; [exact Hle|by eapply Hall].
      * right. split; [lra|]. destruct Hcase as [[-> ->]|(Hlt & i & e & Hi & Hm & Hfirst)].
        -- exists 0%nat, e1. split; [reflexivity|]. split; [reflexivity|]. intros; lia.
        -- exists (S i), e. split; [exact Hi|]. split; [exact Hm|].
           intros [|j] s' e' Hj Hlook.
           ++ injection Hlook as <- <-. exact Hlt.
           ++ apply (Hfirst j s' e'); [lia|exact Hlook].
    + intros (Hle & Hall & Hcase)%IH. split; [exact Hle|]. split.
      * intros s e [[= -> ->]|Hin]%elem_of_cons; [lra|by eapply Hall].
      * destruct Hcase as [?|(Hlt & i & e & Hi & Hm & Hfirst)]; [by left|].
        right. split; [exact Hlt|]. exists (S i), e.
        split; [exact Hi|]. split; [exact Hm|].
        intros [|j] s' e' Hj Hlook.
        -- injection Hlook as <- <-. lra.
        -- apply (Hfirst j s' e'); [lia|exact Hlook].
Qed.

(** What a successful semantic comparison is made of. *)
Lemma bert_inv self (a b : string) (r : BertResult) :
  calculate_bert_similarity self a b = Ok r →
  ∃ x y,
    Np.mean_axis0 (encode self (long_sentences self a)) = Some x
    ∧ Np.mean_axis0 (encode self (long_sentences self b)) = Some y
    ∧ document_similarity r = Sklearn.cosine x y
    ∧ resume_embeddings r = encode self (long_sentences self a)
    ∧ jd_embeddings r = encode self (long_sentences self b)
    ∧ Forall2
        (fun '(resume_sent, resume_emb) al =>
           ∃ m bst,
             best_match_loop resume_emb
               (zip (long_sentences self b) (encode self (long_sentences self b)))
               0 "" = Ok (m, bst)
             ∧ al = {| resume_sentence := resume_sent;
                       best_match := bst;
                       similarity := m |})
        (zip (long_sentences self a) (encode self (long_sentences self a)))
        (sentence_similarities r).
Proof.
  unfold calculate_bert_similarity.
  destruct (Np.mean_axis0 (encode self (long_sentences self a))) as [x|];
    [|discriminate].
  destruct (Np.mean_axis0 (encode self (long_sentences self b))) as [y|];
    [|discriminate].
  cbn [Sklearn.cosine_similarity mbind result_bind].
  destruct (mapM _ _) as [ys|e] eqn:Hmap; cbn [mbind result_bind]; [|discriminate].
  intros [= <-]. exists x, y.
  cbn [document_similarity sentence_similarities resume_embeddings jd_embeddings].
  repeat (split; [reflexivity|]).
  apply mapM_result_inv in Hmap.
  eapply Forall2_impl; [exact Hmap|].
  intros [s e] al Hal. cbn in Hal.
  destruct (best_match_loop _ _ _ _) as [[m bst]|err]; cbn in Hal; [|discriminate].
  injection Hal as <-. eauto.
Qed.

(** X8: the document similarity does not depend on the order of the two
    texts: the same value, or the same error, both ways.  A returned result
    keeps one embedding for each qualifying sentence of either text and one
    sentence alignment for each resume embedding. *)
Theorem X8_document_similarity self (a b : string) :
  document_similarity <$> calculate_bert_similarity self a b
  = document_similarity <$> calculate_bert_similarity self b a
  ∧ ∀ r, calculate_bert_similarity self a b = Ok r →
      resume_embeddings r = map (bert_model self) (long_sentences self a)
      ∧ jd_embeddings r = map (bert_model self) (long_sentences self b)
      ∧ length (sentence_similarities r) = length (resume_embeddings r)
      ∧ long_sentences self a ≠ [] ∧ long_sentences self b ≠ [].
Proof.
  split.
  - destruct (decide (long_sentences self a = [])) as [Ha|Ha].
    { rewrite !bert_undefined_mean by auto. reflexivity. }
    destruct (decide (long_sentences self b = [])) as [Hb|Hb].
    { rewrite !bert_undefined_mean by auto. reflexivity. }
    destruct (bert_Ok self a b Ha Hb) as [r Hr].
    destruct (bert_Ok self b a Hb Ha) as [r' Hr'].
    rewrite Hr, Hr'. cbn. f_equal.
    apply bert_Ok_inv in Hr as (x & y & Hx & Hy & ->).
    apply bert_Ok_inv in Hr' as (y' & x' & Hy' & Hx' & ->).
    rewrite Hx in Hx'. rewrite Hy in Hy'. injection Hx' as <-. injection Hy' as <-.
    apply cosine_comm.
  - intros r Hr.
    assert (long_sentences self a ≠ [] ∧ long_sentences self b ≠ []) as Hne.
    { split; intros Hnil; rewrite bert_undefined_mean in Hr by auto; discriminate. }
    apply bert_inv in Hr as (x & y & _ & _ & _ & -> & -> & Hall).
    split; [reflexivity|]. split; [reflexivity|]. split; [|exact Hne].
    apply Forall2_length in Hall. rewrite length_zip in Hall.
    unfold encode in *. rewrite length_map in *. lia.
Qed.

Lemma X8_document_similarity_witness :
  ∃ r, calculate_bert_similarity toy_processor (text unrelated_resume) unrelated_jd
       = Ok r
       ∧ length (sentence_similarities r) = 1%nat.
Proof.
  destruct (bert_Ok toy_processor (text unrelated_resume) unrelated_jd) as [r Hr].
  - vm_compute. discriminate.
  - vm_compute. discriminate.
  - exists r. split; [exact Hr|].
    destruct (X8_document_similarity toy_processor (text unrelated_resume) unrelated_jd)
      as [_ Hshape].
    destruct (Hshape r Hr) as (Hemb & _ & Hlen & _).
    rewrite Hlen, Hemb. reflexivity.
Defined.

(** X9: a returned result has one sentence alignment for each qualifying
    resume sentence, in order.  The similarity of an alignment is never
    negative and bounds the cosine of the resume sentence with every
    qualifying job-description sentence; it is 0 with an empty best match
    when no cosine is positive, and otherwise it is the cosine with the best
    match, which is the earliest job-description sentence attaining it. *)
Theorem X9_sentence_alignment self (a b : string) (r : BertResult) :
  calculate_bert_similarity self a b = Ok r →
  map resume_sentence (sentence_similarities r) = long_sentences self a
  ∧ ∀ al, al ∈ sentence_similarities r →
      0 <= similarity al
      ∧ (∀ s, s ∈ long_sentences self b →
           Sklearn.cosine (bert_model self (resume_sentence al)) (bert_model self s)
           <= similarity al)
      ∧ ((similarity al = 0 ∧ best_match al = "")
         ∨ (0 < similarity al
            ∧ similarity al
              = Sklearn.cosine (bert_model self (resume_sentence al))
                  (bert_model self (best_match al))
            ∧ ∃ j, long_sentences self b !! j = Some (best_match al)
                   ∧ ∀ j' s', (j' < j)%nat → long_sentences self b !! j' = Some s' →
                       Sklearn.cosine (bert_model self (resume_sentence al))
                         (bert_model self s')
                       < similarity al)).
Proof.
  intros (x & y & _ & _ & _ & _ & _ & Hall)%bert_inv.
  unfold encode in Hall. rewrite !zip_map_self in Hall.
  apply Forall2_fmap_l in Hall. split.
  - clear -Hall. induction Hall as [|s al l als (m & bst & _ & ->) _ IH];
      [reflexivity|].
    cbn. by rewrite IH.
  - intros al Hal.
    apply list_elem_of_lookup in Hal as [k Hal].
    destruct (Forall2_lookup_r _ _ _ _ _ Hall Hal) as (s & _ & m & bst & Hloop & ->).
    cbn [similarity best_match resume_sentence].
    apply best_match_loop_spec in Hloop as (Hge & Hbound & Hcase).
    assert (Hjd : ∀ j s' e',
              ((fun s0 => (s0, bert_model self s0)) <$> long_sentences self b) !! j
              = Some (s', e') →
              long_sentences self b !! j = Some s' ∧ e' = bert_model self s').
    { intros j s' e'. rewrite list_lookup_fmap.
      destruct (long_sentences self b !! j) as [s0|]; cbn; [|discriminate].
      intros [= <- <-]. auto. }
    split; [|split].
    + exact Hge.
    + intros s' Hs'. apply (Hbound s' (bert_model self s')).
      apply list_elem_of_fmap. eauto.
    + destruct Hcase as [[-> ->]|(Hlt & i & e & Hi & Hm & Hfirst)]; [by left|].
      right. split; [exact Hlt|].
      apply Hjd in Hi as [Hi ->]. split; [exact Hm|].
      exists i. split; [exact Hi|].
      intros j' s' Hj' Hlook. apply (Hfirst j' s' (bert_model self s') Hj').
      rewrite list_lookup_fmap, Hlook. reflexivity.
Qed.

Lemma X9_sentence_alignment_witness :
  ∃ r al, calculate_bert_similarity toy_processor (text unrelated_resume) hobby_jd
          = Ok r
          ∧ sentence_similarities r = [al]
          ∧ resume_sentence al = text unrelated_resume
          ∧ best_match al = hobby_jd
          ∧ 0 < similarity al.
Proof.
  destruct (bert_Ok toy_processor (text unrelated_resume) hobby_jd) as [r Hr].
  { vm_compute. discriminate. }
  { vm_compute. discriminate. }
  destruct (X9_sentence_alignment toy_processor (text unrelated_resume) hobby_jd r Hr)
    as [Hmap Hentries].
  assert (long_sentences toy_processor (text unrelated_resume)
          = [text unrelated_resume]) as Ha by reflexivity.
  assert (long_sentences toy_processor hobby_jd = [hobby_jd]) as Hb by reflexivity.
  rewrite Ha in Hmap.
  destruct (sentence_similarities r) as [|al [|al' l]] eqn:Hs; try discriminate Hmap.
  injection Hmap as Hres.
  exists r, al. split; [exact Hr|]. split; [exact Hs|]. split; [exact Hres|].
  destruct (Hentries al) as (_ & Hbound & Hcase); [left|].
  specialize (Hbound hobby_jd). rewrite Hb, Hres in Hbound.
  assert (Sklearn.cosine (bert_model toy_processor (text unrelated_resume))
            (bert_model toy_processor hobby_jd) = 1) as Hcos.
  { change (bert_model toy_processor (text unrelated_resume)) with [1].
    change (bert_model toy_processor hobby_jd) with [1].
    apply cosine_self. apply Rgt_not_eq, Rlt_gt. apply (l2_norm_pos [1] 1); [left|lra]. }
  assert (1 <= similarity al) as Hone.
  { rewrite <- Hcos. apply Hbound. left. }
  destruct Hcase as [[Hz _]|(Hpos & _ & j & Hj & _)]; [lra|].
  split; [|exact Hpos].
  rewrite Hb in Hj. destruct j as [|j]; [by injection Hj as <-|discriminate Hj].
Defined.

End SemanticMore.

(** ** The keyword and skill data *)

Section MatchData.
Local Open Scope R_scope.
Implicit Types (self : NLPProcessor).

Lemma size_list_to_set_le (l : list string) :
  (size (list_to_set l : gset string) <= length l)%nat.
Proof.
  induction l as [|x l IH]; cbn [list_to_set length].
  - rewrite size_empty. lia.
  - rewrite size_union_alt, size_singleton.
    pose proof (subseteq_size (list_to_set l ∖ {[x]}) (list_to_set l : gset string)
                  ltac:(apply subseteq_difference_l; reflexivity)).
    lia.
Qed.

Lemma size_split (X Y : gset string) :
  (size (X ∩ Y) + size (X ∖ Y) = size X)%nat.
Proof.
  pose proof (size_difference_alt X Y).
  pose proof (subseteq_size (X ∩ Y) X (intersection_subseteq_l X Y)). lia.
Qed.

Lemma size_zero_iff (X : gset string) : size X = 0%nat ↔ X = ∅.
Proof. rewrite size_empty_iff. apply leibniz_equiv_iff. Qed.

Lemma size_elements (X : gset string) : length (elements X) = size X.
Proof. reflexivity. Qed.

Lemma elements_nil_iff (X : gset string) : elements X = [] ↔ X = ∅.
Proof.
  split; [|intros ->; apply elements_empty].
  intros H. by apply elements_empty_inv, leibniz_equiv in H.
Qed.

(** A successful keyword extraction returns at least one keyword. *)
Lemma extract_keywords_nonempty self (text : string) (top_k : nat)
    (kws : list Keyword) :
  extract_keywords self text top_k = Ok kws →
  kws ≠ [] ∧ (length kws <= top_k)%nat.
Proof.
  intros Hk.
  apply extract_keywords_inv in Hk
    as (vocab & n & Hpos & Hne & _ & Hsub & Hn & _ & ->).
  split; [|rewrite length_take; lia].
  destruct vocab as [|t vocab']; [done|].
  assert (t ∈ keyword_terms self text) as Ht by (apply Hsub; left).
  match goal with |- take _ (sort_desc ?f ?found) ≠ [] =>
    assert ({| keyword := t;
               kw_score := INR (Sklearn.count t (keyword_terms self text))
                           * Sklearn.idf 1 (Sklearn.doc_freq t [keyword_terms self text])
                           / n |} ∈ found) as Hin;
    [|rewrite <- (sort_desc_perm f) in Hin;
      destruct (sort_desc f found) as [|kw sorted']; [by apply elem_of_nil in Hin|];
      destruct top_k; [lia|discriminate]]
  end.
  apply list_elem_of_omap. eexists (t, _). split; [left|].
  cbn. rewrite decide_True; [reflexivity|].
  apply Rlt_gt. by apply (raw_weight_pos [keyword_terms self text]).
Qed.

Lemma keyword_set_size (kws : list Keyword) :
  kws ≠ [] → (1 <= size (keyword_set kws) <= length kws)%nat.
Proof.
  intros Hne. unfold keyword_set. split.
  - destruct kws as [|kw kws]; [done|].
    assert (size (list_to_set (map (fun kw => Py.lower (keyword kw)) (kw :: kws))
                  : gset string) ≠ 0%nat); [|lia].
    intros Hz%size_empty_iff.
    apply (not_elem_of_empty (C := gset string) (Py.lower (keyword kw))).
    apply Hz, elem_of_list_to_set. left.
  - etrans; [apply size_list_to_set_le|]. by rewrite length_map.
Qed.

(** The percentage of a subset is not capped. *)
Lemma ratio_score_eq (m n : nat) :
  (m <= n)%nat → (0 < n)%nat →
  Rmin (INR m / INR n * 100) 100 = 100 * IZR (Z.of_nat m) / IZR (Z.of_nat n).
Proof.
  intros Hmn Hn. rewrite <- !INR_IZR_INZ.
  apply le_INR in Hmn. apply lt_INR in Hn. cbn [INR] in Hn.
  rewrite Rmin_left.
  - unfold Rdiv. ring.
  - apply (Rmult_le_reg_r (INR n)); [exact Hn|].
    unfold Rdiv. replace (INR m * / INR n * 100 * INR n)
      with (INR m * 100 * (INR n * / INR n)) by ring.
    rewrite Rinv_r by lra. lra.
Qed.

(** X10: the keyword score never sees a job description without keywords.
    When [_calculate_keyword_score] returns, the job description has between
    1 and 30 keywords; the matched and the missing keywords are lists
    without repetition and without a common element that together count the
    job-description keywords; the score is 100 times the matched share, in
    [0, 100], and it is 100 exactly when nothing is missing.  When the job
    description, or else the resume, has no term left after preprocessing,
    the method raises the vectorizer's error instead of scoring 0. *)
Theorem X10_keyword_score_data self (resume_text jd_text : string) :
  (∀ kd, _calculate_keyword_score self resume_text jd_text = Ok kd →
     (1 <= KeywordData.total_jd_keywords kd <= 30)%Z
     ∧ KeywordData.matched_count kd
       = Z.of_nat (length (KeywordData.matched_keywords kd))
     ∧ (KeywordData.matched_count kd
        + Z.of_nat (length (KeywordData.missing_keywords kd))
        = KeywordData.total_jd_keywords kd)%Z
     ∧ NoDup (KeywordData.matched_keywords kd ++ KeywordData.missing_keywords kd)
     ∧ KeywordData.score kd
       = 100 * IZR (KeywordData.matched_count kd)
         / IZR (KeywordData.total_jd_keywords kd)
     ∧ 0 <= KeywordData.score kd <= 100
     ∧ (KeywordData.score kd = 100 ↔ KeywordData.missing_keywords kd = []))
  ∧ (keyword_terms self jd_text = [] →
     _calculate_keyword_score self resume_text jd_text =
       Err (ValueError "empty vocabulary; perhaps the documents only contain stop words"))
  ∧ (keyword_terms self resume_text = [] →
     _calculate_keyword_score self resume_text jd_text =
       Err (ValueError "empty vocabulary; perhaps the documents only contain stop words")).
Proof.
  split; [|split].
  - intros kd Hkd.
    pose proof (keyword_score_bounds _ _ _ _ Hkd) as Hbounds.
    unfold _calculate_keyword_score in Hkd.
    destruct (extract_keywords self jd_text 30) as [jk|e] eqn:Hj; [|discriminate].
    destruct (extract_keywords self resume_text 50) as [rk|e] eqn:Hr; [|discriminate].
    cbn [mbind result_bind mret result_ret] in Hkd. injection Hkd as <-.
    cbn [KeywordData.score KeywordData.matched_keywords KeywordData.missing_keywords
         KeywordData.total_jd_keywords KeywordData.matched_count] in *.
    apply extract_keywords_nonempty in Hj as [Hjne Hjlen].
    pose proof (keyword_set_size jk Hjne) as [Hlo Hhi].
    pose proof (size_split (keyword_set jk) (keyword_set rk)) as Hsplit.
    rewrite !size_elements.
    split; [lia|]. split; [reflexivity|]. split; [lia|]. split.
    { apply NoDup_app. split; [apply NoDup_elements|]. split; [|apply NoDup_elements].
      intros t Ht Ht'. apply elem_of_elements in Ht, Ht'.
      apply elem_of_intersection in Ht as [_ Ht].
      apply elem_of_difference in Ht' as [_ Ht']. contradiction. }
    rewrite decide_True in * by lia.
    assert (Hle : (size (keyword_set jk ∩ keyword_set rk) <= size (keyword_set jk))%nat)
      by lia.
    rewrite (ratio_score_eq _ _ Hle) by lia.
    split; [reflexivity|]. split; [by rewrite (ratio_score_eq _ _ Hle) in Hbounds by lia|].
    rewrite elements_nil_iff, <- size_zero_iff, <- !INR_IZR_INZ.
    assert (0 < INR (size (keyword_set jk))) as Hpos by (apply lt_0_INR; lia).
    split.
    + intros Heq.
      assert (INR (size (keyword_set jk ∩ keyword_set rk)) = INR (size (keyword_set jk)))
        as Hsz.
      { apply (Rmult_eq_reg_l (100 / INR (size (keyword_set jk)))).
        - transitivity 100; [lra|]. field. lra.
        - apply Rgt_not_eq. apply Rdiv_lt_0_compat; lra. }
      apply INR_eq in Hsz. lia.
    + intros Hz.
      assert (size (keyword_set jk ∩ keyword_set rk) = size (keyword_set jk)) as ->
        by lia.
      field. lra.
  - intros Hnil. unfold _calculate_keyword_score.
    rewrite (extract_keywords_empty self jd_text 30 Hnil) by lia. reflexivity.
  - intros Hnil. unfold _calculate_keyword_score.
    destruct (extract_keywords self jd_text 30) as [jk|e] eqn:Hj.
    + rewrite (extract_keywords_empty self resume_text 50 Hnil) by lia. reflexivity.
    + destruct (decide (keyword_terms self jd_text = [])) as [Hjd|Hjd].
      * rewrite (extract_keywords_empty self jd_text 30 Hjd) in Hj by lia.
        injection Hj as <-. reflexivity.
      * destruct (extract_keywords_Ok self jd_text 30 Hjd) as [kws Hk]; [lia|].
        congruence.
Qed.

Lemma X10_keyword_score_data_witness :
  _calculate_keyword_score toy_processor (text unrelated_resume) stopword_jd =
    Err (ValueError "empty vocabulary; perhaps the documents only contain stop words")
  ∧ ∃ kd, _calculate_keyword_score toy_processor (text unrelated_resume) unrelated_jd
          = Ok kd
          ∧ (1 <= KeywordData.total_jd_keywords kd <= 30)%Z.
Proof.
  split.
  - destruct (X10_keyword_score_data toy_processor (text unrelated_resume) stopword_jd)
      as (_ & Hjd & _).
    apply Hjd. vm_compute. reflexivity.
  - destruct (_calculate_keyword_score_Ok toy_processor (text unrelated_resume)
                unrelated_jd) as [kd Hkd].
    + vm_compute. discriminate.
    + vm_compute. discriminate.
    + exists kd. split; [exact Hkd|].
      destruct (X10_keyword_score_data toy_processor (text unrelated_resume)
                  unrelated_jd) as (Hdata & _ & _).
      apply (Hdata kd Hkd).
Defined.

(** X11: in the data of [_calculate_skill_score] the matched skills are
    the lower-cased skills found in both texts and the missing skills those
    found in the job description only; the two lists are without repetition
    and without a common element and together count the job-description
    skills; the score lies in [0, 100] and, when the job description has a
    skill, is 100 exactly when no skill is missing.  A text compared with
    itself misses nothing and scores 100, or 50 when it has no skill. *)
Theorem X11_skill_score_data self (resume_text jd_text : string) :
  let sd := _calculate_skill_score self resume_text jd_text in
  let resume_all := all_skills (extract_skills self resume_text) in
  let jd_all := all_skills (extract_skills self jd_text) in
  (∀ s, s ∈ SkillData.matched_skills sd ↔ s ∈ resume_all ∧ s ∈ jd_all)
  ∧ (∀ s, s ∈ SkillData.missing_skills sd ↔ s ∈ jd_all ∧ s ∉ resume_all)
  ∧ NoDup (SkillData.matched_skills sd ++ SkillData.missing_skills sd)
  ∧ SkillData.matched_count sd = Z.of_nat (length (SkillData.matched_skills sd))
  ∧ (SkillData.matched_count sd + Z.of_nat (length (SkillData.missing_skills sd))
     = SkillData.total_jd_skills sd)%Z
  ∧ 0 <= SkillData.score sd <= 100
  ∧ ((0 < SkillData.total_jd_skills sd)%Z →
     (SkillData.score sd = 100 ↔ SkillData.missing_skills sd = []))
  ∧ SkillData.missing_skills (_calculate_skill_score self jd_text jd_text) = []
  ∧ SkillData.score (_calculate_skill_score self jd_text jd_text)
    = if decide (0 < size jd_all)%nat then 100 else 50.
Proof.
  cbv zeta.
  pose proof (skill_score_bounds self resume_text jd_text) as Hbounds.
  pose proof (skill_score_eq self resume_text jd_text) as Hscore.
  pose proof (skill_score_eq self jd_text jd_text) as Hself.
  unfold _calculate_skill_score in *.
  cbn [SkillData.score SkillData.matched_skills SkillData.missing_skills
       SkillData.total_jd_skills SkillData.matched_count] in *.
  set (R := all_skills (extract_skills self resume_text)) in *.
  set (J := all_skills (extract_skills self jd_text)) in *.
  pose proof (size_split J R) as Hsplit.
  assert (R ∩ J = J ∩ R) as Hcomm by apply (comm_L _).
  rewrite !size_elements.
  split; [intros s; by rewrite elem_of_elements, elem_of_intersection|].
  split; [intros s; by rewrite elem_of_elements, elem_of_difference|].
  split.
  { apply NoDup_app. split; [apply NoDup_elements|]. split; [|apply NoDup_elements].
    intros t Ht Ht'. apply elem_of_elements in Ht, Ht'.
    apply elem_of_intersection in Ht as [Ht _].
    apply elem_of_difference in Ht' as [_ Ht']. contradiction. }
  split; [reflexivity|]. split; [rewrite Hcomm; lia|]. split; [exact Hbounds|].
  split; [|split].
  - intros Hpos. rewrite elements_nil_iff, <- size_zero_iff.
    rewrite decide_True by lia.
    assert (Hle : (size (R ∩ J) <= size J)%nat) by (rewrite Hcomm; lia).
    rewrite (ratio_score_eq _ _ Hle) by lia. rewrite <- !INR_IZR_INZ.
    assert (0 < INR (size J)) as HJ by (apply lt_0_INR; lia).
    split.
    + intros Heq.
      assert (INR (size (R ∩ J)) = INR (size J)) as Hsz.
      { apply (Rmult_eq_reg_l (100 / INR (size J))).
        - transitivity 100; [lra|]. field. lra.
        - apply Rgt_not_eq. apply Rdiv_lt_0_compat; lra. }
      apply INR_eq in Hsz. rewrite Hcomm in Hsz. lia.
    + intros Hz. assert (size (R ∩ J) = size J) as -> by (rewrite Hcomm; lia).
      field. lra.
  - apply elements_nil_iff. apply size_zero_iff.
    apply size_zero_iff. apply leibniz_equiv. apply difference_diag.
  - rewrite Hself. case_decide as Hd; [|reflexivity].
    assert (J ∩ J = J) as -> by apply (idemp_L _).
    assert (0 < INR (size J)) as HJ by (apply lt_0_INR; lia).
    assert (100 * INR (size J) / INR (size J) = 100) as -> by (field; lra).
    apply Rmin_left. lra.
Qed.

Lemma X11_skill_score_data_witness :
  SkillData.score
    (_calculate_skill_score toy_processor scenario_resume_text scenario_jd) = 100
  ↔ SkillData.missing_skills
      (_calculate_skill_score toy_processor scenario_resume_text scenario_jd) = [].
Proof.
  apply (X11_skill_score_data toy_processor scenario_resume_text scenario_jd).
  unfold _calculate_skill_score. cbn [SkillData.total_jd_skills].
  vm_compute. reflexivity.
Defined.

End MatchData.

(** ** The semantic score and whole requests *)

Section Requests.
Local Open Scope R_scope.
Implicit Types (self : NLPProcessor).

Lemma tfidf_score_swap self (a b : string) :
  similarity_score <$> calculate_tfidf_similarity self a b
  = similarity_score <$> calculate_tfidf_similarity self b a.
Proof.
  destruct (fit_transform_swap 1000 2 (preprocess_text self a) (preprocess_text self b))
    as [(e & Hab & Hba)|(vocab & ra & rb & Hab & Hba)].
  - by rewrite (tfidf_of_fit_err _ _ _ _ Hab), (tfidf_of_fit_err _ _ _ _ Hba).
  - rewrite (tfidf_of_fit _ _ _ _ _ _ Hab), (tfidf_of_fit _ _ _ _ _ _ Hba).
    cbn. f_equal. apply cosine_comm.
Qed.

Lemma bert_score_swap self (a b : string) :
  document_similarity <$> calculate_bert_similarity self a b
  = document_similarity <$> calculate_bert_similarity self b a.
Proof.
  destruct (decide (long_sentences self a = [])) as [Ha|Ha].
  { rewrite !bert_undefined_mean by auto. reflexivity. }
  destruct (decide (long_sentences self b = [])) as [Hb|Hb].
  { rewrite !bert_undefined_mean by auto. reflexivity. }
  destruct (bert_Ok self a b Ha Hb) as [r Hr].
  destruct (bert_Ok self b a Hb Ha) as [r' Hr'].
  rewrite Hr, Hr'. cbn. f_equal.
  apply bert_Ok_inv in Hr as (x & y & Hx & Hy & ->).
  apply bert_Ok_inv in Hr' as (y' & x' & Hy' & Hx' & ->).
  rewrite Hx in Hx'. rewrite Hy in Hy'. injection Hx' as <-. injection Hy' as <-.
  apply cosine_comm.
Qed.

Lemma _calculate_semantic_score_matching self (resume_text jd_text : string)
    (sd : SemanticData.t) :
  _calculate_semantic_score self resume_text jd_text = Ok sd →
  ∃ tr, calculate_tfidf_similarity self resume_text jd_text = Ok tr
        ∧ SemanticData.top_matching_terms sd = take 10 (matching_terms tr).
Proof.
  unfold _calculate_semantic_score.
  destruct (calculate_tfidf_similarity _ _ _) as [tr|e]; [|discriminate].
  destruct (calculate_bert_similarity _ _ _) as [br|e]; [|discriminate].
  intros [= <-]. eauto.
Qed.

(** X12: a returned semantic score is 0.4 times the lexical similarity plus
    0.6 times the embedding similarity, both taken in percent.  The lexical
    part is never negative, and it is positive exactly when a matching term
    is reported; at most 10 matching terms are kept; the score is not
    negative when the embedding similarity is not.  The score does not
    depend on the order of the two texts: both orders raise the same error or
    return the same score. *)
Theorem X12_semantic_score self (resume_text jd_text : string) :
  (∀ sd, _calculate_semantic_score self resume_text jd_text = Ok sd →
     SemanticData.score sd
     = 0.4 * SemanticData.tfidf_similarity sd + 0.6 * SemanticData.bert_similarity sd
     ∧ 0 <= SemanticData.tfidf_similarity sd
     ∧ (0 < SemanticData.tfidf_similarity sd
        ↔ SemanticData.top_matching_terms sd ≠ [])
     ∧ (length (SemanticData.top_matching_terms sd) <= 10)%nat
     ∧ (0 <= SemanticData.bert_similarity sd → 0 <= SemanticData.score sd))
  ∧ SemanticData.score <$> _calculate_semantic_score self resume_text jd_text
    = SemanticData.score <$> _calculate_semantic_score self jd_text resume_text.
Proof.
  split.
  - intros sd Hsd. unfold _calculate_semantic_score in Hsd.
    destruct (calculate_tfidf_similarity _ _ _) as [tr|e] eqn:Htr; [|discriminate].
    destruct (calculate_bert_similarity _ _ _) as [br|e]; [|discriminate].
    injection Hsd as <-.
    cbn [SemanticData.score SemanticData.tfidf_similarity
         SemanticData.bert_similarity SemanticData.top_matching_terms].
    destruct (similarity_pos_iff _ _ _ _ Htr) as [H0 Hpos].
    split; [lra|]. split; [lra|]. split; [|split].
    + rewrite take_nonempty, <- Hpos. split; intros; lra.
    + rewrite length_take. lia.
    + intros Hb. lra.
  - pose proof (tfidf_score_swap self resume_text jd_text) as Ht.
    pose proof (bert_score_swap self resume_text jd_text) as Hb.
    unfold _calculate_semantic_score.
    destruct (calculate_tfidf_similarity self resume_text jd_text) as [tr|e];
      destruct (calculate_tfidf_similarity self jd_text resume_text) as [tr'|e'];
      cbn in Ht; try discriminate.
    + injection Ht as Ht.
      destruct (calculate_bert_similarity self resume_text jd_text) as [br|e];
        destruct (calculate_bert_similarity self jd_text resume_text) as [br'|e'];
        cbn in Hb; try discriminate.
      * injection Hb as Hb. cbn. by rewrite Ht, Hb.
      * exact Hb.
    + exact Ht.
Qed.

Lemma X12_semantic_score_witness :
  ∃ sd, _calculate_semantic_score toy_processor shared_resume_text shared_jd = Ok sd
        ∧ 0 < SemanticData.tfidf_similarity sd
        ∧ SemanticData.top_matching_terms sd ≠ [].
Proof.
  destruct (_calculate_semantic_score_Ok toy_processor shared_resume_text shared_jd)
    as [sd Hsd].
  { left. vm_compute. discriminate. }
  { vm_compute. discriminate. }
  { vm_compute. discriminate. }
  exists sd. split; [exact Hsd|].
  destruct (X12_semantic_score toy_processor shared_resume_text shared_jd)
    as [Hdata _].
  destruct (Hdata sd Hsd) as (_ & _ & Hpos & _).
  assert (SemanticData.top_matching_terms sd ≠ []) as Hne; [|split; [by apply Hpos|exact Hne]].
  apply _calculate_semantic_score_matching in Hsd as (tr & Htr & ->).
  apply take_nonempty.
  apply (matching_terms_nonempty_iff _ _ _ _ Htr). exists "python".
  split; [|split; apply list_elem_of_In; vm_compute; auto].
  apply (tfidf_vocab_complete _ _ _ _ Htr).
  - apply Nat.leb_le. vm_compute. reflexivity.
  - apply list_elem_of_In. vm_compute. auto.
Defined.

Lemma keyword_score_err self (resume_text jd_text : string) :
  keyword_terms self jd_text = [] ∨ keyword_terms self resume_text = [] →
  _calculate_keyword_score self resume_text jd_text =
    Err (ValueError "empty vocabulary; perhaps the documents only contain stop words").
Proof.
  intros Hnil. unfold _calculate_keyword_score.
  destruct (decide (keyword_terms self jd_text = [])) as [Hjd|Hjd].
  - rewrite (extract_keywords_empty self jd_text 30 Hjd) by lia. reflexivity.
  - destruct Hnil as [?|Hres]; [done|].
    destruct (extract_keywords_Ok self jd_text 30 Hjd) as [kws ->]; [lia|].
    rewrite (extract_keywords_empty self resume_text 50 Hres) by lia. reflexivity.
Qed.

Lemma semantic_score_err self (resume_text jd_text : string) :
  lexical_terms self resume_text ≠ [] ∨ lexical_terms self jd_text ≠ [] →
  long_sentences self resume_text = [] ∨ long_sentences self jd_text = [] →
  _calculate_semantic_score self resume_text jd_text =
    Err (ValueError "Expected 2D array, got 1D array instead").
Proof.
  intros Hterms Hsents. unfold _calculate_semantic_score.
  destruct (tfidf_Ok self resume_text jd_text Hterms) as [tr ->].
  rewrite (bert_undefined_mean self resume_text jd_text Hsents). reflexivity.
Qed.

(** X13: a scoring request returns a result exactly when both texts have a
    term after preprocessing, both have a qualifying sentence, and the joined
    experience paragraphs, if any were selected, have a qualifying sentence.
    When the job description or the resume has no term, the request raises
    the vectorizer's empty-vocabulary error; when both have terms and one of
    them has no qualifying sentence, it raises the similarity function's
    input error. *)
Theorem X13_request_outcome self (resume_data : ResumeData) (jd_text : string) :
  ((∃ r, calculate_ats_score self resume_data jd_text = Ok r)
   ↔ keyword_terms self (text resume_data) ≠ []
     ∧ keyword_terms self jd_text ≠ []
     ∧ long_sentences self (text resume_data) ≠ []
     ∧ long_sentences self jd_text ≠ []
     ∧ ∀ sc ps, structured_content resume_data = Some sc → paragraphs sc = Some ps →
         experience_paragraphs_of ps ≠ [] →
         long_sentences self (Py.join " " (experience_paragraphs_of ps)) ≠ [])
  ∧ (keyword_terms self jd_text = [] ∨ keyword_terms self (text resume_data) = [] →
     calculate_ats_score self resume_data jd_text =
       Err (ValueError "empty vocabulary; perhaps the documents only contain stop words"))
  ∧ (keyword_terms self jd_text ≠ [] → keyword_terms self (text resume_data) ≠ [] →
     long_sentences self (text resume_data) = [] ∨ long_sentences self jd_text = [] →
     calculate_ats_score self resume_data jd_text =
       Err (ValueError "Expected 2D array, got 1D array instead")).
Proof.
  split; [split|split].
  - intros [r Hr].
    apply calculate_ats_score_inv in Hr as (kd & sd & ed & Hk & Hs & He & _).
    assert (keyword_terms self (text resume_data) ≠ []
            ∧ keyword_terms self jd_text ≠ []) as [Hres Hjd].
    { split; intros Hnil; rewrite keyword_score_err in Hk by auto; discriminate. }
    assert (long_sentences self (text resume_data) ≠ []
            ∧ long_sentences self jd_text ≠ []) as [Hsr Hsj].
    { split; intros Hnil;
        (rewrite semantic_score_err in Hs;
         [discriminate|left; by apply keyword_terms_lexical_terms|auto]). }
    repeat (split; [assumption|]).
    intros sc ps Hsc Hp Hsel Hnil. rewrite Hsc in He.
    change (default empty_structured_content (Some sc)) with sc in He.
    rewrite (experience_score_found self sc ps jd_text Hp Hsel) in He.
    rewrite bert_undefined_mean in He by auto. discriminate.
  - intros (Hres & Hjd & Hsr & Hsj & Hexp). by apply calculate_ats_score_Ok.
  - intros Hnil. unfold calculate_ats_score.
    rewrite keyword_score_err by exact Hnil. reflexivity.
  - intros Hjd Hres Hsents. unfold calculate_ats_score.
    destruct (_calculate_keyword_score_Ok self _ _ Hres Hjd) as [kd ->].
    cbn [mbind result_bind].
    rewrite semantic_score_err;
      [reflexivity|left; by apply keyword_terms_lexical_terms|exact Hsents].
Qed.

Lemma X13_request_outcome_witness :
  (∃ r, calculate_ats_score toy_processor unrelated_resume unrelated_jd = Ok r)
  ∧ calculate_ats_score toy_processor unrelated_resume stopword_jd =
      Err (ValueError "empty vocabulary; perhaps the documents only contain stop words").
Proof.
  split.
  - apply (X13_request_outcome toy_processor unrelated_resume unrelated_jd).
    split; [vm_compute; discriminate|]. split; [vm_compute; discriminate|].
    split; [vm_compute; discriminate|]. split; [vm_compute; discriminate|].
    intros sc ps [= <-] [= <-] _. vm_compute. discriminate.
  - destruct (X13_request_outcome toy_processor unrelated_resume stopword_jd)
      as (_ & Herr & _).
    apply Herr. left. vm_compute. reflexivity.
Defined.

Lemma truthy_or_elem (blocks : list string) (a x : string) :
  x ∈ (if Py.truthy blocks then blocks else [a]) ↔ x ∈ blocks ∨ (blocks = [] ∧ x = a).
Proof.
  destruct blocks as [|b l]; cbn [Py.truthy].
  - rewrite list_elem_of_singleton. split; [auto|].
    intros [H|[_ ->]]; [by apply elem_of_nil in H|done].
  - split; [auto|]. by intros [H|[? _]].
Qed.

Lemma guarded_block_elem (P : Prop) `{!Decision P} (l : list string) (m x : string) :
  x ∈ (if decide P then if Py.truthy l then [m] else [] else []) ↔ P ∧ l ≠ [] ∧ x = m.
Proof.
  case_decide as HP; [destruct l as [|y l]; cbn [Py.truthy]|];
    rewrite ?list_elem_of_singleton, ?elem_of_nil; intuition congruence.
Qed.

Lemma guarded_block_nil (P : Prop) `{!Decision P} (l : list string) (m : string) :
  (if decide P then if Py.truthy l then [m] else [] else []) = [] ↔ ¬ (P ∧ l ≠ []).
Proof.
  case_decide as HP; [destruct l as [|y l]; cbn [Py.truthy]|]; intuition congruence.
Qed.

Lemma fixed_block_elem (P : Prop) `{!Decision P} (m x : string) :
  x ∈ (if decide P then [m] else []) ↔ P ∧ x = m.
Proof.
  case_decide as HP; rewrite ?list_elem_of_singleton, ?elem_of_nil; intuition congruence.
Qed.

Lemma fixed_block_nil (P : Prop) `{!Decision P} (m : string) :
  (if decide P then [m] else []) = [] ↔ ¬ P.
Proof. case_decide as HP; intuition congruence. Qed.

Lemma formatting_block_elem (P : Prop) `{!Decision P} (issues : list string) (x : string) :
  x ∈ (if decide P then map formatting_suggestion issues else [])
  ↔ P ∧ ∃ issue, issue ∈ issues ∧ x = formatting_suggestion issue.
Proof.
  case_decide as HP.
  - rewrite list_elem_of_fmap. split.
    + intros (i & -> & Hi). eauto.
    + intros (_ & i & Hi & ->). eauto.
  - rewrite elem_of_nil. tauto.
Qed.

Lemma formatting_block_nil (P : Prop) `{!Decision P} (issues : list string) :
  (if decide P then map formatting_suggestion issues else []) = [] ↔ ¬ (P ∧ issues ≠ []).
Proof.
  case_decide as HP; [destruct issues as [|i issues]; cbn [map]|]; intuition congruence.
Qed.

(** Membership in the suggestions, message by message. *)
Lemma suggestions_elem (kd : KeywordData.t) (sd : SkillData.t)
    (md : SemanticData.t) (ed : ExperienceData.t) (fd : FormattingData.t) (x : string) :
  x ∈ _generate_suggestions kd sd md ed fd ↔
    (KeywordData.score kd < 60 ∧ KeywordData.missing_keywords kd ≠ []
     ∧ x = keyword_suggestion (KeywordData.missing_keywords kd))
    ∨ (SkillData.score sd < 70 ∧ SkillData.missing_skills sd ≠ []
       ∧ x = skill_suggestion (SkillData.missing_skills sd))
    ∨ (SemanticData.score md < 50 ∧ x = semantic_suggestion)
    ∨ (ExperienceData.score ed < 60 ∧ x = experience_suggestion)
    ∨ (FormattingData.score fd < 80
       ∧ ∃ issue, issue ∈ FormattingData.issues fd ∧ x = formatting_suggestion issue)
    ∨ (x = affirmation
       ∧ _generate_suggestions kd sd md ed fd = [affirmation]).
Proof.
  pose proof (_generate_suggestions_blocks kd sd md ed fd) as Hblocks.
  cbv zeta in Hblocks. rewrite Hblocks. clear Hblocks.
  match goal with |- _ ∈ (if Py.truthy ?b then _ else _) ↔ _ => set (blocks := b) end.
  assert (x ∈ blocks ↔
    (KeywordData.score kd < 60 ∧ KeywordData.missing_keywords kd ≠ []
     ∧ x = keyword_suggestion (KeywordData.missing_keywords kd))
    ∨ (SkillData.score sd < 70 ∧ SkillData.missing_skills sd ≠ []
       ∧ x = skill_suggestion (SkillData.missing_skills sd))
    ∨ (SemanticData.score md < 50 ∧ x = semantic_suggestion)
    ∨ (ExperienceData.score ed < 60 ∧ x = experience_suggestion)
    ∨ (FormattingData.score fd < 80
       ∧ ∃ issue, issue ∈ FormattingData.issues fd ∧ x = formatting_suggestion issue))
    as Hin.
  { unfold blocks.
    rewrite !elem_of_app, !guarded_block_elem, !fixed_block_elem, formatting_block_elem.
    tauto. }
  rewrite truthy_or_elem, Hin. clearbody blocks.
  destruct blocks as [|b l]; cbn [Py.truthy].
  - split; [|tauto]. intros [H|[_ ->]]; [tauto|]. do 5 right. done.
  - split; [intros [H|[[=] _]]; tauto|].
    intros [H|[H|[H|[H|[H|[-> [= -> ->]]]]]]]; try tauto.
    left. apply Hin. left.
Qed.

Lemma formatting_suggestion_inj (i j : string) :
  formatting_suggestion i = formatting_suggestion j → i = j.
Proof. unfold formatting_suggestion. intros H. simpl in H. by injection H. Qed.

(** Two messages with different first characters differ. *)
Ltac by_head H :=
  apply (f_equal (String.get 0)) in H; discriminate H.

Ltac suggestion_cases Hin :=
  apply suggestions_elem in Hin
    as [(? & ? & Hin)|[(? & ? & Hin)|[(? & Hin)|[(? & Hin)|[(? & ? & ? & Hin)|(Hin & ?)]]]]];
  try by_head Hin.

Lemma keyword_suggestion_elem (kd : KeywordData.t) (sd : SkillData.t)
    (md : SemanticData.t) (ed : ExperienceData.t) (fd : FormattingData.t) :
  keyword_suggestion (KeywordData.missing_keywords kd) ∈ _generate_suggestions kd sd md ed fd
  ↔ KeywordData.score kd < 60 ∧ KeywordData.missing_keywords kd ≠ [].
Proof.
  split.
  - intros Hin. suggestion_cases Hin. auto.
  - intros [? ?]. apply suggestions_elem. left. auto.
Qed.

Lemma skill_suggestion_elem (kd : KeywordData.t) (sd : SkillData.t)
    (md : SemanticData.t) (ed : ExperienceData.t) (fd : FormattingData.t) :
  skill_suggestion (SkillData.missing_skills sd) ∈ _generate_suggestions kd sd md ed fd
  ↔ SkillData.score sd < 70 ∧ SkillData.missing_skills sd ≠ [].
Proof.
  split.
  - intros Hin. suggestion_cases Hin. auto.
  - intros [? ?]. apply suggestions_elem. right. left. auto.
Qed.

Lemma semantic_suggestion_elem (kd : KeywordData.t) (sd : SkillData.t)
    (md : SemanticData.t) (ed : ExperienceData.t) (fd : FormattingData.t) :
  semantic_suggestion ∈ _generate_suggestions kd sd md ed fd
  ↔ SemanticData.score md < 50.
Proof.
  split.
  - intros Hin. suggestion_cases Hin. auto.
  - intros ?. apply suggestions_elem. do 2 right. left. auto.
Qed.

Lemma experience_suggestion_elem (kd : KeywordData.t) (sd : SkillData.t)
    (md : SemanticData.t) (ed : ExperienceData.t) (fd : FormattingData.t) :
  experience_suggestion ∈ _generate_suggestions kd sd md ed fd
  ↔ ExperienceData.score ed < 60.
Proof.
  split.
  - intros Hin. suggestion_cases Hin. auto.
  - intros ?. apply suggestions_elem. do 3 right. left. auto.
Qed.

Lemma formatting_suggestion_elem (kd : KeywordData.t) (sd : SkillData.t)
    (md : SemanticData.t) (ed : ExperienceData.t) (fd : FormattingData.t)
    (issue : string) :
  formatting_suggestion issue ∈ _generate_suggestions kd sd md ed fd
  ↔ FormattingData.score fd < 80 ∧ issue ∈ FormattingData.issues fd.
Proof.
  split.
  - intros Hin. suggestion_cases Hin.
    apply formatting_suggestion_inj in Hin as ->. auto.
  - intros [? ?]. apply suggestions_elem. do 4 right. left. eauto.
Qed.

Lemma affirmation_alone (kd : KeywordData.t) (sd : SkillData.t)
    (md : SemanticData.t) (ed : ExperienceData.t) (fd : FormattingData.t) :
  affirmation ∈ _generate_suggestions kd sd md ed fd
  ↔ _generate_suggestions kd sd md ed fd = [affirmation].
Proof.
  split.
  - intros Hin. suggestion_cases Hin. auto.
  - intros ->. left.
Qed.

Lemma keyword_score_complete self (resume_text jd_text : string) (kd : KeywordData.t) :
  _calculate_keyword_score self resume_text jd_text = Ok kd →
  KeywordData.missing_keywords kd = [] → KeywordData.score kd = 100.
Proof.
  intros Hkd. unfold _calculate_keyword_score in Hkd.
  destruct (extract_keywords self jd_text 30) as [jk|e] eqn:Hj; [|discriminate].
  destruct (extract_keywords self resume_text 50) as [rk|e] eqn:Hr; [|discriminate].
  cbn [mbind result_bind mret result_ret] in Hkd. injection Hkd as <-.
  cbn [KeywordData.score KeywordData.missing_keywords].
  apply extract_keywords_nonempty in Hj as [Hjne Hjlen].
  pose proof (keyword_set_size jk Hjne) as [Hlo Hhi].
  pose proof (size_split (keyword_set jk) (keyword_set rk)) as Hsplit.
  rewrite elements_nil_iff, <- size_zero_iff. intros Hz.
  rewrite decide_True by lia.
  assert (size (keyword_set jk ∩ keyword_set rk) = size (keyword_set jk)) as -> by lia.
  assert (0 < INR (size (keyword_set jk))) as Hpos by (apply lt_0_INR; lia).
  replace (INR (size (keyword_set jk)) / INR (size (keyword_set jk)) * 100) with 100
    by (field; lra).
  apply Rmin_left. lra.
Qed.

Lemma calculate_ats_score_lists self (resume_data : ResumeData) (jd_text : string)
    (r : AnalysisResult) :
  calculate_ats_score self resume_data jd_text = Ok r →
  missing_skills r = SkillData.missing_skills (bd_skill_match (breakdown r))
  ∧ missing_keywords r = KeywordData.missing_keywords (bd_keyword_match (breakdown r)).
Proof.
  unfold calculate_ats_score.
  destruct (_calculate_keyword_score _ _ _) as [kd|e]; [|discriminate].
  cbn [mbind result_bind].
  destruct (_calculate_semantic_score _ _ _) as [sd|e]; [|discriminate].
  destruct (_calculate_experience_score _ _ _) as [ed|e]; [|discriminate].
  intros [= <-]. split; reflexivity.
Qed.

(** X14: the suggestions of a returned result, message by message.  The
    keyword message, which lists the result's missing keywords, is present
    exactly when the keyword score is below 60 (in a request a score below
    100 always leaves a keyword missing); the skill message exactly when the
    skill score is below 70 and a skill is missing; the semantic and the
    experience message exactly below 50 and 60; the message of a formatting
    issue exactly when the formatting score is below 80 and the issue was
    recorded.  The affirmation is never mixed with another message.  For a
    resume without structured content (a PDF, or text posted to the API)
    the experience score is 30, so the experience message is always present
    and the affirmation never. *)
Theorem X14_request_suggestions self (resume_data : ResumeData) (jd_text : string)
    (r : AnalysisResult) :
  calculate_ats_score self resume_data jd_text = Ok r →
  let bd := breakdown r in
  (keyword_suggestion (missing_keywords r) ∈ suggestions r
   ↔ KeywordData.score (bd_keyword_match bd) < 60)
  ∧ (skill_suggestion (missing_skills r) ∈ suggestions r
     ↔ SkillData.score (bd_skill_match bd) < 70 ∧ missing_skills r ≠ [])
  ∧ (semantic_suggestion ∈ suggestions r
     ↔ SemanticData.score (bd_semantic_similarity bd) < 50)
  ∧ (experience_suggestion ∈ suggestions r
     ↔ ExperienceData.score (bd_experience_relevance bd) < 60)
  ∧ (∀ issue, formatting_suggestion issue ∈ suggestions r
       ↔ FormattingData.score (bd_formatting_quality bd) < 80
         ∧ issue ∈ FormattingData.issues (bd_formatting_quality bd))
  ∧ (affirmation ∈ suggestions r ↔ suggestions r = [affirmation])
  ∧ (structured_content resume_data = None →
     ExperienceData.score (bd_experience_relevance bd) = 30
     ∧ experience_suggestion ∈ suggestions r
     ∧ affirmation ∉ suggestions r).
Proof.
  intros Hr. cbv zeta.
  destruct (calculate_ats_score_lists _ _ _ _ Hr) as [-> ->].
  apply calculate_ats_score_inv in Hr as (kd & sd & ed & Hk & _ & He & -> & _ & ->).
  cbn [bd_keyword_match bd_skill_match bd_semantic_similarity
       bd_experience_relevance bd_formatting_quality].
  pose proof (keyword_score_complete _ _ _ _ Hk) as Hcomplete. clear Hk.
  revert He.
  generalize (_calculate_skill_score self (text resume_data) jd_text) as skd.
  generalize (_calculate_formatting_score resume_data) as fd.
  intros fd skd He.
  pose proof (experience_suggestion_elem kd skd sd ed fd) as Hexp.
  pose proof (affirmation_alone kd skd sd ed fd) as Haff.
  split; [|split; [|split; [|split; [|split; [|split]]]]].
  - rewrite (keyword_suggestion_elem kd skd sd ed fd). split; [tauto|].
    intros Hlt. split; [exact Hlt|]. intros Hnil. apply Hcomplete in Hnil. lra.
  - exact (skill_suggestion_elem kd skd sd ed fd).
  - exact (semantic_suggestion_elem kd skd sd ed fd).
  - exact Hexp.
  - intros issue. exact (formatting_suggestion_elem kd skd sd ed fd issue).
  - exact Haff.
  - intros Hnone. rewrite Hnone in He.
    rewrite experience_score_absent in He by reflexivity. injection He as <-.
    cbn [ExperienceData.score] in *.
    assert (Hin : experience_suggestion ∈ _generate_suggestions kd skd sd
              {| ExperienceData.score := 30;
                 ExperienceData.details := Some "Unable to analyze experience structure";
                 ExperienceData.experience_paragraphs_count := None;
                 ExperienceData.relevance_score := None |} fd)
      by (apply Hexp; lra).
    split; [reflexivity|]. split; [exact Hin|].
    intros Ha. apply Haff in Ha. rewrite Ha in Hin.
    apply list_elem_of_singleton in Hin. by_head Hin.
Qed.

Lemma X14_request_suggestions_witness :
  ∃ r, calculate_ats_score toy_processor posted_resume unrelated_jd = Ok r
       ∧ ExperienceData.score (bd_experience_relevance (breakdown r)) = 30
       ∧ experience_suggestion ∈ suggestions r
       ∧ affirmation ∉ suggestions r.
Proof.
  destruct (calculate_ats_score_Ok toy_processor posted_resume unrelated_jd)
    as [r Hr];
    [vm_compute; discriminate|vm_compute; discriminate|vm_compute; discriminate
    |vm_compute; discriminate|intros sc ps [=]|].
  exists r. split; [exact Hr|].
  destruct (X14_request_suggestions toy_processor posted_resume unrelated_jd r Hr)
    as (_ & _ & _ & _ & _ & _ & Hnone).
  apply Hnone. reflexivity.
Defined.

End Requests.

(** ** The formatting issues *)

Section FormattingMore.
Local Open Scope R_scope.

Lemma formatting_issues_eq (resume_data : ResumeData) :
  FormattingData.issues (_calculate_formatting_score resume_data) =
    default [] (formatting_issues (default empty_metadata (metadata resume_data)))
    ++ (if (Py.len (text resume_data) <? 500)%Z then ["Resume appears too short"]
        else if (5000 <? Py.len (text resume_data))%Z then ["Resume might be too long"]
        else [])
    ++ match structured_content resume_data with
       | Some sc =>
           if (Z.of_nat (length (default [] (paragraphs sc))) <? 3)%Z
           then ["Lacks proper paragraph structure"] else []
       | None => []
       end.
Proof.
  unfold _calculate_formatting_score.
  rewrite Z.gtb_ltb.
  destruct (formatting_issues _) as [[|i fi]|]; cbn [Py.truthy default];
    destruct (_ <? 500)%Z; try destruct (5000 <? _)%Z;
    destruct (structured_content resume_data) as [sc|];
    try destruct (_ <? 3)%Z; cbn [FormattingData.issues];
    unfold Datatypes.id; cbn [app]; rewrite ?app_nil_r, <- ?app_assoc; reflexivity.
Qed.

Lemma formatting_metadata_eq (resume_data : ResumeData) :
  FormattingData.metadata (_calculate_formatting_score resume_data) =
    default empty_metadata (metadata resume_data).
Proof.
  unfold _calculate_formatting_score.
  destruct (formatting_issues _) as [fi|]; [destruct (Py.truthy fi)|];
    destruct (_ <? 500)%Z; try destruct (_ >? 5000)%Z;
    destruct (structured_content resume_data) as [sc|];
    try destruct (_ <? 3)%Z; reflexivity.
Qed.

(** X15: the issue list of the formatting data is the list reported by the
    extraction followed by at most one length issue and at most one
    paragraph issue; every issue costs between 10 and 20 points, so the
    score is 100 exactly when no issue is listed and otherwise lies between
    [100 - 20 n] and [100 - 10 n] for [n] issues (clamped at 0); the
    metadata is passed through. *)
Theorem X15_formatting_issues (resume_data : ResumeData) :
  let fd := _calculate_formatting_score resume_data in
  let reported :=
    default [] (formatting_issues (default empty_metadata (metadata resume_data))) in
  let n := Z.of_nat (length (FormattingData.issues fd)) in
  (∃ added, FormattingData.issues fd = reported ++ added
     ∧ added `sublist_of` ["Resume appears too short"; "Resume might be too long";
                           "Lacks proper paragraph structure"]
     ∧ ¬ ("Resume appears too short" ∈ added ∧ "Resume might be too long" ∈ added)
     ∧ ("Lacks proper paragraph structure" ∈ added → structured_content resume_data ≠ None))
  ∧ (FormattingData.score fd = 100 ↔ FormattingData.issues fd = [])
  ∧ IZR (100 - 20 * n) <= FormattingData.score fd <= IZR (Z.max 0 (100 - 10 * n))
  ∧ FormattingData.metadata fd = default empty_metadata (metadata resume_data).
Proof.
  cbv zeta.
  rewrite formatting_issues_eq, formatting_score_eq.
  set (reported := default [] (formatting_issues _)).
  split; [|split; [|split; [|apply formatting_metadata_eq]]].
  - eexists. split; [reflexivity|].
    destruct (_ <? 500)%Z; [|destruct (5000 <? _)%Z];
      (destruct (structured_content resume_data) as [sc|];
       [destruct (_ <? 3)%Z|]); cbn [app];
      (split; [solve [repeat first [apply sublist_nil | apply sublist_skip
                                   | apply sublist_cons]]|]);
      (split; [rewrite ?elem_of_cons, ?elem_of_nil; intuition discriminate|]);
      rewrite ?elem_of_cons, ?elem_of_nil; intuition discriminate.
  - destruct reported as [|i fi]; cbn [length app];
      (destruct (_ <? 500)%Z; [|destruct (5000 <? _)%Z]);
      (destruct (structured_content resume_data) as [sc|];
       [destruct (_ <? 3)%Z|]); cbn [app];
      (split; [intros H; apply eq_IZR in H; try lia; try reflexivity
              |intros H; try discriminate H; f_equal]).
  - rewrite !length_app.
    destruct (_ <? 500)%Z; [|destruct (5000 <? _)%Z];
      (destruct (structured_content resume_data) as [sc|];
       [destruct (_ <? 3)%Z|]); cbn [length];
      split; apply IZR_le; lia.
Qed.

End FormattingMore.

(** ** Strings: reversal, stripping and splitting *)

Section Strings.

Lemma rev_app_spec (s1 s2 : string) :
  String.rev_app s1 s2 = String.rev s1 +:+ s2.
Proof.
  unfold String.rev. revert s2.
  induction s1 as [|c s1 IH]; intros s2; cbn [String.rev_app]; [reflexivity|].
  rewrite (IH (String c s2)), (IH (String c "")), append_assoc. reflexivity.
Qed.

Lemma rev_cons (c : ascii) (s : string) :
  String.rev (String c s) = String.rev s +:+ String c "".
Proof. unfold String.rev at 1. cbn [String.rev_app]. apply rev_app_spec. Qed.

Lemma append_nil_r (s : string) : s +:+ "" = s.
Proof. induction s as [|c s IH]; [reflexivity|by rewrite append_cons, IH]. Qed.

Lemma rev_append (s1 s2 : string) :
  String.rev (s1 +:+ s2) = String.rev s2 +:+ String.rev s1.
Proof.
  induction s1 as [|c s1 IH].
  - change (String.rev "") with "". by rewrite append_nil_l, append_nil_r.
  - by rewrite append_cons, !rev_cons, IH, append_assoc.
Qed.

Lemma rev_involutive (s : string) : String.rev (String.rev s) = s.
Proof.
  induction s as [|c s IH]; [reflexivity|].
  rewrite rev_cons, rev_append, IH. reflexivity.
Qed.

Lemma length_append (s1 s2 : string) :
  String.length (s1 +:+ s2) = (String.length s1 + String.length s2)%nat.
Proof.
  induction s1 as [|c s1 IH]; [reflexivity|].
  rewrite append_cons. cbn [String.length]. by rewrite IH.
Qed.

Lemma length_rev (s : string) : String.length (String.rev s) = String.length s.
Proof.
  induction s as [|c s IH]; [reflexivity|].
  rewrite rev_cons, length_append, IH. cbn. lia.
Qed.

Lemma blank_append (a b : string) : blank (a +:+ b) ↔ blank a ∧ blank b.
Proof.
  induction a as [|c a IH]; [rewrite append_nil_l; cbn; tauto|].
  rewrite append_cons. cbn [blank]. rewrite IH. tauto.
Qed.

Lemma blank_rev (a : string) : blank a → blank (String.rev a).
Proof.
  induction a as [|c a IH]; [done|]. intros [Hc Ha].
  rewrite rev_cons. apply blank_append. cbn. auto.
Qed.

Lemma lstrip_decompose (s : string) :
  ∃ a, s = a +:+ Py.lstrip s ∧ blank a.
Proof.
  induction s as [|c s (a & IH & Ha)]; cbn [Py.lstrip].
  - exists "". done.
  - destruct (Ascii.is_space c) eqn:Hc.
    + exists (String c a). rewrite append_cons, <- IH. done.
    + exists "". done.
Qed.

Lemma lstrip_no_lead (s : string) : no_lead (Py.lstrip s).
Proof.
  induction s as [|c s IH]; cbn [Py.lstrip]; [done|].
  destruct (Ascii.is_space c) eqn:Hc; [exact IH|exact Hc].
Qed.

Lemma lstrip_id (s : string) : no_lead s → Py.lstrip s = s.
Proof. destruct s as [|c s]; cbn; [done|]. by intros ->. Qed.

Lemma no_lead_prefix (a b : string) : no_lead (a +:+ b) → a ≠ "" → no_lead a.
Proof. destruct a as [|c a]; [done|]. rewrite append_cons. cbn [no_lead]. auto. Qed.

(** [strip] removes white space at both ends and nothing else. *)
Lemma strip_decompose (s : string) :
  ∃ a b, s = a +:+ Py.strip s +:+ b ∧ blank a ∧ blank b.
Proof.
  unfold Py.strip.
  destruct (lstrip_decompose s) as (a & Ha & Hblank).
  destruct (lstrip_decompose (String.rev (Py.lstrip s))) as (b & Hb & Hblank').
  exists a, (String.rev b). split; [|split; [exact Hblank|by apply blank_rev]].
  rewrite <- rev_append, <- Hb, rev_involutive. exact Ha.
Qed.

Lemma strip_no_lead (s : string) : no_lead (Py.strip s).
Proof.
  unfold Py.strip.
  destruct (lstrip_decompose (String.rev (Py.lstrip s))) as (b & Hb & _).
  set (u := Py.lstrip (String.rev (Py.lstrip s))) in *.
  destruct (decide (String.rev u = "")) as [->|Hne]; [done|].
  apply (no_lead_prefix _ (String.rev b)); [|exact Hne].
  rewrite <- rev_append, <- Hb, rev_involutive. apply lstrip_no_lead.
Qed.

Lemma strip_no_trail (s : string) : no_lead (String.rev (Py.strip s)).
Proof. unfold Py.strip. rewrite rev_involutive. apply lstrip_no_lead. Qed.

Lemma strip_fixed (s : string) :
  no_lead s → no_lead (String.rev s) → Py.strip s = s.
Proof.
  intros Hl Hr. unfold Py.strip.
  rewrite (lstrip_id s Hl), (lstrip_id _ Hr). apply rev_involutive.
Qed.

Lemma strip_idemp (s : string) : Py.strip (Py.strip s) = Py.strip s.
Proof. apply strip_fixed; [apply strip_no_lead|apply strip_no_trail]. Qed.

Lemma strip_length (s : string) :
  (String.length (Py.strip s) <= String.length s)%nat.
Proof.
  destruct (strip_decompose s) as (a & b & Hs & _).
  rewrite Hs at 2. rewrite !length_append. lia.
Qed.

Lemma split_on_nonempty (sep : ascii) (s : string) : Py.split_on sep s ≠ [].
Proof.
  induction s as [|c s IH]; cbn [Py.split_on]; [done|].
  destruct (Ascii.eqb c sep); [done|]. by destruct (Py.split_on sep s).
Qed.

Lemma split_on_cons_other (sep c : ascii) (s : string) :
  c ≠ sep →
  ∃ w ws, Py.split_on sep s = w :: ws
          ∧ Py.split_on sep (String c s) = String c w :: ws.
Proof.
  intros Hc. cbn [Py.split_on].
  destruct (Ascii.eqb_spec c sep) as [->|_]; [done|].
  pose proof (split_on_nonempty sep s) as Hne.
  destruct (Py.split_on sep s) as [|w ws]; [done|]. eauto.
Qed.

(** A string without the separator is one piece. *)
Lemma split_on_one (sep : ascii) (e : string) :
  sep ∉ Py.chars e → Py.split_on sep e = [e].
Proof.
  induction e as [|c e IH]; cbn [Py.chars]; [done|].
  intros [Hc He]%not_elem_of_cons.
  destruct (split_on_cons_other sep c e) as (w & ws & Hs & ->); [done|].
  rewrite IH in Hs by exact He. by injection Hs as <- <-.
Qed.

(** Splitting distributes over a separator. *)
Lemma split_on_app (sep : ascii) (a b : string) :
  Py.split_on sep (a +:+ String sep b) = Py.split_on sep a ++ Py.split_on sep b.
Proof.
  induction a as [|c a IH].
  - rewrite append_nil_l. cbn [Py.split_on]. by rewrite Ascii.eqb_refl.
  - rewrite append_cons. destruct (Ascii.eqb_spec c sep) as [->|Hc].
    + cbn [Py.split_on]. rewrite Ascii.eqb_refl, IH. reflexivity.
    + destruct (split_on_cons_other sep c a Hc) as (w & ws & Hs & ->).
      destruct (split_on_cons_other sep c (a +:+ String sep b) Hc)
        as (w' & ws' & Hs' & ->).
      rewrite IH, Hs in Hs'. by injection Hs' as <- <-.
Qed.

(** No piece holds the separator. *)
Lemma split_on_pieces (sep : ascii) (s w : string) :
  w ∈ Py.split_on sep s → sep ∉ Py.chars w.
Proof.
  revert w. induction s as [|c s IH]; intros w.
  - cbn [Py.split_on]. intros ->%list_elem_of_singleton. apply not_elem_of_nil.
  - destruct (Ascii.eqb_spec c sep) as [->|Hc].
    + cbn [Py.split_on]. rewrite Ascii.eqb_refl.
      intros [->|Hin]%elem_of_cons; [apply not_elem_of_nil|by apply IH].
    + destruct (split_on_cons_other sep c s Hc) as (w0 & ws & Hs & ->).
      rewrite Hs in IH.
      intros [->|Hin]%elem_of_cons.
      * cbn [Py.chars]. apply not_elem_of_cons. split; [done|]. apply IH. left.
      * apply IH. by right.
Qed.

(** Joining the pieces with the separator gives the string back. *)
Lemma join_split_on (sep : ascii) (s : string) :
  Py.join (String sep "") (Py.split_on sep s) = s.
Proof.
  unfold Py.join. induction s as [|c s IH]; [reflexivity|].
  destruct (Ascii.eqb_spec c sep) as [->|Hc].
  - cbn [Py.split_on]. rewrite Ascii.eqb_refl.
    pose proof (split_on_nonempty sep s) as Hne.
    destruct (Py.split_on sep s) as [|w ws] eqn:Hs; [done|].
    cbn [String.concat]. cbn [String.concat] in IH. by rewrite IH.
  - destruct (split_on_cons_other sep c s Hc) as (w & ws & Hs & ->).
    rewrite Hs in IH. destruct ws as [|w' ws]; cbn [String.concat] in *.
    + by rewrite IH.
    + rewrite append_cons. by rewrite IH.
Qed.

Lemma concat_snoc (sep : string) (init : list string) (e : string) :
  init ≠ [] →
  String.concat sep (init ++ [e]) = String.concat sep init +:+ sep +:+ e.
Proof.
  induction init as [|x init IH]; [done|]. intros _.
  destruct init as [|y init].
  - reflexivity.
  - change (String.concat sep ((x :: y :: init) ++ [e]))
      with (x +:+ sep +:+ String.concat sep ((y :: init) ++ [e])).
    rewrite IH by done.
    change (String.concat sep (x :: y :: init))
      with (x +:+ sep +:+ String.concat sep (y :: init)).
    by rewrite !append_assoc.
Qed.

(** The last piece of a split: the part after the last separator, or the
    whole string when it has none. *)
Lemma last_split_on (sep : ascii) (s e : string) :
  Py.last_item (Py.split_on sep s) = e
  ↔ (sep ∉ Py.chars e) ∧ (s = e ∨ ∃ stem, s = stem +:+ String sep e).
Proof.
  unfold Py.last_item. split.
  - intros Hlast.
    pose proof (split_on_nonempty sep s) as Hne.
    pose proof (join_split_on sep s) as Hjoin.
    pose proof (split_on_pieces sep s) as Hpieces.
    destruct (exists_last Hne) as (init & e' & Hs). rewrite Hs in *.
    rewrite last_last in Hlast. subst e'.
    split; [apply Hpieces, elem_of_app; right; left|].
    destruct init as [|x init]; [left; by rewrite <- Hjoin|].
    right. exists (String.concat (String sep "") (x :: init)).
    rewrite <- Hjoin. unfold Py.join. rewrite concat_snoc by done.
    reflexivity.
  - intros [He [->|[stem ->]]].
    + by rewrite split_on_one.
    + rewrite split_on_app, (split_on_one sep e He). apply last_last.
Qed.

End Strings.

(** ** The upload form *)

Section Forms.

(** X16: the form accepts a job description exactly when it has at least
    50 characters after stripping, and then returns the stripped text, which
    differs from the input only by white space removed at the two ends;
    otherwise it raises the length error.  An accepted value is accepted
    unchanged when cleaned again. *)
Theorem X16_clean_job_description (jd : string) :
  (∀ s, clean_job_description jd = Valid s
        ↔ s = Py.strip jd ∧ (50 <= Py.len s)%Z)
  ∧ (clean_job_description jd
       = ValidationError "Job description must be at least 50 characters long"
     ↔ (Py.len (Py.strip jd) < 50)%Z)
  ∧ (∀ s, clean_job_description jd = Valid s →
       clean_job_description s = Valid s
       ∧ (Py.len s <= Py.len jd)%Z
       ∧ no_lead s ∧ no_lead (String.rev s)
       ∧ ∃ a b, jd = a +:+ s +:+ b ∧ blank a ∧ blank b).
Proof.
  unfold clean_job_description.
  split; [|split].
  - intros s. destruct (Z.ltb_spec (Py.len (Py.strip jd)) 50) as [Hlt|Hge].
    + split; [discriminate|]. intros [-> Hs]. lia.
    + split; [by intros [= <-]|]. by intros [-> _].
  - destruct (Z.ltb_spec (Py.len (Py.strip jd)) 50) as [Hlt|Hge].
    + done.
    + split; [discriminate|lia].
  - intros s. destruct (Z.ltb_spec (Py.len (Py.strip jd)) 50) as [Hlt|Hge];
      [discriminate|]. intros [= <-].
    rewrite strip_idemp.
    destruct (Z.ltb_spec (Py.len (Py.strip jd)) 50) as [Hlt|_]; [lia|].
    split; [reflexivity|].
    split; [unfold Py.len; pose proof (strip_length jd); lia|].
    split; [apply strip_no_lead|]. split; [apply strip_no_trail|].
    apply strip_decompose.
Qed.

Lemma X16_clean_job_description_witness :
  clean_job_description ("  " +:+ stopword_jd +:+ " ") = Valid stopword_jd
  ∧ clean_job_description stopword_jd = Valid stopword_jd.
Proof.
  assert (clean_job_description ("  " +:+ stopword_jd +:+ " ") = Valid stopword_jd)
    as Hclean.
  { apply (X16_clean_job_description ("  " +:+ stopword_jd +:+ " ")).
    split; [vm_compute; reflexivity|vm_compute; discriminate]. }
  split; [exact Hclean|].
  destruct (X16_clean_job_description ("  " +:+ stopword_jd +:+ " "))
    as (_ & _ & Hagain).
  apply (Hagain stopword_jd Hclean).
Defined.

(** X17: a named file passes [clean_resume_file] exactly when it has at
    most 10485760 bytes and its lower-cased name, after the last dot, reads
    pdf or docx; a name without any dot that is just pdf or docx passes as
    well, and the case of the letters does not matter.  The size is checked
    first: a file that is too large gets the size message whatever its name.
    A missing file or a file without a name passes unchecked. *)
Theorem X17_clean_resume_file (f : UploadedFile) :
  let name := Py.lower (file_name f) in
  let has_extension e := name = e ∨ ∃ stem, name = stem +:+ "." +:+ e in
  (clean_resume_file (Some f) = Valid (Some f)
   ↔ file_name f = ""
     ∨ ((file_size f <= 10485760)%Z ∧ (has_extension "pdf" ∨ has_extension "docx")))
  ∧ (clean_resume_file (Some f) = ValidationError "File size must be under 10MB"
     ↔ file_name f ≠ "" ∧ (10485760 < file_size f)%Z)
  ∧ (clean_resume_file (Some f) = ValidationError "Only PDF and DOCX files are allowed"
     ↔ file_name f ≠ "" ∧ (file_size f <= 10485760)%Z
       ∧ ¬ (has_extension "pdf" ∨ has_extension "docx"))
  ∧ clean_resume_file None = Valid None.
Proof.
  cbv zeta.
  assert (Hext : ("." +:+ Py.last_item (Py.split_on "." (Py.lower (file_name f))))
                   ∈ [".pdf"; ".docx"]
                 ↔ (Py.lower (file_name f) = "pdf"
                    ∨ ∃ stem, Py.lower (file_name f) = stem +:+ "." +:+ "pdf")
                   ∨ (Py.lower (file_name f) = "docx"
                      ∨ ∃ stem, Py.lower (file_name f) = stem +:+ "." +:+ "docx")).
  { rewrite !elem_of_cons, elem_of_nil.
    assert (∀ e, "." +:+ Py.last_item (Py.split_on "." (Py.lower (file_name f)))
                 = "." +:+ e
                 ↔ Py.last_item (Py.split_on "." (Py.lower (file_name f))) = e) as Hinj.
    { intros e. split; [intros H; by injection H|by intros ->]. }
    change ".pdf" with ("." +:+ "pdf"). change ".docx" with ("." +:+ "docx").
    rewrite !Hinj, !last_split_on.
    assert ("."%char ∉ Py.chars "pdf") as Hpdf
      by (cbn; rewrite !not_elem_of_cons; repeat split; try discriminate;
          apply not_elem_of_nil).
    assert ("."%char ∉ Py.chars "docx") as Hdocx
      by (cbn; rewrite !not_elem_of_cons; repeat split; try discriminate;
          apply not_elem_of_nil).
    change ("." +:+ "pdf") with (String "." "pdf").
    change ("." +:+ "docx") with (String "." "docx").
    tauto. }
  unfold clean_resume_file, file_truthy.
  destruct (String.eqb_spec (file_name f) "") as [Hname|Hname]; cbn [negb].
  { split; [tauto|]. split; [split; [discriminate|tauto]|].
    split; [split; [discriminate|tauto]|reflexivity]. }
  rewrite Z.gtb_ltb.
  change (10 * 1024 * 1024)%Z with 10485760%Z.
  destruct (Z.ltb_spec 10485760 (file_size f)) as [Hbig|Hsmall].
  { split; [split; [discriminate|intros [?|[? _]]; [done|lia]]|].
    split; [tauto|]. split; [split; [discriminate|lia]|reflexivity]. }
  case_bool_decide as Hno.
  - split; [split; [discriminate|intros [?|[_ Hok]]; [done|by apply Hext in Hok]]|].
    split; [split; [discriminate|lia]|].
    split; [|reflexivity]. split; [|done].
    intros _. split; [done|]. split; [done|]. by rewrite <- Hext.
  - pose proof (proj1 Hext Hno) as Hok.
    split; [tauto|]. split; [split; [discriminate|lia]|].
    split; [split; [discriminate|tauto]|reflexivity].
Qed.

End Forms.

(** ** Texts without letters *)

Section Letterless.
Implicit Types (self : NLPProcessor).
















End Letterless.
